(** * chmike/migrate: the step registry, the migrator and the transactional
      step functions, embedded from steps.go, version.go, error.go,
      migrate.go and sqldb.go.

    Conventions of the embedding.
    - Go [int] and [uint64] are [Z]; [uint64(x)] is [x mod 2^64].
    - Go strings and byte slices are [string] / [list byte].
    - A method that mutates its receiver or the database takes the state in
      and returns the new state next to its results.
    - An [error] result is [option error]; [None] is Go's [nil].
    - [context.Context] values are only passed through by the code and are
      left out.  The mutexes are left out as well: every method is modelled
      as the sequential body it runs while holding its lock.
    - The logger is the [NilAdapter] that [New] installs for a nil logger;
      its methods have empty bodies, so logging calls leave no trace in the
      model. *)

From Stdlib Require Import ZArith List String Ascii Bool Lia.
From Stdlib Require Import Init.Byte Strings.Byte.
From Stdlib Require DecimalString.
Import ListNotations.
Local Open Scope string_scope.
Local Open Scope Z_scope.

Set Implicit Arguments.

(* ================================================================== *)
(** ** Bytes *)

Definition byte_of_Z (z : Z) : byte :=
  match Byte.of_N (Z.to_N (z mod 256)) with
  | Some b => b
  | None => x00
  end.

Definition Z_of_byte (b : byte) : Z := Z.of_N (Byte.to_N b).

(** [[]byte(s)] for a Go string [s]. *)
Definition bytes_of_string (s : string) : list byte := list_byte_of_string s.

(** [binary.LittleEndian.AppendUint64(b, v)]: the eight bytes of [v],
    least significant first. *)
Definition le_uint64 (v : Z) : list byte :=
  let u := v mod 2 ^ 64 in
  map (fun k => byte_of_Z (Z.shiftr u (8 * Z.of_nat k))) (seq 0 8).

Definition AppendUint64 (b : list byte) (v : Z) : list byte := b ++ le_uint64 v.

(* ================================================================== *)
(** ** crypto/sha256 (FIPS 180-4), on 32-bit words held in [Z] *)

Module SHA256.

Definition w32 (x : Z) : Z := x mod 2 ^ 32.
Definition add32 (x y : Z) : Z := w32 (x + y).
Definition rotr (n x : Z) : Z :=
  w32 (Z.lor (Z.shiftr x n) (Z.shiftl x (32 - n))).
Definition not32 (x : Z) : Z := Z.lxor x 0xffffffff.

Definition Ch (x y z : Z) : Z := Z.lxor (Z.land x y) (Z.land (not32 x) z).
Definition Maj (x y z : Z) : Z :=
  Z.lxor (Z.lxor (Z.land x y) (Z.land x z)) (Z.land y z).
Definition Sigma0 (x : Z) : Z := Z.lxor (Z.lxor (rotr 2 x) (rotr 13 x)) (rotr 22 x).
Definition Sigma1 (x : Z) : Z := Z.lxor (Z.lxor (rotr 6 x) (rotr 11 x)) (rotr 25 x).
Definition sigma0 (x : Z) : Z := Z.lxor (Z.lxor (rotr 7 x) (rotr 18 x)) (Z.shiftr x 3).
Definition sigma1 (x : Z) : Z := Z.lxor (Z.lxor (rotr 17 x) (rotr 19 x)) (Z.shiftr x 10).

(** The first 64 primes. *)
Definition primes : list Z :=
  [ 2; 3; 5; 7; 11; 13; 17; 19; 23; 29; 31; 37; 41; 43; 47; 53; 59; 61; 67; 71;
    73; 79; 83; 89; 97; 101; 103; 107; 109; 113; 127; 131; 137; 139; 149; 151;
    157; 163; 167; 173; 179; 181; 191; 193; 197; 199; 211; 223; 227; 229; 233;
    239; 241; 251; 257; 263; 269; 271; 277; 281; 283; 293; 307; 311 ].

(** Integer cube root, one bit at a time from bit [b - 1] down. *)
Fixpoint cbrt_bits (b : nat) (n r : Z) : Z :=
  match b with
  | O => r
  | S b' =>
      let r' := r + 2 ^ Z.of_nat b' in
      cbrt_bits b' n (if r' * r' * r' <=? n then r' else r)
  end.

(** The round constants: the first 32 bits of the fractional parts of the
    cube roots of the first 64 primes. *)
Definition K : list Z :=
  Eval vm_compute in map (fun p => w32 (cbrt_bits 36 (p * 2 ^ 96) 0)) primes.

(** The initial hash value: the first 32 bits of the fractional parts of
    the square roots of the first 8 primes. *)
Definition H0 : list Z :=
  Eval vm_compute in map (fun p => w32 (Z.sqrt (p * 2 ^ 64))) (firstn 8 primes).

(** Big-endian encoding of [x] on [n] bytes. *)
Definition be_bytes (n : nat) (x : Z) : list byte :=
  map (fun k => byte_of_Z (Z.shiftr x (8 * Z.of_nat (n - 1 - k)))) (seq 0 n).

Definition be_word (bs : list byte) : Z :=
  fold_left (fun acc b => acc * 256 + Z_of_byte b) bs 0.

(** Padding: a 1 bit, zeros up to 56 mod 64, then the bit length on 64 bits. *)
Definition pad (msg : list byte) : list byte :=
  let len := Z.of_nat (List.length msg) in
  let zeros := Z.to_nat ((55 - len) mod 64) in
  msg ++ x80 :: repeat x00 zeros ++ be_bytes 8 ((8 * len) mod 2 ^ 64).

(** The words of one block, [n] of them. *)
Fixpoint words (n : nat) (bs : list byte) : list Z :=
  match n with
  | O => []
  | S n' => be_word (firstn 4 bs) :: words n' (skipn 4 bs)
  end.

(** Message schedule: [sched n w] extends [w] by [n] more words. *)
Fixpoint sched (n : nat) (w : list Z) : list Z :=
  match n with
  | O => w
  | S n' =>
      let t := List.length w in
      let at_ k := nth (t - k) w 0 in
      let wt := add32 (add32 (sigma1 (at_ 2%nat)) (at_ 7%nat))
                      (add32 (sigma0 (at_ 15%nat)) (at_ 16%nat)) in
      sched n' (w ++ [wt])
  end.

Record regs := Regs { ra : Z; rb : Z; rc : Z; rd : Z; re : Z; rf : Z; rg : Z; rh : Z }.

Definition round (r : regs) (kw : Z * Z) : regs :=
  let t1 := add32 (add32 (add32 (rh r) (Sigma1 (re r)))
                         (add32 (Ch (re r) (rf r) (rg r)) (fst kw))) (snd kw) in
  let t2 := add32 (Sigma0 (ra r)) (Maj (ra r) (rb r) (rc r)) in
  Regs (add32 t1 t2) (ra r) (rb r) (rc r) (add32 (rd r) t1) (re r) (rf r) (rg r).

Definition regs_of (h : list Z) : regs :=
  Regs (nth 0 h 0) (nth 1 h 0) (nth 2 h 0) (nth 3 h 0)
       (nth 4 h 0) (nth 5 h 0) (nth 6 h 0) (nth 7 h 0).

Definition list_of (r : regs) : list Z :=
  [ra r; rb r; rc r; rd r; re r; rf r; rg r; rh r].

Definition compress (h : list Z) (block : list byte) : list Z :=
  let w := sched 48 (words 16 block) in
  let r := fold_left round (combine K w) (regs_of h) in
  map (fun p => add32 (fst p) (snd p)) (combine h (list_of r)).

Fixpoint blocks (n : nat) (h : list Z) (bs : list byte) : list Z :=
  match n with
  | O => h
  | S n' => blocks n' (compress h (firstn 64 bs)) (skipn 64 bs)
  end.

(** [sha256.Sum256]. *)
Definition Sum256 (msg : list byte) : list byte :=
  let p := pad msg in
  let h := blocks (Nat.div (List.length p) 64) H0 p in
  flat_map (be_bytes 4) h.

End SHA256.

(* ================================================================== *)
(** ** encoding/hex and decimal printing *)

Definition hexdigit (n : Z) : ascii :=
  nth (Z.to_nat n)
      ["0"; "1"; "2"; "3"; "4"; "5"; "6"; "7"; "8"; "9"; "a"; "b"; "c"; "d"; "e"; "f"]%char
      "0"%char.

(** [hex.EncodeToString]. *)
Fixpoint EncodeToString (bs : list byte) : string :=
  match bs with
  | [] => EmptyString
  | b :: bs' =>
      String (hexdigit (Z_of_byte b / 16))
        (String (hexdigit (Z_of_byte b mod 16)) (EncodeToString bs'))
  end.


(** [hex.DecodeString]: the decoded prefix and the error.  The errors are
    [hex.InvalidByteError] and [hex.ErrLength]; only their being non-nil
    matters to this package, so both are kept as plain messages. *)
Definition fromHexChar (c : ascii) : option Z :=
  let n := Z.of_N (N_of_ascii c) in
  if (48 <=? n) && (n <=? 57) then Some (n - 48)
  else if (97 <=? n) && (n <=? 102) then Some (n - 97 + 10)
  else if (65 <=? n) && (n <=? 70) then Some (n - 65 + 10)
  else None.

Definition errorString_msg_InvalidByte : string := "encoding/hex: invalid byte".
Definition errorString_msg_ErrLength : string := "encoding/hex: odd length hex string".

Fixpoint hexDecode (s : string) : list byte * option string :=
  match s with
  | EmptyString => ([], None)
  | String p EmptyString =>
      match fromHexChar p with
      | None => ([], Some errorString_msg_InvalidByte)
      | Some _ => ([], Some errorString_msg_ErrLength)
      end
  | String p (String q rest) =>
      match fromHexChar p, fromHexChar q with
      | Some a, Some b =>
          let r := hexDecode rest in
          (byte_of_Z (Z.lor (Z.shiftl a 4) b) :: fst r, snd r)
      | _, _ => ([], Some errorString_msg_InvalidByte)
      end
  end.

(** [%d] of a Go [int]. *)
Definition itoa (z : Z) : string :=
  DecimalString.NilZero.string_of_int (Z.to_int z).

(** [%.10s]: at most the first ten bytes of the string. *)
Definition prec10 (s : string) : string := substring 0 10 s.

(* ================================================================== *)
(** ** error.go, and the error values of [errors] and [fmt] *)

(** [type Error string]. *)
Definition Error : Type := string.

Definition ErrBadParameters : Error := "bad parameters".
Definition ErrAlreadyInitialized : Error := "already initialized".
Definition ErrBadVersionID : Error := "bad version identifier".
Definition ErrBadVersionChecksum : Error := "bad version checksum".
Definition ErrNotInitialized : Error := "not initialized".
Definition ErrBadVersion : Error := "bad version".
Definition ErrEndOfSteps : Error := "end of steps".
Definition ErrNotSQLDB : Error := "not an SQL database".
Definition ErrBeginTx : Error := "begin transaction".
Definition ErrCommitTx : Error := "commit transaction".
Definition ErrRollbackTx : Error := "rollback transaction".
Definition ErrCancel : Error := "cancel transaction".
Definition ErrAbort : Error := "abort transaction".

#[local] Set Warnings "-register-all".

(** The dynamic values an [error] interface holds in this package:
    a [migrate.Error] constant, the [*errors.errorString] of [errors.New]
    and of [fmt.Errorf] without [%w], the [*fmt.wrapError] of [fmt.Errorf]
    with one [%w], and the [*fmt.wrapErrors] of [fmt.Errorf] with several. *)
Inductive error : Type :=
| ofError (e : Error)
| errorString (s : string)
| wrapError (msg : string) (err : error)
| wrapErrors (msg : string) (errs : list error).

(** The [Error()] method. *)
Definition Error_msg (e : error) : string :=
  match e with
  | ofError s => s
  | errorString s => s
  | wrapError msg _ => msg
  | wrapErrors msg _ => msg
  end.

(** [errors.Is(err, target)] for a target of type [migrate.Error]: the
    target is compared by value with every [migrate.Error] found by
    unwrapping, depth first. *)
Fixpoint Is (err : error) (target : Error) : bool :=
  match err with
  | ofError s => String.eqb s target
  | errorString _ => false
  | wrapError _ e => Is e target
  | wrapErrors _ es =>
      (fix any (l : list error) : bool :=
         match l with
         | [] => false
         | e :: l' => Is e target || any l'
         end) es
  end.

(** [inner] is [err] itself or is reached from [err] by unwrapping. *)
Fixpoint Wraps (err inner : error) {struct err} : Prop :=
  err = inner \/
  match err with
  | wrapError _ e => Wraps e inner
  | wrapErrors _ es =>
      (fix any (l : list error) : Prop :=
         match l with
         | [] => False
         | e :: l' => Wraps e inner \/ any l'
         end) es
  | _ => False
  end.

(** [fmt.Errorf(pre + "%w" + post, e)]. *)
Definition Errorf_w (pre : string) (e : error) (post : string) : error :=
  wrapError (pre ++ Error_msg e ++ post) e.

(** [fmt.Errorf(pre + "%w" + mid + "%w" + post, e1, e2)]. *)
Definition Errorf_ww (pre : string) (e1 : error) (mid : string) (e2 : error)
    (post : string) : error :=
  wrapErrors (pre ++ Error_msg e1 ++ mid ++ Error_msg e2 ++ post) [e1; e2].

(** [fmt.Errorf("%w; %w: %w", e1, e2, e3)]. *)
Definition Errorf_www (e1 e2 e3 : error) : error :=
  wrapErrors (Error_msg e1 ++ "; " ++ Error_msg e2 ++ ": " ++ Error_msg e3)
             [e1; e2; e3].

(* ================================================================== *)
(** ** version.go *)

Record Version := mkVersion { ID : Z; Checksum : list byte }.

(** The zero value of [[32]byte]. *)
Definition zeroChecksum : list byte := repeat x00 32.

Definition Version_eqb (a b : Version) : bool :=
  (ID a =? ID b) &&
  if list_eq_dec byte_eq_dec (Checksum a) (Checksum b) then true else false.

Definition ChecksumString (v : Version) : string := EncodeToString (Checksum v).

(** [fmt.Sprintf("v%d:%.10s...", v.ID, hex.EncodeToString(v.Checksum[:]))]. *)
Definition Version_String (v : Version) : string :=
  "v" ++ itoa (ID v) ++ ":" ++ prec10 (EncodeToString (Checksum v)) ++ "...".

Definition badVersion : Version := mkVersion (-1) zeroChecksum.
Definition BadVersion : Version := badVersion.

Definition MakeVersion (id : Z) (checksum : string) : Version * option error :=
  if id <? 0 then
    (badVersion, Some (Errorf_w "" (ofError ErrBadVersionID) (": id " ++ itoa id)))
  else
    match hexDecode checksum with
    | (_, Some msg) =>
        (badVersion, Some (Errorf_ww "" (ofError ErrBadVersionChecksum) ": " (errorString msg) ""))
    | (b, None) =>
        if negb (Nat.eqb (List.length b) 32) then
          (badVersion, Some (Errorf_w "" (ofError ErrBadVersionChecksum) ": invalid length"))
        else (mkVersion id b, None)
    end.

(* ================================================================== *)
(** ** The interfaces (StepInfo, Database, SQLDB, StepFunc, Stepper) *)

(** [stepInfo], read through the [StepInfo] interface. *)
Record StepInfo := mkStepInfo { Name : string; From : Version; To : Version }.

(** [fmt.Sprintf("'%s' %v -> %v", s.name, s.from, s.to)]. *)
Definition StepInfo_String (s : StepInfo) : string :=
  "'" ++ Name s ++ "' " ++ Version_String (From s) ++ " -> " ++ Version_String (To s).

Section Interfaces.

(** The state behind the database handle (and whatever else the step
    functions of the user can reach). *)
Variable W : Type.

(** The methods [SQLDB] adds to [Database].  [StartTransaction] returns the
    transaction handle in Go; the model has at most one open transaction,
    held in the state, so [FinalizeTransaction] (a method of that handle)
    is listed here.  Its first argument and its result are the [*err]
    it reads and writes. *)
Record SQLDB := mkSQLDB {
  SQLDB_StartTransaction : W -> option error * W;
  SQLDB_FinalizeTransaction : option error -> bool -> W -> option error * W;
  SQLDB_VersionTx : W -> Version * option error * W;
  SQLDB_SetVersion : StepInfo -> bool -> W -> option error * W;
  SQLDB_SetVersionTx : StepInfo -> bool -> W -> option error * W
}.

(** A [Database] value; [Database_asSQLDB] is what the type assertion
    [gdb.(SQLDB)] finds. *)
Record Database := mkDatabase {
  Database_InitVersion : Version -> bool -> W -> option error * W;
  Database_Version : W -> Version * option error * W;
  Database_DefaultStepFunc : StepInfo -> bool -> W -> option error * W;
  Database_asSQLDB : option SQLDB
}.

(** [type StepFunc func(ctx, db, info, dryRun, log) error]. *)
Definition StepFunc : Type := Database -> StepInfo -> bool -> W -> option error * W.

(** [Up] and [Down] return [(nfo, f, err)] with either [err] nil, or [nfo]
    and [f] nil: [inl (nfo, f)] and [inr err].  [f] itself may be nil. *)
Record Stepper := mkStepper {
  Stepper_Len : Z;
  Stepper_Version : Z -> Version * option error;
  Stepper_Name : Z -> string * option error;
  Stepper_Check : Version -> option error;
  Stepper_Up : Version -> StepInfo * option StepFunc + error;
  Stepper_Down : Version -> StepInfo * option StepFunc + error
}.

(* ================================================================ *)
(** ** steps.go *)

Record step := mkStep {
  step_name : string;
  step_up : option StepFunc;
  step_down : option StepFunc;
  step_version : Version
}.

Record Steps := mkSteps { steps : list step }.

(** [l[i]]; [None] stands for the run-time panic of an index out of range. *)
Definition index (A : Type) (l : list A) (i : Z) : option A :=
  if i <? 0 then None else nth_error l (Z.to_nat i).

(** The zero value of [step]. *)
Definition zeroStep : step := mkStep "" None None (mkVersion 0 zeroChecksum).

(** [s.steps[i]] at the places where [checkID] has accepted the index
    (see [steps_at_index]). *)
Definition steps_at (s : Steps) (i : Z) : step :=
  match index (steps s) i with
  | Some st => st
  | None => zeroStep
  end.

Definition NewSteps (name : string) : Steps :=
  mkSteps [ mkStep name None None
              (mkVersion 0 (SHA256.Sum256 (bytes_of_string name))) ].

(** [Append]; the outer [None] is the panic of [s.steps[ID-1]] on a
    [Steps] with no step at all (the zero value of the struct). *)
Definition Steps_Append (s : Steps) (name : string) (up down : option StepFunc)
  : option (option error * Steps) :=
  if String.eqb name "" then
    Some (Some (errorString "append step: name is empty"), s)
  else
    let ID := Z.of_nat (List.length (steps s)) in
    match index (steps s) (ID - 1) with
    | None => None
    | Some prev =>
        let b : list byte := [] in
        let b := (b ++ Checksum (step_version prev))%list in
        let b := AppendUint64 b ID in
        let b := (b ++ bytes_of_string name)%list in
        Some (None,
              mkSteps (steps s ++
                         [mkStep name up down (mkVersion ID (SHA256.Sum256 b))])%list)
    end.

Definition Steps_Len (s : Steps) : Z := Z.of_nat (List.length (steps s)).

Definition checkID (s : Steps) (ID : Z) : option error :=
  if (ID <? 0) || (ID >=? Z.of_nat (List.length (steps s))) then
    Some (Errorf_w "" (ofError ErrBadVersionID) (": id " ++ itoa ID))
  else None.

Definition Steps_Version (s : Steps) (ID : Z) : Version * option error :=
  match checkID s ID with
  | Some err => (badVersion, Some err)
  | None => (step_version (steps_at s ID), None)
  end.

Definition Steps_Name (s : Steps) (ID : Z) : string * option error :=
  match checkID s ID with
  | Some err => ("", Some err)
  | None => (step_name (steps_at s ID), None)
  end.

Definition check (s : Steps) (v : Version) : option error :=
  match checkID s (ID v) with
  | Some err => Some err
  | None =>
      let ev := step_version (steps_at s (ID v)) in
      if negb (Version_eqb ev v) then
        Some (Errorf_w "" (ofError ErrBadVersionChecksum)
                (": expect '" ++ prec10 (EncodeToString (Checksum ev))
                 ++ "...', got '" ++ prec10 (EncodeToString (Checksum v)) ++ "...'"))
      else None
  end.

Definition Steps_Check (s : Steps) (v : Version) : option error := check s v.

Definition Steps_Up (s : Steps) (v : Version)
  : StepInfo * option StepFunc + error :=
  match check s v with
  | Some _ =>
      inr (Errorf_w "" (ofError ErrBadVersion) (": " ++ Version_String v))
  | None =>
      if ID v =? Z.of_nat (List.length (steps s)) - 1 then
        inr (Errorf_w "" (ofError ErrEndOfSteps) (": " ++ Version_String v))
      else
        let from := steps_at s (ID v) in
        let to := steps_at s (ID v + 1) in
        inl (mkStepInfo (step_name to) (step_version from) (step_version to),
             step_up to)
  end.

Definition Steps_Down (s : Steps) (v : Version)
  : StepInfo * option StepFunc + error :=
  match check s v with
  | Some _ =>
      inr (Errorf_w "" (ofError ErrBadVersion) (": " ++ Version_String v))
  | None =>
      if ID v =? 0 then
        inr (Errorf_w "" (ofError ErrEndOfSteps) (": " ++ Version_String v))
      else
        let from := steps_at s (ID v) in
        let to := steps_at s (ID v - 1) in
        inl (mkStepInfo (step_name from) (step_version from) (step_version to),
             step_down from)
  end.

(** [*Steps] as a [Stepper]. *)
Definition Steps_Stepper (s : Steps) : Stepper :=
  mkStepper (Steps_Len s) (Steps_Version s) (Steps_Name s) (Steps_Check s)
            (Steps_Up s) (Steps_Down s).

(** The registries a program can build: [NewSteps] followed by [Append]
    calls that returned nil. *)
Inductive Built : Steps -> Prop :=
| Built_New : forall name, Built (NewSteps name)
| Built_Append : forall s name up down s',
    Built s -> Steps_Append s name up down = Some (None, s') -> Built s'.

(** The names of the steps of a registry, anchor first. *)
Definition names (s : Steps) : list string := map step_name (steps s).

(** An [Append] call to replay: the name and the two operations. *)
Definition name_of (x : string * option StepFunc * option StepFunc) : string :=
  fst (fst x).

(** Replaying a list of names (with given operations) on a registry. *)
Fixpoint replay (s : Steps) (l : list (string * option StepFunc * option StepFunc))
  : option Steps :=
  match l with
  | [] => Some s
  | (n, u, d) :: l' =>
      match Steps_Append s n u d with
      | Some (None, s') => replay s' l'
      | _ => None
      end
  end.

End Interfaces.

Arguments name_of {W} x.

(* ================================================================== *)
(** ** migrate.go

    A migrator holds its database and its stepper by reference and owns
    the cached version; its methods return the migrator with the new cache
    next to the new state of the database.  Two things are taken from the
    way the package is meant to be used: the registry is complete before a
    migration runs (no [Append] in the middle of a call), and a step
    function does not call back into the migrator that runs it (its mutex
    is held for the whole call). *)

Section MigratorDef.

Variable W : Type.

Record Migrator := mkMigrator {
  m_db : Database W;
  m_steps : Stepper W;
  cachedVersion : Version
}.

Definition set_cachedVersion (m : Migrator) (v : Version) : Migrator :=
  mkMigrator (m_db m) (m_steps m) v.

(** [New]; a nil interface argument is [None]. *)
Definition New (db : option (Database W)) (steps : option (Stepper W))
  : option Migrator * option error :=
  match db, steps with
  | Some d, Some st => (Some (mkMigrator d st badVersion), None)
  | _, _ =>
      (None, Some (Errorf_w "" (ofError ErrBadParameters) ": nil database or stepper"))
  end.

Definition versionCtx (m : Migrator) (w : W) : Version * option error * Migrator * W :=
  let m := set_cachedVersion m badVersion in
  let '(v, err, w) := Database_Version (m_db m) w in
  match err with
  | Some e => (cachedVersion m, Some e, m, w)
  | None =>
      match Stepper_Check (m_steps m) v with
      | Some e => (cachedVersion m, Some e, m, w)
      | None =>
          let m := set_cachedVersion m v in
          (cachedVersion m, None, m, w)
      end
  end.

Definition Migrator_VersionCtx (m : Migrator) (w : W)
  : Version * option error * Migrator * W := versionCtx m w.

Definition Migrator_Version := Migrator_VersionCtx.

Definition initCtx (m : Migrator) (dryRun : bool) (w : W) : option error * Migrator * W :=
  let '(_, err, m, w) := versionCtx m w in
  match err with
  | None =>
      (Some (Errorf_w "" (ofError ErrAlreadyInitialized)
               (" as " ++ Version_String (cachedVersion m))), m, w)
  | Some _ =>
      match Stepper_Version (m_steps m) 0 with
      | (_, Some err) =>
          (Some (Errorf_ww "" (ofError ErrNotInitialized) ": " err ""), m, w)
      | (v, None) =>
          match Database_InitVersion (m_db m) v dryRun w with
          | (Some err, w) =>
              (Some (Errorf_ww "" (ofError ErrNotInitialized) ": " err ""), m, w)
          | (None, w) =>
              let m := if negb dryRun then set_cachedVersion m v else m in
              (None, m, w)
          end
      end
  end.

Definition Migrator_InitCtx (m : Migrator) (w : W) := initCtx m false w.
Definition Migrator_Init := Migrator_InitCtx.
Definition Migrator_InitDryRunCtx (m : Migrator) (w : W) := initCtx m true w.
Definition Migrator_InitDryRun := Migrator_InitDryRunCtx.

Definition oneUp (m : Migrator) (dryRun : bool) (w : W) : option error * Migrator * W :=
  match Stepper_Up (m_steps m) (cachedVersion m) with
  | inr err => (Some err, m, w)
  | inl (info, up) =>
      let '(err, w) :=
        match up with
        | None => Database_DefaultStepFunc (m_db m) info dryRun w
        | Some up => up (m_db m) info dryRun w
        end in
      let m :=
        match err with
        | None => if negb dryRun then set_cachedVersion m (To info) else m
        | Some _ => m
        end in
      (err, m, w)
  end.

Definition oneDown (m : Migrator) (dryRun : bool) (w : W) : option error * Migrator * W :=
  match Stepper_Down (m_steps m) (cachedVersion m) with
  | inr err => (Some err, m, w)
  | inl (info, down) =>
      let '(err, w) :=
        match down with
        | None => Database_DefaultStepFunc (m_db m) info dryRun w
        | Some down => down (m_db m) info dryRun w
        end in
      let m :=
        match err with
        | None => if negb dryRun then set_cachedVersion m (To info) else m
        | Some _ => m
        end in
      (err, m, w)
  end.

(** [if err := op; err != nil { return fmt.Errorf(prefix + "%w", err) }; return nil]. *)
Definition wrapOp (prefix : string) (r : option error * Migrator * W)
  : option error * Migrator * W :=
  let '(err, m, w) := r in
  match err with
  | Some e => (Some (Errorf_w prefix e ""), m, w)
  | None => (None, m, w)
  end.

Definition Migrator_OneUpCtx (m : Migrator) (w : W) := wrapOp "one up: " (oneUp m false w).
Definition Migrator_OneUp := Migrator_OneUpCtx.
Definition Migrator_OneDownCtx (m : Migrator) (w : W) := wrapOp "one down: " (oneDown m false w).
Definition Migrator_OneDown := Migrator_OneDownCtx.
Definition Migrator_OneUpDryRunCtx (m : Migrator) (w : W) :=
  wrapOp "one up dry run: " (oneUp m true w).
Definition Migrator_OneUpDryRun := Migrator_OneUpDryRunCtx.
Definition Migrator_OneDownDryRunCtx (m : Migrator) (w : W) :=
  wrapOp "one down dry run: " (oneDown m true w).
Definition Migrator_OneDownDryRun := Migrator_OneDownDryRunCtx.

(** The [for] loop of [AllUpCtx] and [AllDownCtx], run for at most [fuel]
    iterations; [None] when the loop has not returned by then. *)
Fixpoint allLoop (one : Migrator -> bool -> W -> option error * Migrator * W)
    (prefix : string) (fuel : nat) (m : Migrator) (w : W)
  : option (option error * Migrator * W) :=
  match fuel with
  | O => None
  | S fuel' =>
      let '(err, m, w) := one m false w in
      match err with
      | Some e =>
          if Is e ErrEndOfSteps then Some (None, m, w)
          else Some (Some (Errorf_w prefix e ""), m, w)
      | None => allLoop one prefix fuel' m w
      end
  end.

Definition Migrator_AllUpCtx := allLoop oneUp "all up: ".
Definition Migrator_AllUp := Migrator_AllUpCtx.
Definition Migrator_AllDownCtx := allLoop oneDown "all down: ".
Definition Migrator_AllDown := Migrator_AllDownCtx.

End MigratorDef.

(* ================================================================== *)
(** ** sqldb.go: [TxF], written against the [SQLDB] interface *)

Section TxFDef.

Variable W : Type.

(** [type TxFunc func(tx SQLTx, info StepInfo, dryRun bool, log Logger) error]. *)
Definition TxFunc : Type := StepInfo -> bool -> W -> option error * W.

(** The [for _, f := range fs] loop of [TxF] with its [cancel] flag.  The
    first component is the error of an early [return err]. *)
Fixpoint TxF_loop (fs : list TxFunc) (info : StepInfo) (dryRun : bool)
    (cancel : bool) (w : W) : option error * bool * W :=
  match fs with
  | [] => (None, cancel, w)
  | f :: fs' =>
      let '(err, w) := f info dryRun w in
      match err with
      | Some e =>
          if negb (Is e ErrCancel) then (Some e, cancel, w)
          else TxF_loop fs' info dryRun true w
      | None => TxF_loop fs' info dryRun cancel w
      end
  end.

(** The second deferred function of [TxF] (the first one only logs). *)
Definition TxF_deferred (info : StepInfo) (dryRun : bool) (err : option error)
  : option error :=
  match err with
  | None => None
  | Some e =>
      if Is e ErrCancel then None
      else if dryRun then
        Some (Errorf_w ("txf " ++ Version_String (From info) ++ " -> "
                        ++ Version_String (To info) ++ " dry run: ") e "")
      else
        Some (Errorf_w ("txf " ++ Version_String (From info) ++ " -> "
                        ++ Version_String (To info) ++ ": ") e "")
  end.

Definition TxF (fs : list TxFunc) : StepFunc W :=
  fun gdb info dryRun w =>
    match Database_asSQLDB gdb with
    | None => (Some (Errorf_w "txf: " (ofError ErrNotSQLDB) ""), w)
    | Some db =>
        match SQLDB_StartTransaction db w with
        | (Some e, w) => (TxF_deferred info dryRun (Some e), w)
        | (None, w) =>
            (* every return below runs [tx.FinalizeTransaction(&err, dryRun)]
               and then the deferred function above *)
            let returns (err : option error) (w : W) :=
              let '(err, w) := SQLDB_FinalizeTransaction db err dryRun w in
              (TxF_deferred info dryRun err, w) in
            let '(dbv, err, w) := SQLDB_VersionTx db w in
            match err with
            | Some e => returns (Some e) w
            | None =>
                if negb (Version_eqb dbv (From info)) then
                  returns (Some (errorString ("db is " ++ Version_String dbv))) w
                else
                  let '(err, cancel, w) := TxF_loop fs info dryRun false w in
                  match err with
                  | Some e => returns (Some e) w
                  | None =>
                      if cancel then returns (Some (ofError ErrCancel)) w
                      else
                        let '(err, w) := SQLDB_SetVersionTx db info dryRun w in
                        returns err w
                  end
            end
        end
    end.

End TxFDef.

(* ================================================================== *)
(** ** sqldb.go: [NoTxF], written against the [SQLDB] interface *)

Section NoTxFDef.

Variable W : Type.

(** [type NoTxFunc func(ctx, db SQLDB, info StepInfo, log Logger) error]. *)
Definition NoTxFunc : Type := SQLDB W -> StepInfo -> W -> option error * W.

(** The [for _, f := range fs] loop of [NoTxF]: it returns at the first
    error, whatever the error is. *)
Fixpoint NoTxF_loop (fs : list NoTxFunc) (db : SQLDB W) (info : StepInfo) (w : W)
  : option error * W :=
  match fs with
  | [] => (None, w)
  | f :: fs' =>
      let '(err, w) := f db info w in
      match err with
      | Some e => (Some e, w)
      | None => NoTxF_loop fs' db info w
      end
  end.

(** The second deferred function of [NoTx] and of [NoTxF] (the first one
    only logs). *)
Definition NoTx_deferred (info : StepInfo) (err : option error) : option error :=
  match err with
  | None => None
  | Some e =>
      Some (Errorf_w ("sql " ++ Version_String (From info) ++ " -> "
                      ++ Version_String (To info) ++ ": ") e "")
  end.

(** [NoTxF]; [db.Version] is the [Database] method of the value the type
    assertion has found, that is of [gdb] itself. *)
Definition NoTxF (fs : list NoTxFunc) : StepFunc W :=
  fun gdb info dryRun w =>
    match Database_asSQLDB gdb with
    | None => (Some (Errorf_w "f: " (ofError ErrNotSQLDB) ""), w)
    | Some db =>
        if dryRun then (None, w)
        else
          let '(dbv, err, w) := Database_Version gdb w in
          match err with
          | Some e => (NoTx_deferred info (Some e), w)
          | None =>
              if negb (Version_eqb dbv (From info)) then
                (NoTx_deferred info (Some (errorString ("db is " ++ Version_String dbv))), w)
              else
                let '(err, w) := NoTxF_loop fs db info w in
                match err with
                | Some e => (NoTx_deferred info (Some e), w)
                | None =>
                    let '(err, w) := SQLDB_SetVersion db info dryRun w in
                    (NoTx_deferred info err, w)
                end
          end
    end.

End NoTxFDef.

(* ================================================================== *)
(** ** sqldb.go: [sqlDB] and [sqlTx] over a model of database/sql

    The engine behind [*sql.DB] is not part of the package.  It is modelled
    as a transactional store: statements of an open transaction act on a
    working copy, [Commit] installs it, [Rollback] drops it.  What a
    statement does to the tables is left to two parameters, [sql_exec] and
    [sql_query_row].  Failures of [BeginTx], [Commit] and [Rollback] are
    scripted in the state, the way the tests script go-sqlmock; every
    driver call is recorded in a journal. *)

Record Queries := mkQueries {
  CreateTableQuery : string;
  InitTableQuery : string;
  VersionQuery : string;
  SetVersionQuery : string
}.

Inductive sqlarg : Type :=
| argInt (z : Z)
| argText (s : string).

(** What [Exec] returns: an error, or a [sql.Result] of which only
    [RowsAffected()] (a count and an error) is read. *)
Inductive ExecOutcome : Type :=
| ExecError (msg : string)
| ExecResult (rowsAffected : Z) (rowsErr : option string).

Inductive call : Type :=
| callBegin
| callCommit
| callRollback
| callExec (q : string) (args : list sqlarg)
| callQueryRow (q : string).

Definition errTxDone : string :=
  "sql: transaction has already been committed or rolled back".

Section SqlDB.

(** The tables of the database. *)
Variable Store : Type.
(** The state of the Go program that the callbacks of the user can reach;
    it takes no part in transactions. *)
Variable Env : Type.

(** [Exec(query, args...)] on the tables. *)
Variable sql_exec : string -> list sqlarg -> Store -> ExecOutcome * Store.
(** [QueryRow(query).Scan(&id, &checksum)] on the tables. *)
Variable sql_query_row : string -> Store -> string + Z * string.

Record Conn := mkConn {
  disk : Store;                   (* the committed tables *)
  txn : option Store;             (* the working copy of the open transaction *)
  env : Env;
  faults : list (option string);  (* outcomes of the coming Begin/Commit/Rollback *)
  journal : list call             (* the driver calls so far, oldest first *)
}.

Definition record (k : call) (c : Conn) : Conn :=
  mkConn (disk c) (txn c) (env c) (faults c) (journal c ++ [k]).

Definition next_fault (c : Conn) : option string * Conn :=
  match faults c with
  | [] => (None, c)
  | f :: fs => (f, mkConn (disk c) (txn c) (env c) fs (journal c))
  end.

Definition set_txn (c : Conn) (t : option Store) : Conn :=
  mkConn (disk c) t (env c) (faults c) (journal c).

(** [db.BeginTx]. *)
Definition DB_BeginTx (c : Conn) : option error * Conn :=
  let '(f, c) := next_fault (record callBegin c) in
  match f with
  | Some msg => (Some (errorString msg), c)
  | None => (None, set_txn c (Some (disk c)))
  end.

(** [tx.Rollback]. *)
Definition Tx_Rollback (c : Conn) : option error * Conn :=
  let c := record callRollback c in
  match txn c with
  | None => (Some (errorString errTxDone), c)
  | Some _ =>
      let '(f, c) := next_fault c in
      (option_map errorString f, set_txn c None)
  end.

(** [tx.Commit]. *)
Definition Tx_Commit (c : Conn) : option error * Conn :=
  let c := record callCommit c in
  match txn c with
  | None => (Some (errorString errTxDone), c)
  | Some s =>
      let '(f, c) := next_fault c in
      match f with
      | Some msg => (Some (errorString msg), set_txn c None)
      | None => (None, mkConn s None (env c) (faults c) (journal c))
      end
  end.

(** [tx.Exec]. *)
Definition Tx_Exec (q : string) (args : list sqlarg) (c : Conn) : ExecOutcome * Conn :=
  let c := record (callExec q args) c in
  match txn c with
  | None => (ExecError errTxDone, c)
  | Some s =>
      let '(r, s) := sql_exec q args s in
      (r, set_txn c (Some s))
  end.

(** [tx.QueryRow(q).Scan(&id, &checksum)]. *)
Definition Tx_QueryRow_Scan (q : string) (c : Conn) : (string + Z * string) * Conn :=
  let c := record (callQueryRow q) c in
  match txn c with
  | None => (inl errTxDone, c)
  | Some s => (sql_query_row q s, c)
  end.

Variable q : Queries.

Definition sqlDB_StartTransaction (c : Conn) : option error * Conn :=
  match DB_BeginTx c with
  | (Some err, c) => (Some (Errorf_ww "" (ofError ErrBeginTx) ": " err ""), c)
  | (None, c) => (None, c)
  end.

Definition sqlTx_FinalizeTransaction (err : option error) (dryRun : bool) (c : Conn)
  : option error * Conn :=
  if (match err with Some _ => true | None => false end) || dryRun then
    match Tx_Rollback c with
    | (Some rollbackErr, c) =>
        match err with
        | Some e => (Some (Errorf_www e (ofError ErrRollbackTx) rollbackErr), c)
        | None => (Some (Errorf_ww "" (ofError ErrRollbackTx) ": " rollbackErr ""), c)
        end
    | (None, c) => (err, c)
    end
  else
    match Tx_Commit c with
    | (Some commitErr, c) => (Some (Errorf_ww "" (ofError ErrCommitTx) ": " commitErr ""), c)
    | (None, c) => (err, c)
    end.

Definition sqlDB_VersionTx (c : Conn) : Version * option error * Conn :=
  match Tx_QueryRow_Scan (VersionQuery q) c with
  | (inl msg, c) =>
      (mkVersion 0 zeroChecksum,
       Some (Errorf_ww "" (ofError ErrNotInitialized) ": " (errorString msg) ""), c)
  | (inr (id, checksum), c) =>
      let '(v, err) := MakeVersion id checksum in (v, err, c)
  end.

Definition sqlDB_SetVersionTx (info : StepInfo) (dryRun : bool) (c : Conn)
  : option error * Conn :=
  match Tx_Exec (SetVersionQuery q)
          [argInt (ID (To info)); argText (ChecksumString (To info));
           argInt (ID (From info)); argText (ChecksumString (From info))] c with
  | (ExecError msg, c) => (Some (errorString msg), c)
  | (ExecResult rowsAffected rowsErr, c) =>
      match rowsErr with
      | None =>
          if negb (rowsAffected =? 1) then (Some (ofError ErrBadVersion), c)
          else (None, c)
      | Some msg => (Some (errorString msg), c)
      end
  end.

Definition sqlDB_SetVersion (info : StepInfo) (dryRun : bool) (c : Conn)
  : option error * Conn :=
  match sqlDB_StartTransaction c with
  | (Some err, c) => (Some err, c)
  | (None, c) =>
      let '(err, c) := sqlDB_SetVersionTx info dryRun c in
      sqlTx_FinalizeTransaction err dryRun c
  end.

Definition sqlDB_DefaultStepFunc (info : StepInfo) (dryRun : bool) (c : Conn)
  : option error * Conn := sqlDB_SetVersion info dryRun c.

Definition sqlDB_Version (c : Conn) : Version * option error * Conn :=
  match sqlDB_StartTransaction c with
  | (Some err, c) => (badVersion, Some err, c)
  | (None, c) =>
      let '(v, err, c) := sqlDB_VersionTx c in
      let '(err, c) := sqlTx_FinalizeTransaction err false c in
      (v, err, c)
  end.

Definition sqlDB_InitVersion (v : Version) (dryRun : bool) (c : Conn)
  : option error * Conn :=
  let deferred (err : option error) :=
    match err with
    | Some e => Some (Errorf_ww "" (ofError ErrNotInitialized) ": " e "")
    | None => None
    end in
  match sqlDB_StartTransaction c with
  | (Some err, c) => (deferred (Some err), c)
  | (None, c) =>
      let returns (err : option error) (c : Conn) :=
        let '(err, c) := sqlTx_FinalizeTransaction err dryRun c in
        (deferred err, c) in
      match Tx_Exec (CreateTableQuery q) [] c with
      | (ExecError msg, c) => returns (Some (errorString msg)) c
      | (ExecResult _ _, c) =>
          match Tx_Exec (InitTableQuery q)
                  [argInt (ID v); argText (EncodeToString (Checksum v))] c with
          | (ExecError msg, c) => returns (Some (errorString msg)) c
          | (ExecResult _ _, c) => returns None c
          end
      end
  end.

(** [*sqlDB] as an [SQLDB], hence as a [Database]. *)
Definition sqlDB_SQLDB : SQLDB Conn :=
  mkSQLDB sqlDB_StartTransaction sqlTx_FinalizeTransaction sqlDB_VersionTx
          sqlDB_SetVersion sqlDB_SetVersionTx.

Definition sqlDB : Database Conn :=
  mkDatabase sqlDB_InitVersion sqlDB_Version sqlDB_DefaultStepFunc (Some sqlDB_SQLDB).

(** A callback of the user that works through the transaction handle it
    is given: on the working copy of the open transaction, and on its own
    Go state. *)
Definition inTx (g : StepInfo -> bool -> Store * Env -> option error * (Store * Env))
  : TxFunc Conn :=
  fun info dryRun c =>
    match txn c with
    | None => (Some (errorString errTxDone), c)
    | Some s =>
        let '(err, (s, e)) := g info dryRun (s, env c) in
        (err, mkConn (disk c) (Some s) e (faults c) (journal c))
    end.

End SqlDB.

(* ================================================================== *)
(** ** sqldb.go: [SQLCommand], [Tx] and [NoTx]

    The arguments of a command ([[]any] in Go) are the two kinds of value
    the package itself passes to the driver. *)

Record SQLCommand := mkSQLCommand {
  SQLCommand_Cmd : string;
  SQLCommand_Args : list sqlarg
}.

Definition Cmd (cmd : string) (args : list sqlarg) : SQLCommand :=
  mkSQLCommand cmd args.

Section SqlSteps.

Variables Store Env : Type.
Variable sql_exec : string -> list sqlarg -> Store -> ExecOutcome * Store.

(** [db.ExecContext]: a statement outside any transaction, applied to the
    committed tables at once.  It is journalled like [tx.Exec]. *)
Definition DB_ExecContext (query : string) (args : list sqlarg) (c : Conn Store Env)
  : ExecOutcome * Conn Store Env :=
  let c := record (callExec query args) c in
  let '(r, s) := sql_exec query args (disk c) in
  (r, mkConn s (txn c) (env c) (faults c) (journal c)).

(** The [for _, cmd := range cmds] loop of [Tx]. *)
Fixpoint Tx_loop (cmds : list SQLCommand) (c : Conn Store Env)
  : option error * Conn Store Env :=
  match cmds with
  | [] => (None, c)
  | cmd :: cmds' =>
      match Tx_Exec sql_exec (SQLCommand_Cmd cmd) (SQLCommand_Args cmd) c with
      | (ExecError msg, c) => (Some (errorString msg), c)
      | (ExecResult _ _, c) => Tx_loop cmds' c
      end
  end.

(** The second deferred function of [Tx]. *)
Definition Tx_deferred (info : StepInfo) (dryRun : bool) (err : option error)
  : option error :=
  match err with
  | None => None
  | Some e =>
      if dryRun then
        Some (Errorf_w ("tx " ++ Version_String (From info) ++ " -> "
                        ++ Version_String (To info) ++ " dry run: ") e "")
      else
        Some (Errorf_w ("tx " ++ Version_String (From info) ++ " -> "
                        ++ Version_String (To info) ++ ": ") e "")
  end.

Definition Tx (cmds : list SQLCommand) : StepFunc (Conn Store Env) :=
  fun gdb info dryRun c =>
    match Database_asSQLDB gdb with
    | None => (Some (Errorf_w "tx: " (ofError ErrNotSQLDB) ""), c)
    | Some db =>
        match SQLDB_StartTransaction db c with
        | (Some e, c) => (Tx_deferred info dryRun (Some e), c)
        | (None, c) =>
            (* every return below runs [tx.FinalizeTransaction(&err, dryRun)]
               and then the deferred function above *)
            let returns (err : option error) (c : Conn Store Env) :=
              let '(err, c) := SQLDB_FinalizeTransaction db err dryRun c in
              (Tx_deferred info dryRun err, c) in
            let '(dbv, err, c) := SQLDB_VersionTx db c in
            match err with
            | Some e => returns (Some e) c
            | None =>
                if negb (Version_eqb dbv (From info)) then
                  returns (Some (errorString ("db is " ++ Version_String dbv))) c
                else
                  let '(err, c) := Tx_loop cmds c in
                  match err with
                  | Some e => returns (Some e) c
                  | None =>
                      let '(err, c) := SQLDB_SetVersionTx db info dryRun c in
                      returns err c
                  end
            end
        end
    end.

(** The [for _, cmd := range cmds] loop of [NoTx]. *)
Fixpoint NoTx_loop (cmds : list SQLCommand) (c : Conn Store Env)
  : option error * Conn Store Env :=
  match cmds with
  | [] => (None, c)
  | cmd :: cmds' =>
      match DB_ExecContext (SQLCommand_Cmd cmd) (SQLCommand_Args cmd) c with
      | (ExecError msg, c) => (Some (errorString msg), c)
      | (ExecResult _ _, c) => NoTx_loop cmds' c
      end
  end.

Definition NoTx (cmds : list SQLCommand) : StepFunc (Conn Store Env) :=
  fun gdb info dryRun c =>
    match Database_asSQLDB gdb with
    | None => (Some (Errorf_w "sql: " (ofError ErrNotSQLDB) ""), c)
    | Some db =>
        if dryRun then (None, c)
        else
          let '(dbv, err, c) := Database_Version gdb c in
          match err with
          | Some e => (NoTx_deferred info (Some e), c)
          | None =>
              if negb (Version_eqb dbv (From info)) then
                (NoTx_deferred info (Some (errorString ("db is " ++ Version_String dbv))), c)
              else
                let '(err, c) := NoTx_loop cmds c in
                match err with
                | Some e => (NoTx_deferred info (Some e), c)
                | None =>
                    let '(err, c) := SQLDB_SetVersion db info dryRun c in
                    (NoTx_deferred info err, c)
                end
          end
    end.

End SqlSteps.

(* ================================================================== *)
(** ** migrate_test.go: the [mockDatabase] of the package's tests *)

Record mockDatabase := mkMock {
  mock_version : Version;
  mock_initialized : bool;
  mock_initError : option error;
  mock_setVersionErr : option error;
  mock_versionErr : option error
}.

Definition mockDatabase_InitVersion (v : Version) (dryRun : bool) (m : mockDatabase)
  : option error * mockDatabase :=
  if mock_initialized m then (Some (ofError ErrAlreadyInitialized), m)
  else
    match mock_initError m with
    | Some e => (Some e, m)
    | None =>
        if negb dryRun then
          (None, mkMock v true (mock_initError m) (mock_setVersionErr m) (mock_versionErr m))
        else (None, m)
    end.

Definition mockDatabase_Version (m : mockDatabase) : Version * option error * mockDatabase :=
  match mock_versionErr m with
  | Some e => (badVersion, Some e, m)
  | None => (mock_version m, None, m)
  end.

Definition mockDatabase_DefaultStepFunc (info : StepInfo) (dryRun : bool) (m : mockDatabase)
  : option error * mockDatabase :=
  match mock_setVersionErr m with
  | Some e => (Some e, m)
  | None =>
      if negb dryRun then
        (None, mkMock (To info) (mock_initialized m) (mock_initError m)
                 (mock_setVersionErr m) (mock_versionErr m))
      else (None, m)
  end.

(** [*mockDatabase] as a [Database]; it is not an [SQLDB]. *)
Definition mockDB : Database mockDatabase :=
  mkDatabase mockDatabase_InitVersion mockDatabase_Version
             mockDatabase_DefaultStepFunc None.

(** [var errMock = errors.New("mock error")]. *)
Definition errMock : error := errorString "mock error".

(** [mockFunc]: a step function that runs the default step of the database. *)
Definition mockFunc : StepFunc mockDatabase :=
  fun db info dryRun w => Database_DefaultStepFunc db info dryRun w.

(* ================================================================== *)
(** ** Fixtures of the examples below *)

(** A step function of a user that bumps the version through the default
    step of the database, not as a dry run, and then reports a failure of
    its own. *)
Definition lateFailure : StepFunc mockDatabase :=
  fun db info dryRun w =>
    let '(_, w) := Database_DefaultStepFunc db info false w in
    (Some errMock, w).

(** The queries of the sqlite adapter ([sqlite.Open]); the double quotes
    around the SQL identifiers are written as single quotes. *)
Definition sqliteQueries : Queries :=
  mkQueries
    "CREATE TABLE 'migrate_version' ('id' INTEGER NOT NULL, 'checksum' TEXT NOT NULL)"
    "INSERT INTO 'migrate_version' ('id', 'checksum') VALUES (?, ?)"
    "SELECT 'id', 'checksum' FROM 'migrate_version' LIMIT 1"
    "UPDATE 'migrate_version' SET 'id' = ?, 'checksum' = ? WHERE 'id' = ? AND 'checksum' = ?".

(** A store that holds the version table only: [None] before the table is
    created, then its rows. *)
Definition rowStore : Type := option (list (Z * string)).

Definition rowStore_exec (query : string) (args : list sqlarg) (s : rowStore)
  : ExecOutcome * rowStore :=
  if String.eqb query (CreateTableQuery sqliteQueries) then
    match s with
    | Some _ => (ExecError "table migrate_version already exists", s)
    | None => (ExecResult 0 None, Some [])
    end
  else if String.eqb query (InitTableQuery sqliteQueries) then
    match s, args with
    | Some rows, [argInt id; argText cs] => (ExecResult 1 None, Some (rows ++ [(id, cs)])%list)
    | _, _ => (ExecError "no such table: migrate_version", s)
    end
  else if String.eqb query (SetVersionQuery sqliteQueries) then
    match s, args with
    | Some rows, [argInt id; argText cs; argInt id0; argText cs0] =>
        let hit (r : Z * string) := (fst r =? id0) && String.eqb (snd r) cs0 in
        (ExecResult (Z.of_nat (List.length (filter hit rows))) None,
         Some (map (fun r => if hit r then (id, cs) else r) rows))
    | _, _ => (ExecError "no such table: migrate_version", s)
    end
  else (ExecError "unknown statement", s).

Definition rowStore_query_row (query : string) (s : rowStore) : string + Z * string :=
  if String.eqb query (VersionQuery sqliteQueries) then
    match s with
    | Some (r :: _) => inr r
    | Some [] => inl "sql: no rows in result set"
    | None => inl "no such table: migrate_version"
    end
  else inl "unknown statement".

(** The registry of the package's tests: [NewSteps("test-db")] followed by
    [Append("step1", nil, nil)]. *)
Definition testRegistry : Steps mockDatabase :=
  match Steps_Append (NewSteps mockDatabase "test-db") "step1" None None with
  | Some (None, s) => s
  | _ => NewSteps mockDatabase "test-db"
  end.

(** The registry invariants behind the proofs: every step carries its own
    index, and every step after the anchor is chained to its predecessor. *)
Definition indexed (W : Type) (s : Steps W) : Prop :=
  forall i st, nth_error (steps s) i = Some st -> ID (step_version st) = Z.of_nat i.

Definition chained (W : Type) (s : Steps W) : Prop :=
  forall i prev cur,
    nth_error (steps s) i = Some prev ->
    nth_error (steps s) (S i) = Some cur ->
    Checksum (step_version cur)
    = SHA256.Sum256 (Checksum (step_version prev) ++ le_uint64 (Z.of_nat (S i))
                     ++ bytes_of_string (step_name cur))%list.

Definition anchored (W : Type) (s : Steps W) : Prop :=
  exists st, nth_error (steps s) 0 = Some st /\
             Checksum (step_version st) = SHA256.Sum256 (bytes_of_string (step_name st)).

(** A registry whose only step fails late: [NewSteps("db")] followed by
    [Append("a", lateFailure, nil)]. *)
Definition lateRegistry : Steps mockDatabase :=
  match Steps_Append (NewSteps mockDatabase "db") "a" (Some lateFailure) None with
  | Some (None, s) => s
  | _ => NewSteps mockDatabase "db"
  end.

(** A step function of a user that takes no notice of [dryRun]: it always
    runs the default step of the database for real. *)
Definition ignoresDryRun : StepFunc mockDatabase :=
  fun db info dryRun w => Database_DefaultStepFunc db info false w.

Definition eagerRegistry : Steps mockDatabase :=
  match Steps_Append (NewSteps mockDatabase "db") "a" (Some ignoresDryRun) None with
  | Some (None, s) => s
  | _ => NewSteps mockDatabase "db"
  end.

(** The registry of scenario 6: three steps after the anchor, all with the
    default operation. *)
Definition threeSteps : Steps mockDatabase :=
  match replay (NewSteps mockDatabase "db")
          [("one", None, None); ("two", None, None); ("three", None, None)] with
  | Some s => s
  | None => NewSteps mockDatabase "db"
  end.

(** An initialized mock database at version [v] with no failure injected. *)
Definition mockAt (v : Version) : mockDatabase := mkMock v true None None None.

(** Callbacks over [rowStore] that count their calls in the Go state, as
    [mockTxF] of [TestTxF] records its execution: one returns nil, one
    [ErrCancel], one [ErrAbort]. *)
Definition countCall (err : option error)
  : StepInfo -> bool -> rowStore * nat -> option error * (rowStore * nat) :=
  fun _ _ st => (err, (fst st, S (snd st))).

(** The step of [testRegistry] and a connection to a database at its
    version 0, with no failure scripted and an empty journal. *)
Definition demoInfo : StepInfo :=
  mkStepInfo "step1" (fst (Steps_Version testRegistry 0)) (fst (Steps_Version testRegistry 1)).

Definition demoConn : Conn rowStore nat :=
  mkConn (Some [(0, ChecksumString (fst (Steps_Version testRegistry 0)))]) None 0%nat [] [].

(** The package's database over [rowStore], and a registry for it: a step
    with a [TxF] operation up and the default operation down, then a step
    with the default operations. *)
Definition rowDB : Database (Conn rowStore nat) :=
  @sqlDB rowStore nat rowStore_exec rowStore_query_row sqliteQueries.

Definition rowRegistry : Steps (Conn rowStore nat) :=
  match replay (NewSteps (Conn rowStore nat) "db")
          [("one", Some (TxF (map (@inTx rowStore nat) [countCall None])), None);
           ("two", None, None)] with
  | Some s => s
  | None => NewSteps (Conn rowStore nat) "db"
  end.

(** A connection to an empty database. *)
Definition emptyConn : Conn rowStore nat := mkConn None None 0%nat [] [].

(** The vocabulary of the statements on the migrator. *)

(** What a [Version] call reports: the version and the error. *)
Definition reported (W : Type) (r : Version * option error * Migrator W * W)
  : Version * option error := fst (fst r).

(** [e] is [fmt.Errorf(op + ": %w", inner)] for some [inner]. *)
Definition wrappedWithOp (op : string) (e : error) : Prop :=
  exists inner, e = Errorf_w (op ++ ": ") inner "".

(** Calling every callback of a list in turn, whatever each returns: the
    errors returned and the final state. *)
Fixpoint callAll (S : Type) (gs : list (StepInfo -> bool -> S -> option error * S))
    (info : StepInfo) (dryRun : bool) (st : S) : list (option error) * S :=
  match gs with
  | [] => ([], st)
  | g :: gs' =>
      let '(e, st) := g info dryRun st in
      let '(es, st) := callAll gs' info dryRun st in
      (e :: es, st)
  end.

(** The error, when there is one, is the cancel pseudo-error. *)
Definition nilOrCancel (e : option error) : Prop :=
  forall x, e = Some x -> Is x ErrCancel = true.

(** The last byte of a string, [d] when it is empty. *)
Fixpoint lastChar (s : string) (d : ascii) : ascii :=
  match s with
  | EmptyString => d
  | String c s' => lastChar s' c
  end.

(** [k] one-step migrations in a row, each returning nil. *)
Fixpoint succeed (W : Type)
    (one : Migrator W -> bool -> W -> option error * Migrator W * W)
    (k : nat) (m : Migrator W) (w : W) : option (Migrator W * W) :=
  match k with
  | O => Some (m, w)
  | S k' =>
      match one m false w with
      | (None, m', w') => succeed one k' m' w'
      | (Some _, _, _) => None
      end
  end.

(** The run of a list of commands on the tables, up to and including the
    first one that fails: the message of that failure, the tables it
    leaves and the statements run. *)
Fixpoint execAll (Store : Type)
    (sql_exec : string -> list sqlarg -> Store -> ExecOutcome * Store)
    (cmds : list SQLCommand) (s : Store) : option string * Store * list call :=
  match cmds with
  | [] => (None, s, [])
  | cmd :: cmds' =>
      let k := callExec (SQLCommand_Cmd cmd) (SQLCommand_Args cmd) in
      match sql_exec (SQLCommand_Cmd cmd) (SQLCommand_Args cmd) s with
      | (ExecError msg, s) => (Some msg, s, [k])
      | (ExecResult _ _, s) =>
          let '(r, s, ks) := execAll sql_exec cmds' s in
          (r, s, k :: ks)
      end
  end.

(** The arguments [SetVersionTx] passes to the driver. *)
Definition setVersionArgs (info : StepInfo) : list sqlarg :=
  [argInt (ID (To info)); argText (ChecksumString (To info));
   argInt (ID (From info)); argText (ChecksumString (From info))].

(** A [Database] over the package's [sqlDB] that is not an [SQLDB]: a
    wrapper that forwards the three [Database] methods only. *)
Definition plainDB : Database (Conn rowStore nat) :=
  mkDatabase (Database_InitVersion rowDB) (Database_Version rowDB)
             (Database_DefaultStepFunc rowDB) None.

(** A step function of a user that fails with [ErrEndOfSteps], and a
    registry whose first step has it as its operation up. *)
Definition endsEarly : StepFunc mockDatabase :=
  fun db info dryRun w => (Some (ofError ErrEndOfSteps), w).

Definition earlyRegistry : Steps mockDatabase :=
  match replay (NewSteps mockDatabase "db")
          [("one", Some endsEarly, None); ("two", None, None)] with
  | Some s => s
  | None => NewSteps mockDatabase "db"
  end.

(** The operation a one-step migration runs for a step: the function of
    the step, or the default step of the database when it is nil. *)
Definition runStep (W : Type) (db : Database W) (f : option (StepFunc W))
    (info : StepInfo) (dryRun : bool) (w : W) : option error * W :=
  match f with
  | Some g => g db info dryRun w
  | None => Database_DefaultStepFunc db info dryRun w
  end.

(** Two commands for [rowStore]: one that adds a row to the version table,
    and one that the store does not know. *)
Definition addRow : SQLCommand :=
  Cmd (InitTableQuery sqliteQueries) [argInt 7; argText "seven"].

Definition unknownCmd : SQLCommand := Cmd "DROP TABLE nowhere" [].

(** A connection with an open transaction on the tables of [demoConn]. *)
Definition openConn : Conn rowStore nat :=
  mkConn (disk demoConn) (Some (Some [])) 0%nat [] [callBegin].

(** Callbacks for [NoTxF] that count their calls in the Go state: one
    returns nil, one [ErrCancel]. *)
Definition countNoTx (err : option error) : NoTxFunc (Conn rowStore nat) :=
  fun db info c =>
    (err, mkConn (disk c) (txn c) (S (env c)) (faults c) (journal c)).

(** The operations of a step that run in one transaction of the package's
    [sqlDB]: nil (the default step), a [Tx], or a [TxF] of callbacks that
    work through the transaction they are given. *)
Definition transactional (Store Env : Type)
    (sql_exec : string -> list sqlarg -> Store -> ExecOutcome * Store)
    (f : option (StepFunc (Conn Store Env))) : Prop :=
  f = None \/
  (exists cmds, f = Some (Tx sql_exec cmds)) \/
  (exists gs, f = Some (TxF (map (@inTx Store Env) gs))).

(** The hexadecimal digits, of either case, and the strings made of them. *)
Definition isHexDigit (c : ascii) : bool :=
  existsb (Ascii.eqb c) (list_ascii_of_string "0123456789abcdefABCDEF").

Fixpoint allHex (s : string) : bool :=
  match s with
  | EmptyString => true
  | String c s' => isHexDigit c && allHex s'
  end.

(** A callback for [TxF] that uses the [*sql.Tx] behind the handle it is
    given ([tx.Tx()]) to run the version update and commit the
    transaction itself, and then returns [ErrCancel]. *)
Definition commitsItself : TxFunc (Conn rowStore nat) :=
  fun info dryRun c =>
    let '(_, c) := Tx_Exec rowStore_exec (SetVersionQuery sqliteQueries)
                     (setVersionArgs info) c in
    let '(_, c) := Tx_Commit c in
    (Some (ofError ErrCancel), c).

(* ################################################################## *)
(** * Properties *)

Arguments SHA256.Sum256 : simpl never.

(** ** Known answers *)

Example sha256_abc :
  EncodeToString (SHA256.Sum256 (bytes_of_string "abc"))
  = "ba7816bf8f01cfea414140de5dae2223b00361a396177a9cb410ff61f20015ad".
Proof. vm_compute. reflexivity. Qed.

Example sha256_empty :
  EncodeToString (SHA256.Sum256 [])
  = "e3b0c44298fc1c149afbf4c8996fb92427ae41e4649b934ca495991b7852b855".
Proof. vm_compute. reflexivity. Qed.

Example sha256_two_blocks :
  EncodeToString (SHA256.Sum256 (repeat "a"%byte 56))
  = "b35439a4ac6f0948b6d6f9e3c6af0f5f590ce20f1bde7090ef7970686ec6738a".
Proof. vm_compute. reflexivity. Qed.

(** The string that [TestSteps_Up] expects of [info.String()]. *)
Example TestSteps_Up_String :
  match Steps_Up testRegistry (fst (Steps_Version testRegistry 0)) with
  | inl (info, _) => StepInfo_String info
  | inr _ => ""
  end = "'step1' v0:0f3182d0b4... -> v1:b4d9cdaf09...".
Proof. vm_compute. reflexivity. Qed.

(** ** Versions and errors *)

Lemma Version_eqb_eq (a b : Version) : Version_eqb a b = true <-> a = b.
Proof.
  unfold Version_eqb. destruct a as [ia ca], b as [ib cb]; simpl.
  destruct (list_eq_dec byte_eq_dec ca cb) as [Hc | Hc].
  - rewrite andb_true_r, Z.eqb_eq. split; intros H.
    + now subst.
    + now inversion H.
  - rewrite andb_false_r. split; intros H; [discriminate | inversion H; contradiction].
Qed.

Lemma Version_eqb_refl (a : Version) : Version_eqb a a = true.
Proof. now apply Version_eqb_eq. Qed.

(** Decoding the hexadecimal form of a checksum gives the checksum back, so
    [MakeVersion] rebuilds a version from its index and [ChecksumString]. *)
Lemma hexDecode_byte (b : byte) (rest : string) :
  hexDecode (String (hexdigit (Z_of_byte b / 16))
               (String (hexdigit (Z_of_byte b mod 16)) rest))
  = (b :: fst (hexDecode rest), snd (hexDecode rest)).
Proof. destruct b; exact eq_refl. Qed.

Lemma hexDecode_EncodeToString (bs : list byte) :
  hexDecode (EncodeToString bs) = (bs, None).
Proof.
  induction bs as [|b bs IH]; [reflexivity|].
  cbn [EncodeToString]. rewrite hexDecode_byte, IH. reflexivity.
Qed.

Lemma MakeVersion_ChecksumString (v : Version) :
  0 <= ID v -> List.length (Checksum v) = 32%nat ->
  MakeVersion (ID v) (ChecksumString v) = (v, None).
Proof.
  intros Hid Hlen. unfold MakeVersion, ChecksumString.
  destruct (Z.ltb_spec (ID v) 0); [lia|].
  rewrite hexDecode_EncodeToString, Hlen. destruct v; reflexivity.
Qed.

Lemma Is_Errorf_w pre e post t : Is (Errorf_w pre e post) t = Is e t.
Proof. reflexivity. Qed.

Lemma lastChar_append (a b : string) (d : ascii) :
  lastChar (a ++ b) d = lastChar b (lastChar a d).
Proof. revert d. induction a as [|c a IH]; simpl; intros d; [reflexivity | apply IH]. Qed.

Lemma Wraps_refl e : Wraps e e.
Proof. destruct e; simpl; now left. Qed.

Lemma Wraps_Errorf_w pre e post inner : Wraps e inner -> Wraps (Errorf_w pre e post) inner.
Proof. intros H. simpl. now right. Qed.

(** ** The step registry *)

Section RegistryFacts.

Variable W : Type.
Implicit Types s : Steps W.

Lemma index_Some A (l : list A) (i : Z) :
  0 <= i < Z.of_nat (List.length l) -> exists a, index l i = Some a.
Proof.
  intros H. unfold index.
  destruct (Z.ltb_spec i 0); [lia|].
  destruct (nth_error l (Z.to_nat i)) eqn:E; [eauto|].
  apply nth_error_None in E. lia.
Qed.

Lemma index_nth A (l : list A) (n : nat) : index l (Z.of_nat n) = nth_error l n.
Proof.
  unfold index. destruct (Z.ltb_spec (Z.of_nat n) 0); [lia|].
  now rewrite Nat2Z.id.
Qed.

Lemma checkID_None s i : checkID s i = None <-> 0 <= i < Steps_Len s.
Proof.
  unfold checkID, Steps_Len.
  destruct (Z.ltb_spec i 0), (Z.geb_spec i (Z.of_nat (List.length (steps s))));
    simpl; split; intros; try discriminate; try lia; reflexivity.
Qed.

Lemma checkID_Some s i :
  ~ (0 <= i < Steps_Len s) ->
  checkID s i = Some (Errorf_w "" (ofError ErrBadVersionID) (": id " ++ itoa i)).
Proof.
  intros H. unfold checkID, Steps_Len in *.
  destruct (Z.ltb_spec i 0), (Z.geb_spec i (Z.of_nat (List.length (steps s))));
    simpl; try reflexivity; lia.
Qed.

(** [checkID] guards every [s.steps[i]]: behind it the index is in range. *)
Lemma steps_at_index s i :
  checkID s i = None -> index (steps s) i = Some (steps_at s i).
Proof.
  intros H. apply checkID_None in H. unfold steps_at.
  destruct (index_Some (steps s) H) as [a Ha]. now rewrite Ha.
Qed.

Lemma steps_at_nth s (n : nat) st :
  nth_error (steps s) n = Some st -> steps_at s (Z.of_nat n) = st.
Proof. intros H. unfold steps_at. now rewrite index_nth, H. Qed.

Lemma nth_steps_at s (i : Z) :
  0 <= i < Steps_Len s -> nth_error (steps s) (Z.to_nat i) = Some (steps_at s i).
Proof.
  intros H. apply checkID_None in H. apply steps_at_index in H.
  unfold index in H. destruct (Z.ltb_spec i 0); [discriminate | exact H].
Qed.

(** What a successful [Append] does. *)
Lemma Steps_Append_ok s name up down s' :
  Steps_Append s name up down = Some (None, s') ->
  name <> "" /\
  exists prev,
    nth_error (steps s) (List.length (steps s) - 1) = Some prev /\
    (0 < List.length (steps s))%nat /\
    steps s' =
      (steps s ++
         [mkStep name up down
            (mkVersion (Z.of_nat (List.length (steps s)))
               (SHA256.Sum256
                  (Checksum (step_version prev)
                     ++ le_uint64 (Z.of_nat (List.length (steps s)))
                     ++ bytes_of_string name)))])%list.
Proof.
  unfold Steps_Append. destruct (String.eqb_spec name ""); [discriminate|].
  destruct (index (steps s) (Z.of_nat (List.length (steps s)) - 1)) as [prev|] eqn:E;
    [|discriminate].
  intros H. injection H as <-. split; [assumption|].
  exists prev. unfold index in E.
  destruct (Z.ltb_spec (Z.of_nat (List.length (steps s)) - 1) 0); [discriminate|].
  replace (Z.to_nat (Z.of_nat (List.length (steps s)) - 1))
    with (List.length (steps s) - 1)%nat in E by lia.
  repeat split; [assumption | lia |].
  simpl. unfold AppendUint64. now rewrite <- app_assoc.
Qed.

(** [Append] with a name that is not empty returns nil on every registry
    that has its anchor. *)
Lemma Steps_Append_total s name up down :
  name <> "" -> steps s <> [] ->
  exists s', Steps_Append s name up down = Some (None, s').
Proof.
  intros Hn Hs. unfold Steps_Append.
  destruct (String.eqb_spec name ""); [contradiction|].
  destruct (index_Some (steps s) (i := Z.of_nat (List.length (steps s)) - 1)) as [a Ha].
  - destruct (steps s); [contradiction | cbn [List.length]; lia].
  - rewrite Ha. eauto.
Qed.

Lemma Built_nonempty s : Built s -> steps s <> [].
Proof.
  induction 1 as [name | s name up down s' HB IH HA].
  - discriminate.
  - apply Steps_Append_ok in HA as (_ & prev & _ & _ & ->).
    intros E. apply app_eq_nil in E as [_ E]. discriminate.
Qed.

Lemma Built_Len s : Built s -> 1 <= Steps_Len s.
Proof.
  intros H. apply Built_nonempty in H. unfold Steps_Len.
  destruct (steps s); [contradiction | cbn [List.length]; lia].
Qed.

Lemma Built_indexed s : Built s -> indexed s.
Proof.
  induction 1 as [name | s name up down s' HB IH HA]; intros i st Hi.
  - destruct i as [|i]; simpl in Hi; [now injection Hi as <- | now destruct i].
  - apply Steps_Append_ok in HA as (_ & prev & _ & _ & E). rewrite E in Hi.
    destruct (Nat.lt_ge_cases i (List.length (steps s))) as [Hlt | Hge].
    + rewrite nth_error_app1 in Hi by assumption. now apply IH.
    + rewrite nth_error_app2 in Hi by assumption.
      destruct (i - List.length (steps s))%nat as [|k] eqn:Ek; simpl in Hi;
        [| now destruct k].
      injection Hi as <-. simpl. f_equal. lia.
Qed.

Lemma Built_chained s : Built s -> chained s.
Proof.
  induction 1 as [name | s name up down s' HB IH HA]; intros i prev cur Hp Hc.
  - simpl in Hc. now destruct i.
  - apply Steps_Append_ok in HA as (_ & last & Hlast & Hpos & E).
    rewrite E in Hp, Hc.
    destruct (Nat.lt_ge_cases (S i) (List.length (steps s))) as [Hlt | Hge].
    + rewrite nth_error_app1 in Hp by lia. rewrite nth_error_app1 in Hc by lia.
      now apply IH with (i := i).
    + rewrite nth_error_app2 in Hc by assumption.
      destruct (S i - List.length (steps s))%nat as [|k] eqn:Ek; simpl in Hc;
        [| now destruct k].
      injection Hc as <-. simpl.
      assert (Hi : i = (List.length (steps s) - 1)%nat) by lia.
      rewrite nth_error_app1 in Hp by lia. rewrite Hi in Hp.
      rewrite Hlast in Hp. injection Hp as <-.
      repeat f_equal; lia.
Qed.

Lemma Built_anchored s : Built s -> anchored s.
Proof.
  induction 1 as [name | s name up down s' HB IH HA].
  - eexists. split; reflexivity.
  - destruct IH as (st & Hst & Hcs).
    apply Steps_Append_ok in HA as (_ & prev & _ & Hpos & E).
    exists st. split; [|assumption]. rewrite E.
    rewrite nth_error_app1 by assumption. assumption.
Qed.

(** On a built registry a version passes [check] exactly when it is the
    version of the step at its index. *)
Lemma check_None s v :
  check s v = None <->
  0 <= ID v < Steps_Len s /\ step_version (steps_at s (ID v)) = v.
Proof.
  unfold check. destruct (checkID s (ID v)) eqn:E.
  - split; [discriminate|]. intros [H _]. apply checkID_None in H. congruence.
  - apply checkID_None in E.
    destruct (Version_eqb (step_version (steps_at s (ID v))) v) eqn:Ev; simpl.
    + apply Version_eqb_eq in Ev. tauto.
    + split; [discriminate|]. intros [_ H]. apply Version_eqb_eq in H. congruence.
Qed.

Lemma check_registry_version s i :
  Built s -> 0 <= i < Steps_Len s -> check s (step_version (steps_at s i)) = None.
Proof.
  intros HB Hi. apply check_None.
  pose proof (nth_steps_at s Hi) as Hn.
  apply (Built_indexed HB) in Hn. rewrite Hn.
  rewrite Z2Nat.id by lia. auto.
Qed.

End RegistryFacts.

Section Replay.

Variable W : Type.
Implicit Types s : Steps W.

Lemma replay_Built s l s' : Built s -> replay s l = Some s' -> Built s'.
Proof.
  revert s. induction l as [|[[n u] d] l IH]; simpl; intros s HB H.
  - now injection H as <-.
  - destruct (Steps_Append s n u d) as [[[e|] s1]|] eqn:E; try discriminate.
    eapply IH; [|eassumption]. eapply Built_Append; eassumption.
Qed.

Lemma replay_names s l s' :
  replay s l = Some s' -> names s' = (names s ++ map name_of l)%list.
Proof.
  revert s. induction l as [|[[n u] d] l IH]; simpl; intros s H.
  - injection H as <-. now rewrite app_nil_r.
  - destruct (Steps_Append s n u d) as [[[e|] s1]|] eqn:E; try discriminate.
    rewrite (IH _ H). apply Steps_Append_ok in E as (_ & prev & _ & _ & E).
    unfold names at 1. rewrite E, map_app, <- app_assoc. reflexivity.
Qed.

(** Replaying names that are not empty always succeeds. *)
Lemma replay_total s l :
  steps s <> [] -> Forall (fun x => name_of x <> "") l -> exists s', replay s l = Some s'.
Proof.
  revert s. induction l as [|[[n u] d] l IH]; simpl; intros s Hs Hl.
  - eauto.
  - inversion Hl as [|x l0 Hn Hl']; subst.
    destruct (@Steps_Append_total W s n u d Hn Hs) as [s1 E]. rewrite E.
    apply IH; [|assumption].
    apply Steps_Append_ok in E as (_ & prev & _ & _ & E). rewrite E.
    intros C. apply app_eq_nil in C as [_ C]. discriminate.
Qed.

Lemma names_nth s i st :
  nth_error (steps s) i = Some st -> nth_error (names s) i = Some (step_name st).
Proof. intros H. unfold names. now rewrite nth_error_map, H. Qed.

Lemma names_Len s s' : names s' = names s -> Steps_Len s' = Steps_Len s.
Proof.
  intros H. unfold Steps_Len. f_equal.
  apply (f_equal (@List.length string)) in H. unfold names in H.
  now rewrite !length_map in H.
Qed.

(** The versions of a built registry are a function of its names. *)
Lemma versions_of_names s s' :
  Built s -> Built s' -> names s' = names s ->
  forall i st st',
    nth_error (steps s) i = Some st -> nth_error (steps s') i = Some st' ->
    step_version st' = step_version st.
Proof.
  intros HB HB' Hn.
  assert (Hname : forall i st st',
             nth_error (steps s) i = Some st -> nth_error (steps s') i = Some st' ->
             step_name st' = step_name st).
  { intros i st st' H H'. apply names_nth in H, H'. rewrite Hn in H'. congruence. }
  assert (Hver : forall (a b : Version), ID a = ID b -> Checksum a = Checksum b -> a = b).
  { intros [ia ca] [ib cb]; simpl; intros; now subst. }
  induction i as [|i IH]; intros st st' H H'.
  - destruct (Built_anchored HB) as (a & Ha & Hca).
    destruct (Built_anchored HB') as (a' & Ha' & Hca').
    assert (a = st) by congruence. assert (a' = st') by congruence. subst a a'.
    apply Hver.
    + rewrite (Built_indexed HB _ H), (Built_indexed HB' _ H'). reflexivity.
    + rewrite Hca, Hca', (Hname _ _ _ H H'). reflexivity.
  - destruct (nth_error (steps s) i) as [p|] eqn:Ep.
    2:{ apply nth_error_None in Ep. assert (nth_error (steps s) (S i) = None)
          by (apply nth_error_None; lia). congruence. }
    destruct (nth_error (steps s') i) as [p'|] eqn:Ep'.
    2:{ apply nth_error_None in Ep'. assert (nth_error (steps s') (S i) = None)
          by (apply nth_error_None; lia). congruence. }
    apply Hver.
    + rewrite (Built_indexed HB _ H), (Built_indexed HB' _ H'). reflexivity.
    + rewrite (Built_chained HB _ Ep H), (Built_chained HB' _ Ep' H').
      rewrite (IH _ _ eq_refl eq_refl), (Hname _ _ _ H H'). reflexivity.
Qed.

(** C1. A registry built by [NewSteps(rootName)] and successful [Append]s
    has [SHA256(rootName)] as the checksum of step 0, and for every
    appended name, at its index [i >= 1], the checksum
    [SHA256(checksum of step i-1 ++ little-endian uint64 i ++ name)];
    the registry has one step per name; and replaying the same names
    (whatever the operations) gives the same version at every index. *)
Theorem C1_checksum_chain (root : string)
    (l : list (string * option (StepFunc W) * option (StepFunc W))) (s : Steps W)
    (Hreplay : replay (NewSteps W root) l = Some s) :
  Steps_Version s 0
    = (mkVersion 0 (SHA256.Sum256 (bytes_of_string root)), None)
  /\ Steps_Len s = 1 + Z.of_nat (List.length l)
  /\ (forall k x, nth_error l k = Some x ->
        let i := Z.of_nat k + 1 in
        exists prev,
          Steps_Version s (i - 1) = (prev, None) /\
          Steps_Version s i
            = (mkVersion i (SHA256.Sum256
                              (Checksum prev ++ le_uint64 i
                                 ++ bytes_of_string (name_of x))), None))
  /\ (forall l' s',
        map name_of l' = map name_of l ->
        replay (NewSteps W root) l' = Some s' ->
        forall i, Steps_Version s' i = Steps_Version s i).
Proof.
  pose proof (replay_Built l (Built_New W root) Hreplay) as HB.
  pose proof (replay_names _ _ Hreplay) as Hn. simpl in Hn.
  assert (HLen : Steps_Len s = 1 + Z.of_nat (List.length l)).
  { unfold Steps_Len. apply (f_equal (@List.length string)) in Hn.
    unfold names in Hn. rewrite length_map in Hn. rewrite Hn.
    cbn [List.length]. rewrite length_map. lia. }
  assert (Hver : forall i, 0 <= i < Steps_Len s ->
             Steps_Version s i = (step_version (steps_at s i), None)).
  { intros i Hi. unfold Steps_Version. apply checkID_None in Hi. now rewrite Hi. }
  split; [|split; [exact HLen|split]].
  - rewrite Hver by lia.
    destruct (Built_anchored HB) as (a & Ha & Hca).
    replace (steps_at s 0) with a by (symmetry; exact (steps_at_nth s 0 Ha)). f_equal.
    pose proof (names_nth s _ Ha) as Hna. rewrite Hn in Hna. simpl in Hna.
    injection Hna as Hna.
    pose proof (Built_indexed HB _ Ha) as Hid.
    destruct (step_version a) as [ia ca]; simpl in *. now subst.
  - intros k x Hk i. subst i.
    assert (Hlt : (k < List.length l)%nat) by (apply nth_error_Some; congruence).
    exists (step_version (steps_at s (Z.of_nat k))).
    replace (Z.of_nat k + 1 - 1) with (Z.of_nat k) by lia.
    rewrite !Hver by lia. split; [reflexivity|]. f_equal.
    pose proof (nth_steps_at s (i := Z.of_nat k) ltac:(lia)) as Hp.
    pose proof (nth_steps_at s (i := Z.of_nat k + 1) ltac:(lia)) as Hc.
    rewrite Nat2Z.id in Hp.
    replace (Z.to_nat (Z.of_nat k + 1)) with (S k) in Hc by lia.
    pose proof (Built_chained HB _ Hp Hc) as Hch.
    pose proof (Built_indexed HB _ Hc) as Hid.
    pose proof (names_nth s _ Hc) as Hnm. rewrite Hn in Hnm. simpl in Hnm.
    rewrite nth_error_map, Hk in Hnm. injection Hnm as Hnm.
    destruct (step_version (steps_at s (Z.of_nat k + 1))) as [ic cc]; simpl in *.
    subst ic. rewrite Hch, <- Hnm. f_equal; [lia|]. repeat f_equal; lia.
  - intros l' s' Hl' Hr' i.
    pose proof (replay_Built l' (Built_New W root) Hr') as HB'.
    pose proof (replay_names _ _ Hr') as Hn'. simpl in Hn'.
    assert (Hnn : names s' = names s) by (rewrite Hn, Hn', Hl'; reflexivity).
    pose proof (names_Len s s' Hnn) as HL.
    unfold Steps_Version.
    destruct (checkID s i) eqn:E.
    + assert (E' : ~ 0 <= i < Steps_Len s') by
        (rewrite HL; intros C; apply checkID_None in C; congruence).
      assert (E0 : ~ 0 <= i < Steps_Len s) by (rewrite <- HL; exact E').
      rewrite (checkID_Some _ E'). rewrite (checkID_Some _ E0) in E. now injection E as <-.
    + apply checkID_None in E.
      assert (E' : checkID s' i = None) by (apply checkID_None; lia).
      rewrite E'. f_equal.
      apply (@versions_of_names s s' HB HB' Hnn (Z.to_nat i));
        apply nth_steps_at; lia.
Qed.

End Replay.

Lemma testRegistry_replay :
  replay (NewSteps mockDatabase "test-db") [("step1", None, None)] = Some testRegistry.
Proof. vm_compute. reflexivity. Defined.

Lemma testRegistry_Built : Built testRegistry.
Proof.
  exact (replay_Built [("step1", None, None)] (Built_New mockDatabase "test-db")
           testRegistry_replay).
Defined.

Lemma C1_checksum_chain_witness :
  replay (NewSteps mockDatabase "test-db") [("step1", None, None)] = Some testRegistry
  /\ Steps_Version testRegistry 0
     = (mkVersion 0 (SHA256.Sum256 (bytes_of_string "test-db")), None)
  /\ Steps_Len testRegistry = 2.
Proof.
  split; [exact testRegistry_replay|].
  split.
  - exact (proj1 (C1_checksum_chain _ _ testRegistry_replay)).
  - exact (proj1 (proj2 (C1_checksum_chain _ _ testRegistry_replay))).
Defined.

Section RegistryClaims.

Variable W : Type.
Implicit Types s : Steps W.

(** C7. On a built registry, for a valid version [v] that is not the last
    one, [Up(v)] succeeds with [from = v] and [to] the registry version at
    [v.ID + 1], and [Down] of that [to] succeeds with [to = v]. *)
Theorem C7_up_down_round_trip s (v : Version)
    (HB : Built s) (Hvalid : Steps_Check s v = None) (Hlast : ID v < Steps_Len s - 1) :
  exists info f,
    Steps_Up s v = inl (info, f) /\
    From info = v /\
    Steps_Version s (ID v + 1) = (To info, None) /\
    exists info' f',
      Steps_Down s (To info) = inl (info', f') /\
      To info' = v /\ From info' = To info.
Proof.
  unfold Steps_Check in Hvalid.
  pose proof Hvalid as Hc. apply check_None in Hc as [Hr Hv].
  assert (Hnext : 0 <= ID v + 1 < Steps_Len s) by lia.
  pose proof (check_registry_version HB Hnext) as Hcn.
  pose proof (nth_steps_at s Hnext) as Hn.
  pose proof (Built_indexed HB _ Hn) as Hid. rewrite Z2Nat.id in Hid by lia.
  eexists. eexists. split.
  - unfold Steps_Up. rewrite Hvalid. unfold Steps_Len in Hlast.
    destruct (Z.eqb_spec (ID v) (Z.of_nat (List.length (steps s)) - 1)); [lia|].
    reflexivity.
  - simpl. split; [assumption|]. split.
    + unfold Steps_Version. apply checkID_None in Hnext. now rewrite Hnext.
    + eexists. eexists. split.
      * unfold Steps_Down. rewrite Hcn, Hid.
        destruct (Z.eqb_spec (ID v + 1) 0); [lia|]. reflexivity.
      * simpl. split; [|reflexivity].
        replace (ID v + 1 - 1) with (ID v) by lia. assumption.
Qed.

(** C9, on the code.  [Append] with an empty name returns the plain error
    ["append step: name is empty"], which wraps no sentinel (so not
    [ErrBadParameters] either), and leaves the registry as it was. *)
Theorem C9_append_empty_name s (up down : option (StepFunc W)) :
  exists e,
    Steps_Append s "" up down = Some (Some e, s) /\
    e = errorString "append step: name is empty" /\
    Is e ErrBadParameters = false.
Proof. eexists. repeat split. Qed.

End RegistryClaims.

Lemma C7_up_down_round_trip_witness :
  exists info f,
    Steps_Up testRegistry (fst (Steps_Version testRegistry 0)) = inl (info, f) /\
    From info = fst (Steps_Version testRegistry 0) /\
    Steps_Version testRegistry 1 = (To info, None) /\
    exists info' f',
      Steps_Down testRegistry (To info) = inl (info', f') /\
      To info' = fst (Steps_Version testRegistry 0) /\ From info' = To info.
Proof.
  apply (@C7_up_down_round_trip mockDatabase testRegistry
           (fst (Steps_Version testRegistry 0)) testRegistry_Built).
  - vm_compute. reflexivity.
  - vm_compute. reflexivity.
Defined.

(** ** The migrator *)

Section MigratorFacts.

Variable W : Type.
Implicit Types (m : Migrator W) (w : W).

Lemma oneUp_fail m dryRun w e m' w' :
  oneUp m dryRun w = (Some e, m', w') -> m' = m.
Proof.
  unfold oneUp. destruct (Stepper_Up (m_steps m) (cachedVersion m)) as [[info up]|err].
  - destruct up as [up|];
      [destruct (up (m_db m) info dryRun w) as [[e0|] w0]
      |destruct (Database_DefaultStepFunc (m_db m) info dryRun w) as [[e0|] w0]];
      intros H; inversion H; reflexivity.
  - intros H. inversion H. reflexivity.
Qed.

Lemma oneDown_fail m dryRun w e m' w' :
  oneDown m dryRun w = (Some e, m', w') -> m' = m.
Proof.
  unfold oneDown. destruct (Stepper_Down (m_steps m) (cachedVersion m)) as [[info f]|err].
  - destruct f as [f|];
      [destruct (f (m_db m) info dryRun w) as [[e0|] w0]
      |destruct (Database_DefaultStepFunc (m_db m) info dryRun w) as [[e0|] w0]];
      intros H; inversion H; reflexivity.
  - intros H. inversion H. reflexivity.
Qed.

Lemma oneUp_dryRun m w : snd (fst (oneUp m true w)) = m.
Proof.
  unfold oneUp. destruct (Stepper_Up (m_steps m) (cachedVersion m)) as [[info up]|err].
  - destruct up as [up|];
      [destruct (up (m_db m) info true w) as [[e0|] w0]
      |destruct (Database_DefaultStepFunc (m_db m) info true w) as [[e0|] w0]];
      reflexivity.
  - reflexivity.
Qed.

Lemma oneDown_dryRun m w : snd (fst (oneDown m true w)) = m.
Proof.
  unfold oneDown. destruct (Stepper_Down (m_steps m) (cachedVersion m)) as [[info f]|err].
  - destruct f as [f|];
      [destruct (f (m_db m) info true w) as [[e0|] w0]
      |destruct (Database_DefaultStepFunc (m_db m) info true w) as [[e0|] w0]];
      reflexivity.
  - reflexivity.
Qed.

Lemma wrapOp_inv prefix (r : option error * Migrator W * W) e m' w' :
  wrapOp prefix r = (Some e, m', w') ->
  exists inner, r = (Some inner, m', w') /\ e = Errorf_w prefix inner "".
Proof.
  destruct r as [[[inner|] m0] w0]; simpl; intros H; inversion H; eauto.
Qed.

Lemma wrapOp_state prefix (r : option error * Migrator W * W) :
  snd (fst (wrapOp prefix r)) = snd (fst r) /\ snd (wrapOp prefix r) = snd r.
Proof. destruct r as [[[inner|] m0] w0]; simpl; auto. Qed.

(** [versionCtx] changes only the cache; what it reports is decided by the
    database's answer and the registry's check, not by the cache. *)
Lemma versionCtx_handles m w :
  m_db (snd (fst (versionCtx m w))) = m_db m /\
  m_steps (snd (fst (versionCtx m w))) = m_steps m.
Proof.
  unfold versionCtx. cbn [set_cachedVersion m_db m_steps].
  destruct (Database_Version (m_db m) w) as [[v [e|]] w1]; [auto|].
  destruct (Stepper_Check (m_steps m) v); auto.
Qed.

Lemma versionCtx_cache m w :
  reported (versionCtx m w)
  = (cachedVersion (snd (fst (versionCtx m w))), snd (reported (versionCtx m w))).
Proof.
  unfold versionCtx, reported. cbn [set_cachedVersion m_db m_steps].
  destruct (Database_Version (m_db m) w) as [[v [e|]] w1]; [reflexivity|].
  destruct (Stepper_Check (m_steps m) v); reflexivity.
Qed.

Lemma Version_report_frame m m' w w' :
  m_db m' = m_db m -> m_steps m' = m_steps m ->
  fst (Database_Version (m_db m) w') = fst (Database_Version (m_db m) w) ->
  reported (Migrator_Version m' w') = reported (Migrator_Version m w).
Proof.
  intros Hd Hs Hv. unfold Migrator_Version, Migrator_VersionCtx, versionCtx, reported.
  cbn [set_cachedVersion m_db m_steps cachedVersion]. rewrite Hd, Hs.
  destruct (Database_Version (m_db m) w') as [[v' e'] w1'].
  destruct (Database_Version (m_db m) w) as [[v e] w1].
  simpl in Hv. injection Hv as -> ->.
  destruct e as [e|]; [reflexivity|].
  destruct (Stepper_Check (m_steps m) v); reflexivity.
Qed.

End MigratorFacts.

Ltac mig_simpl :=
  unfold set_cachedVersion in *;
  cbn [m_db m_steps cachedVersion fst snd negb] in *.

Section MigratorClaims.

Variable W : Type.
Implicit Types (m : Migrator W) (w : W) (s : Steps W).

(** C2. Outside [0, N) [Version], [Name] and [Check] fail with an error
    wrapping [ErrBadVersionID]; [Check] of a version with an index in range
    and a checksum other than the registry's fails with an error wrapping
    [ErrBadVersionChecksum]; on a built registry [Down] and [OneDown] at
    version 0, and [Up] and [OneUp] at the last version, fail with an
    error wrapping [ErrEndOfSteps]. *)
Theorem C2_boundary_errors s :
  (forall id, ~ (0 <= id < Steps_Len s) ->
     (exists e, Steps_Version s id = (badVersion, Some e) /\ Is e ErrBadVersionID = true) /\
     (exists e, Steps_Name s id = ("", Some e) /\ Is e ErrBadVersionID = true) /\
     (forall cs, exists e,
         Steps_Check s (mkVersion id cs) = Some e /\ Is e ErrBadVersionID = true))
  /\ (forall v, 0 <= ID v < Steps_Len s ->
        Checksum v <> Checksum (fst (Steps_Version s (ID v))) ->
        exists e, Steps_Check s v = Some e /\ Is e ErrBadVersionChecksum = true)
  /\ (Built s ->
      forall v0, Steps_Version s 0 = (v0, None) ->
        (exists e, Steps_Down s v0 = inr e /\ Is e ErrEndOfSteps = true) /\
        (forall (db : Database W) w,
            let m := mkMigrator db (Steps_Stepper s) v0 in
            exists e, Migrator_OneDown m w = (Some e, m, w) /\ Is e ErrEndOfSteps = true))
  /\ (Built s ->
      forall vN, Steps_Version s (Steps_Len s - 1) = (vN, None) ->
        (exists e, Steps_Up s vN = inr e /\ Is e ErrEndOfSteps = true) /\
        (forall (db : Database W) w,
            let m := mkMigrator db (Steps_Stepper s) vN in
            exists e, Migrator_OneUp m w = (Some e, m, w) /\ Is e ErrEndOfSteps = true)).
Proof.
  split; [|split; [|split]].
  - intros id Hid. pose proof (checkID_Some s Hid) as E.
    unfold Steps_Version, Steps_Name, Steps_Check, check. cbn [ID]. rewrite E.
    repeat split; try intros cs; eexists; split; reflexivity.
  - intros v Hr Hcs. unfold Steps_Check, check.
    unfold Steps_Version in Hcs.
    apply checkID_None in Hr. rewrite Hr in *. cbn [fst] in Hcs.
    destruct (Version_eqb (step_version (steps_at s (ID v))) v) eqn:Ev.
    + apply Version_eqb_eq in Ev. rewrite Ev in Hcs. contradiction.
    + simpl. eexists. split; reflexivity.
  - intros HB v0 Hv0. pose proof (Built_Len HB) as HL.
    assert (H0 : 0 <= 0 < Steps_Len s) by lia.
    unfold Steps_Version in Hv0. pose proof H0 as Hc0. apply checkID_None in Hc0.
    rewrite Hc0 in Hv0. injection Hv0 as <-.
    pose proof (check_registry_version HB H0) as Hck.
    pose proof (nth_steps_at s H0) as Hn. apply (Built_indexed HB) in Hn.
    change (Z.of_nat (Z.to_nat 0)) with 0 in Hn.
    assert (HD : Steps_Down s (step_version (steps_at s 0))
                 = inr (Errorf_w "" (ofError ErrEndOfSteps)
                          (": " ++ Version_String (step_version (steps_at s 0))))).
    { unfold Steps_Down. rewrite Hck, Hn. reflexivity. }
    split.
    + eexists. split; [exact HD | reflexivity].
    + intros db w m. unfold Migrator_OneDown, Migrator_OneDownCtx, oneDown.
      subst m. cbn [m_steps cachedVersion Steps_Stepper Stepper_Down]. rewrite HD.
      eexists. split; reflexivity.
  - intros HB vN HvN. pose proof (Built_Len HB) as HL.
    assert (H0 : 0 <= Steps_Len s - 1 < Steps_Len s) by lia.
    unfold Steps_Version in HvN. pose proof H0 as Hc0. apply checkID_None in Hc0.
    rewrite Hc0 in HvN. injection HvN as <-.
    pose proof (check_registry_version HB H0) as Hck.
    pose proof (nth_steps_at s H0) as Hn. apply (Built_indexed HB) in Hn.
    rewrite Z2Nat.id in Hn by lia.
    assert (HU : Steps_Up s (step_version (steps_at s (Steps_Len s - 1)))
                 = inr (Errorf_w "" (ofError ErrEndOfSteps)
                          (": " ++ Version_String
                                     (step_version (steps_at s (Steps_Len s - 1)))))).
    { unfold Steps_Up. rewrite Hck, Hn. unfold Steps_Len. rewrite Z.eqb_refl. reflexivity. }
    split.
    + eexists. split; [exact HU | reflexivity].
    + intros db w m. unfold Migrator_OneUp, Migrator_OneUpCtx, oneUp.
      subst m. cbn [m_steps cachedVersion Steps_Stepper Stepper_Up]. rewrite HU.
      eexists. split; reflexivity.
Qed.

(** C3, as the code has it.  When [OneUp] or [OneDown] returns an error,
    the cached version is what it was.  [Version] reads the database, not
    the cache: it reports what it reported before whenever the failed
    operation left the database's answer to [Database.Version] as it
    was. *)
Theorem C3_failure_keeps_cache m w e m' w'
    (Hfail : Migrator_OneUp m w = (Some e, m', w') \/
             Migrator_OneDown m w = (Some e, m', w')) :
  cachedVersion m' = cachedVersion m /\
  (fst (Database_Version (m_db m) w') = fst (Database_Version (m_db m) w) ->
   reported (Migrator_Version m' w') = reported (Migrator_Version m w)).
Proof.
  assert (Hm : m' = m).
  { destruct Hfail as [H | H]; apply wrapOp_inv in H as (inner & H & _).
    - eapply oneUp_fail; eassumption.
    - eapply oneDown_fail; eassumption. }
  subst m'. split; [reflexivity|].
  intros Hv. now apply Version_report_frame.
Qed.

(** C4, as the code has it.  [OneUpDryRun] and [OneDownDryRun] leave the
    migrator, hence its cached version, as it was.  [InitDryRun] stores
    nothing of its own in the cache, but it starts, like [Init], by
    re-reading the database version, which resets the cache; when it
    returns nil the cache holds the bad sentinel.  After any of the three,
    [Version] reports what it would have reported whenever the dry run
    left the database's answer to [Database.Version] as it was. *)
Theorem C4_dry_run_frame m w :
  snd (fst (Migrator_OneUpDryRun m w)) = m
  /\ snd (fst (Migrator_OneDownDryRun m w)) = m
  /\ (forall e m' w', Migrator_InitDryRun m w = (e, m', w') ->
        cachedVersion m' = cachedVersion (snd (fst (versionCtx m w))) /\
        (e = None -> cachedVersion m' = badVersion))
  /\ (forall op,
        In op [@Migrator_OneUpDryRun W; @Migrator_OneDownDryRun W;
               @Migrator_InitDryRun W] ->
        forall e m' w', op m w = (e, m', w') ->
          fst (Database_Version (m_db m) w') = fst (Database_Version (m_db m) w) ->
          reported (Migrator_Version m' w') = reported (Migrator_Version m w)).
Proof.
  assert (HU : snd (fst (Migrator_OneUpDryRun m w)) = m).
  { unfold Migrator_OneUpDryRun, Migrator_OneUpDryRunCtx.
    rewrite (proj1 (wrapOp_state _ _)). apply oneUp_dryRun. }
  assert (HD : snd (fst (Migrator_OneDownDryRun m w)) = m).
  { unfold Migrator_OneDownDryRun, Migrator_OneDownDryRunCtx.
    rewrite (proj1 (wrapOp_state _ _)). apply oneDown_dryRun. }
  assert (HI : forall e m' w', Migrator_InitDryRun m w = (e, m', w') ->
             m' = snd (fst (versionCtx m w)) /\
             (e = None -> cachedVersion m' = badVersion)).
  { intros e m' w'.
    unfold Migrator_InitDryRun, Migrator_InitDryRunCtx, initCtx, versionCtx. mig_simpl.
    destruct (Database_Version (m_db m) w) as [[v [e0|]] w1]; mig_simpl.
    - destruct (Stepper_Version (m_steps m) 0) as [v0 [e1|]]; mig_simpl.
      + intros H; inversion H; subst. split; [reflexivity | discriminate].
      + destruct (Database_InitVersion (m_db m) v0 true w1) as [[e2|] w2];
          intros H; inversion H; subst; split; try reflexivity; discriminate.
    - destruct (Stepper_Check (m_steps m) v) as [e1|]; mig_simpl.
      + destruct (Stepper_Version (m_steps m) 0) as [v0 [e2|]]; mig_simpl.
        * intros H; inversion H; subst. split; [reflexivity | discriminate].
        * destruct (Database_InitVersion (m_db m) v0 true w1) as [[e2|] w2];
            intros H; inversion H; subst; split; try reflexivity; discriminate.
      + intros H; inversion H; subst. split; [reflexivity | discriminate]. }
  split; [exact HU|]. split; [exact HD|]. split.
  - intros e m' w' H. destruct (HI _ _ _ H) as [-> Hn]. split; [reflexivity | exact Hn].
  - intros op Hop e m' w' H Hv.
    apply Version_report_frame; try assumption.
    + destruct Hop as [<- | [<- | [<- | []]]].
      * rewrite H in HU. simpl in HU. now subst.
      * rewrite H in HD. simpl in HD. now subst.
      * destruct (HI _ _ _ H) as [-> _]. apply versionCtx_handles.
    + destruct Hop as [<- | [<- | [<- | []]]].
      * rewrite H in HU. simpl in HU. now subst.
      * rewrite H in HD. simpl in HD. now subst.
      * destruct (HI _ _ _ H) as [-> _]. apply versionCtx_handles.
Qed.

(** C10, as the code has it.  [New] returns a migrator whose cached version
    is the bad sentinel, of index -1.  On it [OneUp], [OneDown] and their
    dry runs fail with an error that wraps [ErrBadVersion] and does not
    wrap [ErrBadVersionID] ([Steps.Up] and [Steps.Down] put [ErrBadVersion]
    and the version in the place of the error of the check); the database
    is not touched and the migrator is as it was.  What [Version], [Init]
    and [InitDryRun] make of this migrator: a [Version] call that returns
    nil leaves a cached version that the registry accepts, and one that
    fails leaves the migrator as it was; an [Init] that returns nil
    leaves the registry's version 0 in the cache (a valid version when
    the registry is built), an [InitDryRun] that returns nil leaves the
    migrator as it was; an [Init] or [InitDryRun] whose error wraps
    [ErrNotInitialized] leaves the migrator as it was, and any other
    error of theirs wraps [ErrAlreadyInitialized] and comes with the
    version read, which the registry accepts, in the cache. *)
Theorem C10_fresh_migrator (db : Database W) s :
  exists m,
    New (Some db) (Some (Steps_Stepper s)) = (Some m, None) /\
    cachedVersion m = badVersion /\ ID (cachedVersion m) = -1 /\
    (forall op,
        In op [@Migrator_OneUp W; @Migrator_OneDown W;
               @Migrator_OneUpDryRun W; @Migrator_OneDownDryRun W] ->
        forall w, exists e,
          op m w = (Some e, m, w) /\
          Is e ErrBadVersion = true /\ Is e ErrBadVersionID = false) /\
    (forall w v m' w', Migrator_Version m w = (v, None, m', w') ->
        cachedVersion m' = v /\ Steps_Check s v = None) /\
    (forall w v e m' w', Migrator_Version m w = (v, Some e, m', w') -> m' = m) /\
    (forall init (dryRun : bool),
        In (init, dryRun) [(@Migrator_Init W, false); (@Migrator_InitDryRun W, true)] ->
        forall w m' w',
          (init m w = (None, m', w') ->
             if dryRun then m' = m
             else Steps_Version s 0 = (cachedVersion m', None) /\
                  (Built s -> Steps_Check s (cachedVersion m') = None)) /\
          (forall e, init m w = (Some e, m', w') ->
             if Is e ErrNotInitialized then m' = m
             else Is e ErrAlreadyInitialized = true /\
                  Steps_Check s (cachedVersion m') = None)).
Proof.
  eexists. split; [reflexivity|]. split; [reflexivity|]. split; [reflexivity|].
  assert (Hbad : check s badVersion
                 = Some (Errorf_w "" (ofError ErrBadVersionID) (": id " ++ itoa (-1)))).
  { unfold check. cbn [ID badVersion]. rewrite checkID_Some; [reflexivity|lia]. }
  split.
  { intros op Hop w.
    destruct Hop as [<- | [<- | [<- | [<- | []]]]];
      unfold Migrator_OneUp, Migrator_OneUpCtx, Migrator_OneDown, Migrator_OneDownCtx,
        Migrator_OneUpDryRun, Migrator_OneUpDryRunCtx,
        Migrator_OneDownDryRun, Migrator_OneDownDryRunCtx, oneUp, oneDown;
      cbn [m_steps cachedVersion Steps_Stepper Stepper_Up Stepper_Down];
      unfold Steps_Up, Steps_Down; rewrite Hbad;
      eexists; repeat split. }
  split.
  { intros w v m' w'.
    unfold Migrator_Version, Migrator_VersionCtx, versionCtx.
    cbn [set_cachedVersion m_db m_steps cachedVersion Steps_Stepper Stepper_Check].
    destruct (Database_Version db w) as [[v1 [e|]] w1]; [intros H; inversion H|].
    destruct (Steps_Check s v1) eqn:E; intros H; inversion H; subst. auto. }
  split.
  { intros w v e m' w'.
    unfold Migrator_Version, Migrator_VersionCtx, versionCtx.
    cbn [set_cachedVersion m_db m_steps cachedVersion Steps_Stepper Stepper_Check].
    destruct (Database_Version db w) as [[v1 [e1|]] w1];
      [intros H; injection H as <- <- <- <-; reflexivity|].
    destruct (Steps_Check s v1) eqn:E; intros H;
      [injection H as <- <- <- <-; reflexivity | discriminate H]. }
  assert (Hnot : forall cause,
            Is (Errorf_ww "" (ofError ErrNotInitialized) ": " cause "") ErrNotInitialized
            = true) by reflexivity.
  assert (Hzero : forall v0, Steps_Version s 0 = (v0, None) ->
            Built s -> Steps_Check s v0 = None).
  { intros v0 H0 HB. unfold Steps_Version in H0.
    destruct (checkID s 0) eqn:Ec; [discriminate|]. injection H0 as <-.
    apply checkID_None in Ec. apply (check_registry_version HB Ec). }
  intros init dryRun Hin w m' w'.
  assert (Hinit : init (mkMigrator db (Steps_Stepper s) badVersion) w
                  = initCtx (mkMigrator db (Steps_Stepper s) badVersion) dryRun w).
  { destruct Hin as [H | [H | []]]; injection H as <- <-; reflexivity. }
  rewrite Hinit. clear Hin Hinit.
  unfold initCtx, versionCtx, set_cachedVersion.
  cbn [m_db m_steps cachedVersion Steps_Stepper Stepper_Check Stepper_Version].
  destruct (Database_Version db w) as [[v1 [e1|]] w1];
    [|destruct (Steps_Check s v1) as [ec|] eqn:Ec];
    cbn [m_db m_steps cachedVersion Steps_Stepper Stepper_Version].
  3: { split; [intros C; discriminate C|].
       intros e C. injection C as <- <- <-. cbn [cachedVersion].
       rewrite Is_Errorf_w. split; [reflexivity | exact Ec]. }
  all: destruct (Steps_Version s 0) as [v0 [e0|]] eqn:E0;
    [|destruct (Database_InitVersion db v0 dryRun w1) as [[ei|] w2] eqn:Ei];
    (split;
     [ intros C;
       first
         [ discriminate C
         | injection C as <- <-; destruct dryRun; cbn [negb cachedVersion];
           first [ reflexivity
                 | split; [reflexivity | intros HB; apply (Hzero v0 eq_refl HB)] ] ]
     | intros e C;
       first
         [ discriminate C
         | injection C as <- <- <-; rewrite Hnot; reflexivity ] ]).
Qed.

End MigratorClaims.

Section Loops.

Variable W : Type.
Implicit Types (m : Migrator W) (w : W) (s : Steps W).

(** The loop returns at the first failing step: nil when the error wraps
    [ErrEndOfSteps], the error behind the prefix otherwise; the state it
    leaves is the one that the steps before and the failing step left. *)
Lemma allLoop_stops (one : Migrator W -> bool -> W -> option error * Migrator W * W)
    (prefix : string) (k : nat) :
  forall m w mk wk e m' w' fuel,
    succeed one k m w = Some (mk, wk) ->
    one mk false wk = (Some e, m', w') ->
    (k < fuel)%nat ->
    allLoop one prefix fuel m w
    = Some (if Is e ErrEndOfSteps then None else Some (Errorf_w prefix e ""), m', w').
Proof.
  induction k as [|k IH]; intros m w mk wk e m' w' fuel Hk Hone Hfuel;
    (destruct fuel as [|fuel]; [lia|]); simpl in Hk |- *.
  - injection Hk as <- <-. rewrite Hone. now destruct (Is e ErrEndOfSteps).
  - destruct (one m false w) as [[[e0|] m1] w1]; [discriminate|].
    eapply IH; try eassumption. lia.
Qed.

Lemma allLoop_error (one : Migrator W -> bool -> W -> option error * Migrator W * W)
    (prefix : string) (fuel : nat) :
  forall m w e m' w',
    allLoop one prefix fuel m w = Some (Some e, m', w') ->
    exists inner, e = Errorf_w prefix inner "" /\ Is inner ErrEndOfSteps = false.
Proof.
  induction fuel as [|fuel IH]; intros m w e m' w'; simpl; [discriminate|].
  destruct (one m false w) as [[[e0|] m1] w1].
  - destruct (Is e0 ErrEndOfSteps) eqn:E; intros H; inversion H; subst. eauto.
  - apply IH.
Qed.

(** One step over a built registry: it fails, or it moves the cache from
    a valid version to the registry's next (previous) one. *)
Lemma oneUp_Steps s (HB : Built s) m w e m' w' :
  m_steps m = Steps_Stepper s ->
  oneUp m false w = (e, m', w') ->
  e <> None \/
  (m_steps m' = Steps_Stepper s /\
   ID (cachedVersion m) < Steps_Len s - 1 /\
   ID (cachedVersion m') = ID (cachedVersion m) + 1).
Proof.
  intros Hs. unfold oneUp. rewrite Hs. cbn [Steps_Stepper Stepper_Up]. unfold Steps_Up.
  destruct (check s (cachedVersion m)) eqn:Ec.
  { intros H; inversion H; left; discriminate. }
  apply check_None in Ec as [Hr Hv].
  destruct (Z.eqb_spec (ID (cachedVersion m)) (Z.of_nat (List.length (steps s)) - 1)).
  { intros H; inversion H; left; discriminate. }
  assert (Hnext : 0 <= ID (cachedVersion m) + 1 < Steps_Len s)
    by (unfold Steps_Len in *; lia).
  pose proof (nth_steps_at s Hnext) as Hnth. apply (Built_indexed HB) in Hnth.
  rewrite Z2Nat.id in Hnth by lia.
  set (r := match step_up (steps_at s (ID (cachedVersion m) + 1)) with
            | Some up => _
            | None => _
            end).
  destruct r as [[err|] w1]; intros H; inversion H; subst.
  - left; discriminate.
  - right. mig_simpl. cbn [To]. rewrite Hnth. unfold Steps_Len in *.
    repeat split; [assumption | lia].
Qed.

Lemma oneDown_Steps s (HB : Built s) m w e m' w' :
  m_steps m = Steps_Stepper s ->
  oneDown m false w = (e, m', w') ->
  e <> None \/
  (m_steps m' = Steps_Stepper s /\
   0 < ID (cachedVersion m) /\
   ID (cachedVersion m') = ID (cachedVersion m) - 1).
Proof.
  intros Hs. unfold oneDown. rewrite Hs. cbn [Steps_Stepper Stepper_Down].
  unfold Steps_Down.
  destruct (check s (cachedVersion m)) eqn:Ec.
  { intros H; inversion H; left; discriminate. }
  apply check_None in Ec as [Hr Hv].
  destruct (Z.eqb_spec (ID (cachedVersion m)) 0).
  { intros H; inversion H; left; discriminate. }
  assert (Hprev : 0 <= ID (cachedVersion m) - 1 < Steps_Len s) by lia.
  pose proof (nth_steps_at s Hprev) as Hnth. apply (Built_indexed HB) in Hnth.
  rewrite Z2Nat.id in Hnth by lia.
  set (r := match step_down (steps_at s (ID (cachedVersion m))) with
            | Some down => _
            | None => _
            end).
  destruct r as [[err|] w1]; intros H; inversion H; subst.
  - left; discriminate.
  - right. mig_simpl. cbn [To]. rewrite Hnth. repeat split; [assumption | lia].
Qed.

(** With a built registry for stepper both loops return: [AllUp] within
    [N - id] iterations and [AllDown] within [id + 1] iterations of a
    cached version of index [id]. *)
Lemma AllUp_returns s (HB : Built s) (n : nat) :
  forall m w,
    m_steps m = Steps_Stepper s ->
    Steps_Len s - 1 - ID (cachedVersion m) <= Z.of_nat n ->
    exists r, Migrator_AllUp (S n) m w = Some r.
Proof.
  unfold Migrator_AllUp, Migrator_AllUpCtx.
  induction n as [|n IH]; intros m w Hs Hn; cbn [allLoop];
    destruct (oneUp m false w) as [[e m1] w1] eqn:E;
    (destruct e as [e|]; [destruct (Is e ErrEndOfSteps); eauto|]);
    destruct (oneUp_Steps HB _ _ Hs E) as [C | (Hs1 & Hlt & Hid)];
    try congruence.
  - lia.
  - apply IH; [assumption | lia].
Qed.

Lemma AllDown_returns s (HB : Built s) (n : nat) :
  forall m w,
    m_steps m = Steps_Stepper s ->
    ID (cachedVersion m) <= Z.of_nat n ->
    exists r, Migrator_AllDown (S n) m w = Some r.
Proof.
  unfold Migrator_AllDown, Migrator_AllDownCtx.
  induction n as [|n IH]; intros m w Hs Hn; cbn [allLoop];
    destruct (oneDown m false w) as [[e m1] w1] eqn:E;
    (destruct e as [e|]; [destruct (Is e ErrEndOfSteps); eauto|]);
    destruct (oneDown_Steps HB _ _ Hs E) as [C | (Hs1 & Hlt & Hid)];
    try congruence.
  - lia.
  - apply IH; [assumption | lia].
Qed.

End Loops.

Section LoopClaims.

Variable W : Type.
Implicit Types (m : Migrator W) (w : W).

(** C6. After [k] steps that returned nil and a step that returned the
    error [e], [AllUp] (given fuel for [k + 1] iterations) returns nil when
    [e] wraps [ErrEndOfSteps] and ["all up: " e] otherwise; the migrator
    and the database are as the [k] steps and the failing step left them,
    the cache being the version that the [k] steps reached; [OneUp] on
    the same state returns ["one up: " e] whatever [e] wraps.  The same
    holds of [AllDown] and [OneDown]. *)
Theorem C6_all_loops m w (k : nat) mk wk e m' w' (fuel : nat) (Hfuel : (k < fuel)%nat) :
  (succeed (@oneUp W) k m w = Some (mk, wk) ->
   oneUp mk false wk = (Some e, m', w') ->
   Migrator_AllUp fuel m w
   = Some (if Is e ErrEndOfSteps then None else Some (Errorf_w "all up: " e ""), m', w')
   /\ m' = mk
   /\ Migrator_OneUp mk wk = (Some (Errorf_w "one up: " e ""), m', w')
   /\ Is (Errorf_w "one up: " e "") ErrEndOfSteps = Is e ErrEndOfSteps)
  /\
  (succeed (@oneDown W) k m w = Some (mk, wk) ->
   oneDown mk false wk = (Some e, m', w') ->
   Migrator_AllDown fuel m w
   = Some (if Is e ErrEndOfSteps then None else Some (Errorf_w "all down: " e ""), m', w')
   /\ m' = mk
   /\ Migrator_OneDown mk wk = (Some (Errorf_w "one down: " e ""), m', w')
   /\ Is (Errorf_w "one down: " e "") ErrEndOfSteps = Is e ErrEndOfSteps).
Proof.
  split; intros Hk Hone.
  - split; [eapply allLoop_stops; eassumption|].
    split; [eapply oneUp_fail; eassumption|].
    split; [|reflexivity].
    unfold Migrator_OneUp, Migrator_OneUpCtx. now rewrite Hone.
  - split; [eapply allLoop_stops; eassumption|].
    split; [eapply oneDown_fail; eassumption|].
    split; [|reflexivity].
    unfold Migrator_OneDown, Migrator_OneDownCtx. now rewrite Hone.
Qed.

(** C8, as the code has it.  A failure of [OneUp], [OneDown], their dry
    runs, [AllUp] and [AllDown] is [fmt.Errorf(op + ": %w", err)] with the
    name of the operation.  [Version] returns the error of the database
    read or of the registry check as it is.  [Init] and [InitDryRun]
    return [ErrAlreadyInitialized] followed by the version, or
    [ErrNotInitialized] followed by the cause; neither carries the name of
    an operation. *)
Theorem C8_operation_names m w e m' w' :
  (Migrator_OneUp m w = (Some e, m', w') -> wrappedWithOp "one up" e)
  /\ (Migrator_OneDown m w = (Some e, m', w') -> wrappedWithOp "one down" e)
  /\ (Migrator_OneUpDryRun m w = (Some e, m', w') -> wrappedWithOp "one up dry run" e)
  /\ (Migrator_OneDownDryRun m w = (Some e, m', w') -> wrappedWithOp "one down dry run" e)
  /\ (forall fuel, Migrator_AllUp fuel m w = Some (Some e, m', w') ->
        wrappedWithOp "all up" e)
  /\ (forall fuel, Migrator_AllDown fuel m w = Some (Some e, m', w') ->
        wrappedWithOp "all down" e)
  /\ (forall v, Migrator_Version m w = (v, Some e, m', w') ->
        (exists v' w1, Database_Version (m_db m) w = (v', Some e, w1)) \/
        (exists v' w1, Database_Version (m_db m) w = (v', None, w1) /\
                       Stepper_Check (m_steps m) v' = Some e))
  /\ (forall dryRun, initCtx m dryRun w = (Some e, m', w') ->
        (exists v, e = Errorf_w "" (ofError ErrAlreadyInitialized)
                         (" as " ++ Version_String v)) \/
        (exists cause, e = Errorf_ww "" (ofError ErrNotInitialized) ": " cause "")).
Proof.
  repeat split.
  1-4: intros H; apply wrapOp_inv in H as (inner & _ & ->); now exists inner.
  1-2: intros fuel H; apply allLoop_error in H as (inner & -> & _); now exists inner.
  - intros v. unfold Migrator_Version, Migrator_VersionCtx, versionCtx. mig_simpl.
    destruct (Database_Version (m_db m) w) as [[v1 [e1|]] w1].
    + intros H; inversion H; subst. left; eauto.
    + destruct (Stepper_Check (m_steps m) v1) eqn:E; intros H; inversion H; subst.
      right; eauto.
  - intros dryRun. unfold initCtx, versionCtx. mig_simpl.
    destruct (Database_Version (m_db m) w) as [[v1 [e1|]] w1]; mig_simpl.
    + destruct (Stepper_Version (m_steps m) 0) as [v0 [e2|]].
      * intros H; inversion H; right; eauto.
      * destruct (Database_InitVersion (m_db m) v0 dryRun w1) as [[e3|] w2];
          intros H; inversion H; right; eauto.
    + destruct (Stepper_Check (m_steps m) v1) as [e2|]; mig_simpl.
      * destruct (Stepper_Version (m_steps m) 0) as [v0 [e3|]].
        -- intros H; inversion H; right; eauto.
        -- destruct (Database_InitVersion (m_db m) v0 dryRun w1) as [[e4|] w2];
             intros H; inversion H; right; eauto.
      * intros H; inversion H; left; exists v1; reflexivity.
Qed.

End LoopClaims.

(** ** The claims at concrete inputs *)

Lemma testRegistry_Len : Steps_Len testRegistry = 2.
Proof. vm_compute. reflexivity. Defined.

Lemma C2_boundary_errors_witness :
  (exists e, Steps_Version testRegistry 100 = (badVersion, Some e) /\
             Is e ErrBadVersionID = true)
  /\ (exists e, Steps_Check testRegistry (mkVersion 1 zeroChecksum) = Some e /\
                Is e ErrBadVersionChecksum = true)
  /\ (exists e, Steps_Down testRegistry (fst (Steps_Version testRegistry 0)) = inr e /\
                Is e ErrEndOfSteps = true)
  /\ (exists e, Migrator_OneUp
                  (mkMigrator mockDB (Steps_Stepper testRegistry)
                     (fst (Steps_Version testRegistry 1)))
                  (mockAt (fst (Steps_Version testRegistry 1)))
                = (Some e,
                   mkMigrator mockDB (Steps_Stepper testRegistry)
                     (fst (Steps_Version testRegistry 1)),
                   mockAt (fst (Steps_Version testRegistry 1))) /\
                Is e ErrEndOfSteps = true).
Proof.
  destruct (C2_boundary_errors testRegistry) as (Ha & Hb & Hc & Hd).
  split; [|split; [|split]].
  - apply (Ha 100). rewrite testRegistry_Len. lia.
  - apply (Hb (mkVersion 1 zeroChecksum)).
    + rewrite testRegistry_Len. simpl. lia.
    + intros H. vm_compute in H. discriminate H.
  - apply (Hc testRegistry_Built (fst (Steps_Version testRegistry 0))).
    vm_compute. reflexivity.
  - refine (proj2 (Hd testRegistry_Built (fst (Steps_Version testRegistry 1)) _) mockDB _).
    vm_compute. reflexivity.
Defined.

(** C3 at the step that fails before touching the database. *)
Lemma C3_failure_keeps_cache_witness :
  let v0 := fst (Steps_Version testRegistry 0) in
  let m := mkMigrator mockDB (Steps_Stepper testRegistry) v0 in
  let w := mkMock v0 true None (Some errMock) None in
  Migrator_OneUp m w = (Some (Errorf_w "one up: " errMock ""), m, w) /\
  cachedVersion m = v0 /\
  reported (Migrator_Version m w) = reported (Migrator_Version m w).
Proof.
  intros v0 m w.
  assert (H : Migrator_OneUp m w = (Some (Errorf_w "one up: " errMock ""), m, w))
    by (vm_compute; reflexivity).
  split; [exact H|].
  destruct (@C3_failure_keeps_cache _ m w _ m w (or_introl H)) as [Hc Hr].
  split; [exact Hc | exact (Hr eq_refl)].
Defined.

(** C3 fails as stated: the only step of [lateRegistry] bumps the version
    in the database and then returns an error.  [Version] reports version
    0, [OneUp] fails and leaves the cache at version 0, and [Version] then
    reports version 1. *)
Lemma C3_counterexample :
  let v0 := fst (Steps_Version lateRegistry 0) in
  let v1 := fst (Steps_Version lateRegistry 1) in
  let m0 := mkMigrator mockDB (Steps_Stepper lateRegistry) badVersion in
  let '(before, m1, w1) := Migrator_Version m0 (mockAt v0) in
  let '(err, m2, w2) := Migrator_OneUp m1 w1 in
  let '(after, _, _) := Migrator_Version m2 w2 in
  before = (v0, None) /\
  err = Some (Errorf_w "one up: " errMock "") /\
  cachedVersion m2 = cachedVersion m1 /\
  after = (v1, None) /\
  after <> before.
Proof.
  vm_compute. repeat split. intros H. discriminate H.
Qed.

Lemma C4_dry_run_frame_witness :
  let v0 := fst (Steps_Version testRegistry 0) in
  let m := mkMigrator mockDB (Steps_Stepper testRegistry) v0 in
  let w := mockAt v0 in
  snd (fst (Migrator_OneUpDryRun m w)) = m /\
  Migrator_OneUpDryRun m w = (None, m, w) /\
  reported (Migrator_Version m w) = reported (Migrator_Version m w) /\
  cachedVersion m = cachedVersion (snd (fst (versionCtx m w))).
Proof.
  intros v0 m w.
  destruct (C4_dry_run_frame m w) as (HU & _ & HI & HV).
  assert (H : Migrator_OneUpDryRun m w = (None, m, w)) by (vm_compute; reflexivity).
  assert (H' : Migrator_InitDryRun m w
               = (Some (Errorf_w "" (ofError ErrAlreadyInitialized)
                          (" as " ++ Version_String v0)), m, w))
    by (vm_compute; reflexivity).
  split; [exact HU|]. split; [exact H|]. split.
  - exact (HV _ (or_introl eq_refl) _ _ _ H eq_refl).
  - exact (proj1 (HI _ _ _ H')).
Defined.

(** C4 fails as stated.  For [InitDryRun]: after [Version] has cached
    version 0 and the database has lost its version table, [InitDryRun]
    returns nil and leaves the bad sentinel in the cache (the sequence of
    [TestMigratorInit]).  For the reported version: with a step function
    that takes no notice of [dryRun], [OneUpDryRun] returns nil and
    [Version] reports version 1 where it reported version 0. *)
Lemma C4_counterexample :
  (let v0 := fst (Steps_Version testRegistry 0) in
   let m0 := mkMigrator mockDB (Steps_Stepper testRegistry) badVersion in
   let '(before, m1, _) := Migrator_Version m0 (mockAt v0) in
   let '(err, m2, _) := Migrator_InitDryRun m1 (mkMock v0 false None None (Some errMock)) in
   before = (v0, None) /\
   cachedVersion m1 = v0 /\
   err = None /\
   cachedVersion m2 = badVersion /\
   cachedVersion m2 <> cachedVersion m1)
  /\
  (let v0 := fst (Steps_Version eagerRegistry 0) in
   let v1 := fst (Steps_Version eagerRegistry 1) in
   let m0 := mkMigrator mockDB (Steps_Stepper eagerRegistry) badVersion in
   let '(before, m1, w1) := Migrator_Version m0 (mockAt v0) in
   let '(err, m2, w2) := Migrator_OneUpDryRun m1 w1 in
   let '(after, _, _) := Migrator_Version m2 w2 in
   before = (v0, None) /\
   err = None /\
   cachedVersion m2 = cachedVersion m1 /\
   after = (v1, None) /\
   after <> before).
Proof.
  split; vm_compute; repeat split; intros H; discriminate H.
Qed.

(** Scenario 6: [AllUp] on a registry of three steps, from version 0, returns
    nil with the cache and the database at version 3. *)
Lemma C6_all_loops_witness :
  let v0 := fst (Steps_Version threeSteps 0) in
  let v3 := fst (Steps_Version threeSteps 3) in
  Migrator_AllUp 4 (mkMigrator mockDB (Steps_Stepper threeSteps) v0) (mockAt v0)
  = Some (None, mkMigrator mockDB (Steps_Stepper threeSteps) v3, mockAt v3)
  /\ ID v3 = 3.
Proof.
  intros v0 v3.
  assert (Hk : succeed (@oneUp mockDatabase) 3
                 (mkMigrator mockDB (Steps_Stepper threeSteps) v0) (mockAt v0)
               = Some (mkMigrator mockDB (Steps_Stepper threeSteps) v3, mockAt v3))
    by (vm_compute; reflexivity).
  assert (Hone : oneUp (mkMigrator mockDB (Steps_Stepper threeSteps) v3) false (mockAt v3)
                 = (Some (Errorf_w "" (ofError ErrEndOfSteps) (": " ++ Version_String v3)),
                    mkMigrator mockDB (Steps_Stepper threeSteps) v3, mockAt v3))
    by (vm_compute; reflexivity).
  split.
  - assert (Hfuel : (3 < 4)%nat) by lia.
    exact (proj1 (proj1 (@C6_all_loops _ _ _ 3 _ _ _ _ _ 4 Hfuel) Hk Hone)).
  - vm_compute. reflexivity.
Defined.

Lemma C8_operation_names_witness :
  let v0 := fst (Steps_Version testRegistry 0) in
  let m := mkMigrator mockDB (Steps_Stepper testRegistry) v0 in
  let w := mkMock v0 true None (Some errMock) None in
  Migrator_OneUp m w = (Some (Errorf_w "one up: " errMock ""), m, w) /\
  wrappedWithOp "one up" (Errorf_w "one up: " errMock "").
Proof.
  intros v0 m w.
  assert (H : Migrator_OneUp m w = (Some (Errorf_w "one up: " errMock ""), m, w))
    by (vm_compute; reflexivity).
  split; [exact H|].
  exact (proj1 (C8_operation_names m w (Errorf_w "one up: " errMock "") m w) H).
Defined.

(** C8 fails as stated for [Version] and [Init]: [Version] hands back the
    error of the database as it is, and [Init] on an initialized database
    returns ["already initialized as v0:..."]; neither is
    [fmt.Errorf(op + ": %w", err)] for any operation name. *)
Lemma C8_counterexample :
  let v0 := fst (Steps_Version testRegistry 0) in
  let m := mkMigrator mockDB (Steps_Stepper testRegistry) badVersion in
  (snd (reported (Migrator_Version m (mkMock v0 true None None (Some errMock))))
   = Some errMock /\
   Error_msg errMock = "mock error" /\
   forall op, ~ wrappedWithOp op errMock)
  /\
  (exists e, fst (fst (Migrator_Init m (mockAt v0))) = Some e /\
             Error_msg e = "already initialized as v0:0f3182d0b4..." /\
             forall op, ~ wrappedWithOp op e).
Proof.
  split.
  - split; [vm_compute; reflexivity|]. split; [reflexivity|].
    intros op [inner H]. discriminate H.
  - eexists. split; [vm_compute; reflexivity|]. split; [vm_compute; reflexivity|].
    intros op [inner H]. unfold Errorf_w in H. injection H as Hmsg Hinner. subst inner.
    apply (f_equal (fun x => lastChar x "x"%char)) in Hmsg.
    rewrite lastChar_append in Hmsg. vm_compute in Hmsg. discriminate Hmsg.
Qed.

Lemma C10_fresh_migrator_witness :
  let v0 := fst (Steps_Version testRegistry 0) in
  let m := mkMigrator mockDB (Steps_Stepper testRegistry) badVersion in
  New (Some mockDB) (Some (Steps_Stepper testRegistry)) = (Some m, None) /\
  Migrator_Version m (mockAt v0) = (v0, None, set_cachedVersion m v0, mockAt v0) /\
  cachedVersion (set_cachedVersion m v0) = v0 /\
  Steps_Check testRegistry v0 = None.
Proof.
  intros v0 m.
  destruct (C10_fresh_migrator mockDB testRegistry) as (m1 & HN & _ & _ & _ & HV & _).
  assert (Hm : m1 = m) by (injection HN as <-; reflexivity). subst m1.
  assert (H : Migrator_Version m (mockAt v0) = (v0, None, set_cachedVersion m v0, mockAt v0))
    by (vm_compute; reflexivity).
  split; [exact HN|]. split; [exact H|]. exact (HV _ _ _ _ H).
Defined.

(** C10 fails as stated in two places.  In its parenthesis: the error of
    [OneUp] on a fresh migrator wraps [ErrBadVersion] and not
    [ErrBadVersionID].  In its last clause: an [Init] that fails, with
    [ErrAlreadyInitialized], has read the version and leaves it in the
    cache, and the [OneUp] after it returns nil. *)
Lemma C10_counterexample :
  let v0 := fst (Steps_Version testRegistry 0) in
  let v1 := fst (Steps_Version testRegistry 1) in
  match New (Some mockDB) (Some (Steps_Stepper testRegistry)) with
  | (Some m, None) =>
      match Migrator_OneUp m (mockAt v0) with
      | (Some e, _, w) =>
          Error_msg e = "one up: bad version: v-1:0000000000..." /\
          Is e ErrBadVersion = true /\ Is e ErrBadVersionID = false /\ w = mockAt v0
      | _ => False
      end /\
      match Migrator_Init m (mockAt v0) with
      | (Some e, m1, w1) =>
          Is e ErrAlreadyInitialized = true /\ cachedVersion m1 = v0 /\
          match Migrator_OneUp m1 w1 with
          | (None, m2, w2) => cachedVersion m2 = v1 /\ w2 = mockAt v1
          | _ => False
          end
      | _ => False
      end
  | _ => False
  end.
Proof. vm_compute. repeat split. Qed.

(** ** The transactional callback step *)

Section TxFFacts.

Variables Store Env : Type.
Variable sql_exec : string -> list sqlarg -> Store -> ExecOutcome * Store.
Variable sql_query_row : string -> Store -> string + Z * string.
Variable q : Queries.


Implicit Types
  (c : Conn Store Env)
  (gs : list (StepInfo -> bool -> Store * Env -> option error * (Store * Env))).

(** The loop over callbacks that all return nil or cancel calls every one
    of them and raises the flag at the first cancel. *)
Lemma TxF_loop_cancel info dryRun gs :
  forall c (cancel : bool) (s : Store),
    txn c = Some s ->
    Forall nilOrCancel (fst (callAll gs info dryRun (s, env c))) ->
    TxF_loop (map (@inTx Store Env) gs) info dryRun cancel c
    = (None,
       cancel || existsb (fun e => match e with Some _ => true | None => false end)
                   (fst (callAll gs info dryRun (s, env c))),
       mkConn (disk c) (Some (fst (snd (callAll gs info dryRun (s, env c)))))
         (snd (snd (callAll gs info dryRun (s, env c)))) (faults c) (journal c)).
Proof.
  induction gs as [|g gs IH]; intros c cancel s Ht Hall; cbn [map TxF_loop callAll].
  - cbn [fst snd existsb]. rewrite orb_false_r. destruct c; simpl in *. now subst.
  - unfold inTx at 1. rewrite Ht. cbn [callAll] in Hall.
    destruct (g info dryRun (s, env c)) as [e [s1 e1]] eqn:Eg.
    destruct (callAll gs info dryRun (s1, e1)) as [es st2] eqn:Ea.
    cbn [fst snd] in *. inversion Hall as [|? ? He Hes]; subst.
    set (c1 := mkConn (disk c) (Some s1) e1 (faults c) (journal c)).
    assert (Hrest : callAll gs info dryRun (s1, env c1) = (es, st2)) by exact Ea.
    destruct e as [x|].
    + rewrite (He x eq_refl). cbn [negb].
      rewrite (IH c1 true s1 eq_refl); rewrite Hrest; [|exact Hes].
      cbn [fst snd existsb]. now rewrite orb_true_r.
    + rewrite (IH c1 cancel s1 eq_refl); rewrite Hrest; [|exact Hes].
      reflexivity.
Qed.

(** The loop returns at the first callback whose error is not cancel; the
    callbacks after it are not called. *)
Lemma TxF_loop_abort info dryRun gs1 g gs2 x st :
  forall c (cancel : bool) (s : Store),
    txn c = Some s ->
    Forall nilOrCancel (fst (callAll gs1 info dryRun (s, env c))) ->
    g info dryRun (snd (callAll gs1 info dryRun (s, env c))) = (Some x, st) ->
    Is x ErrCancel = false ->
    exists flag,
      TxF_loop (map (@inTx Store Env) (gs1 ++ g :: gs2)) info dryRun cancel c
      = (Some x, flag, mkConn (disk c) (Some (fst st)) (snd st) (faults c) (journal c)).
Proof.
  induction gs1 as [|g1 gs1 IH]; intros c cancel s Ht Hall Hg Hx;
    cbn [app map TxF_loop callAll] in *.
  - unfold inTx at 1. rewrite Ht. cbn [snd] in Hg. rewrite Hg.
    destruct st as [s1 e1]. rewrite Hx. cbn [negb fst snd]. eauto.
  - unfold inTx at 1. rewrite Ht.
    destruct (g1 info dryRun (s, env c)) as [e [s1 e1]] eqn:Eg.
    destruct (callAll gs1 info dryRun (s1, e1)) as [es st2] eqn:Ea.
    cbn [fst snd] in *. inversion Hall as [|? ? He Hes]; subst.
    set (c1 := mkConn (disk c) (Some s1) e1 (faults c) (journal c)).
    destruct e as [y|].
    + rewrite (He y eq_refl). cbn [negb].
      apply (IH c1 true s1 eq_refl); subst c1; cbn [env]; rewrite ?Ea; assumption.
    + apply (IH c1 cancel s1 eq_refl); subst c1; cbn [env]; rewrite ?Ea; assumption.
Qed.

Lemma sqlDB_StartTransaction_ok c :
  hd None (faults c) = None ->
  sqlDB_StartTransaction c
  = (None, mkConn (disk c) (Some (disk c)) (env c) (tl (faults c))
             (journal c ++ [callBegin])).
Proof.
  intros H. unfold sqlDB_StartTransaction, DB_BeginTx, next_fault, record, set_txn.
  cbn [faults disk txn env journal].
  destruct (faults c) as [|f fs]; cbn [hd tl] in *; [reflexivity|].
  subst f. reflexivity.
Qed.

Lemma sqlDB_VersionTx_ok c s id cs v :
  txn c = Some s ->
  sql_query_row (VersionQuery q) s = inr (id, cs) ->
  MakeVersion id cs = (v, None) ->
  sqlDB_VersionTx sql_query_row q c
  = (v, None, mkConn (disk c) (txn c) (env c) (faults c)
                (journal c ++ [callQueryRow (VersionQuery q)])).
Proof.
  intros Ht Hq Hv. unfold sqlDB_VersionTx, Tx_QueryRow_Scan, record.
  cbn [txn]. rewrite Ht, Hq, Hv. reflexivity.
Qed.

(** With an error at hand [FinalizeTransaction] rolls back; the error it
    leaves is the one it was given, alone or followed by the failure of
    the rollback. *)
Lemma sqlTx_FinalizeTransaction_error err dryRun c s :
  txn c = Some s ->
  exists err',
    sqlTx_FinalizeTransaction (Some err) dryRun c
    = (Some err', mkConn (disk c) None (env c) (tl (faults c))
                    (journal c ++ [callRollback])) /\
    (err' = err \/
     exists msg, err' = Errorf_www err (ofError ErrRollbackTx) (errorString msg)).
Proof.
  intros Ht. unfold sqlTx_FinalizeTransaction, Tx_Rollback, next_fault, record, set_txn.
  cbn [orb txn faults disk env journal]. rewrite Ht.
  destruct (faults c) as [|[msg|] fs]; cbn [option_map tl faults disk env journal txn];
    eexists; (split; [reflexivity|]); eauto.
Qed.

Lemma Is_after_rollback err msg t :
  t <> ErrRollbackTx ->
  Is (Errorf_www err (ofError ErrRollbackTx) (errorString msg)) t = Is err t.
Proof.
  intros Ht. unfold Errorf_www. cbn [Is].
  destruct (String.eqb_spec ErrRollbackTx t) as [E|E]; [congruence|].
  now rewrite !orb_false_r.
Qed.

(** [TxF(fs...)] on an [sqlDB] whose transaction begins and whose version
    is [info.From], for callbacks that work through the transaction they
    are given.  When every callback returns nil or an error wrapping
    [ErrCancel], and one at least returns such an error: every callback is
    called, the step function returns nil, the driver sees [Begin], the
    version query and [Rollback] (no [Exec] of the version update, no
    [Commit]), and the committed tables, hence the version, are as before.
    When a callback returns an error that does not wrap [ErrCancel] (the
    ones before it returning nil or cancel): the callbacks after it are
    not called, the step function returns an error wrapping that error,
    and the driver calls and the committed tables are as in the first
    case. *)
Lemma TxF_inTx_callbacks (info : StepInfo) (dryRun : bool) c
    (Hbegin : hd None (faults c) = None)
    (Hversion : exists id cs,
        sql_query_row (VersionQuery q) (disk c) = inr (id, cs) /\
        MakeVersion id cs = (From info, None)) :
  (forall gs,
      Forall nilOrCancel (fst (callAll gs info dryRun (disk c, env c))) ->
      Exists (fun e => e <> None) (fst (callAll gs info dryRun (disk c, env c))) ->
      exists c',
        TxF (map (@inTx Store Env) gs) (@sqlDB Store Env sql_exec sql_query_row q) info dryRun c
        = (None, c') /\
        env c' = snd (snd (callAll gs info dryRun (disk c, env c))) /\
        journal c'
        = (journal c ++ [callBegin; callQueryRow (VersionQuery q); callRollback])%list /\
        txn c' = None /\
        disk c' = disk c /\
        sql_query_row (VersionQuery q) (disk c')
        = sql_query_row (VersionQuery q) (disk c))
  /\
  (forall gs1 g gs2 x st,
      Forall nilOrCancel (fst (callAll gs1 info dryRun (disk c, env c))) ->
      g info dryRun (snd (callAll gs1 info dryRun (disk c, env c))) = (Some x, st) ->
      Is x ErrCancel = false ->
      exists err c',
        TxF (map (@inTx Store Env) (gs1 ++ g :: gs2)) (@sqlDB Store Env sql_exec sql_query_row q)
          info dryRun c
        = (Some err, c') /\
        Wraps err x /\
        env c' = snd st /\
        journal c'
        = (journal c ++ [callBegin; callQueryRow (VersionQuery q); callRollback])%list /\
        txn c' = None /\
        disk c' = disk c).
Proof.
  destruct Hversion as (id & cs & Hq & Hv).
  set (c1 := mkConn (disk c) (Some (disk c)) (env c) (tl (faults c))
               (journal c ++ [callBegin])).
  set (c2 := mkConn (disk c1) (txn c1) (env c1) (faults c1)
               (journal c1 ++ [callQueryRow (VersionQuery q)])).
  assert (H2 : sqlDB_VersionTx sql_query_row q c1 = (From info, None, c2))
    by (apply sqlDB_VersionTx_ok with (s := disk c) (id := id) (cs := cs);
        [reflexivity | assumption | assumption]).
  split.
  - intros gs Hall Hex.
    pose proof (@TxF_loop_cancel info dryRun gs c2 false (disk c) eq_refl Hall) as HL.
    cbn [orb] in HL.
    assert (Hflag : existsb (fun e => match e with Some _ => true | None => false end)
                      (fst (callAll gs info dryRun (disk c, env c))) = true).
    { apply existsb_exists. apply Exists_exists in Hex as (e & Hin & He).
      exists e. split; [assumption|]. destruct e; [reflexivity | contradiction]. }
    change (env c2) with (env c) in HL. rewrite Hflag in HL.
    set (r := callAll gs info dryRun (disk c, env c)) in *.
    set (c3 := mkConn (disk c2) (Some (fst (snd r))) (snd (snd r)) (faults c2) (journal c2))
      in *.
    destruct (@sqlTx_FinalizeTransaction_error (ofError ErrCancel) dryRun c3 _ eq_refl)
      as (err' & HF & Herr').
    eexists. split.
    + unfold TxF. cbn [sqlDB Database_asSQLDB sqlDB_SQLDB SQLDB_StartTransaction
                        SQLDB_VersionTx SQLDB_FinalizeTransaction SQLDB_SetVersionTx].
      rewrite (sqlDB_StartTransaction_ok c Hbegin). fold c1. rewrite H2.
      rewrite Version_eqb_refl. cbn [negb]. rewrite HL. rewrite HF.
      f_equal. unfold TxF_deferred.
      destruct Herr' as [-> | (msg & ->)]; [reflexivity|].
      rewrite Is_after_rollback by discriminate. reflexivity.
    + cbn [env journal txn disk]. repeat split.
      subst c3 c2 c1. cbn [journal]. now rewrite <- !app_assoc.
  - intros gs1 g gs2 x st Hall Hg Hx.
    destruct (@TxF_loop_abort info dryRun gs1 g gs2 x st c2 false (disk c) eq_refl Hall Hg Hx)
      as (flag & HL).
    set (c3 := mkConn (disk c2) (Some (fst st)) (snd st) (faults c2) (journal c2)) in *.
    destruct (@sqlTx_FinalizeTransaction_error x dryRun c3 _ eq_refl)
      as (err' & HF & Herr').
    assert (Hnc : Is err' ErrCancel = false).
    { destruct Herr' as [-> | (msg & ->)]; [assumption|].
      rewrite Is_after_rollback by discriminate. assumption. }
    assert (Hw : Wraps err' x).
    { destruct Herr' as [-> | (msg & ->)]; [apply Wraps_refl|].
      simpl. right. left. apply Wraps_refl. }
    exists (Errorf_w ("txf " ++ Version_String (From info) ++ " -> "
                      ++ Version_String (To info)
                      ++ (if dryRun then " dry run: " else ": ")) err' "").
    exists (mkConn (disk c3) None (env c3) (tl (faults c3)) (journal c3 ++ [callRollback])).
    split.
    + unfold TxF. cbn [sqlDB Database_asSQLDB sqlDB_SQLDB SQLDB_StartTransaction
                        SQLDB_VersionTx SQLDB_FinalizeTransaction SQLDB_SetVersionTx].
      rewrite (sqlDB_StartTransaction_ok c Hbegin). fold c1. rewrite H2.
      rewrite Version_eqb_refl. cbn [negb]. rewrite HL. rewrite HF.
      unfold TxF_deferred. rewrite Hnc. clear. destruct dryRun; reflexivity.
    + split.
      * apply Wraps_Errorf_w; exact Hw.
      * cbn [env journal txn disk]. repeat split.
        subst c3 c2 c1. cbn [journal]. now rewrite <- !app_assoc.
Qed.

(** The loop over any callbacks that all return nil or cancel calls every
    one of them. *)
Lemma TxF_loop_cancel_any info (dryRun : bool) fs :
  forall c (cancel : bool),
    Forall nilOrCancel (fst (callAll fs info dryRun c)) ->
    TxF_loop fs info dryRun cancel c
    = (None,
       cancel || existsb (fun e => match e with Some _ => true | None => false end)
                   (fst (callAll fs info dryRun c)),
       snd (callAll fs info dryRun c)).
Proof.
  induction fs as [|f fs IH]; intros c cancel Hall; cbn [TxF_loop callAll].
  - cbn [fst snd existsb]. now rewrite orb_false_r.
  - cbn [callAll] in Hall.
    destruct (f info dryRun c) as [e c1] eqn:Ef.
    destruct (callAll fs info dryRun c1) as [es cK] eqn:Ea.
    cbn [fst snd existsb] in *. inversion Hall as [|? ? He Hes]; subst.
    specialize (IH c1). rewrite Ea in IH. cbn [fst snd] in IH.
    destruct e as [e|].
    + rewrite (He e eq_refl). cbn [negb]. rewrite (IH true Hes).
      cbn [orb]. now rewrite orb_true_r.
    + rewrite (IH cancel Hes). reflexivity.
Qed.

Lemma TxF_loop_abort_any info (dryRun : bool) fs1 (f : TxFunc (Conn Store Env)) fs2 x cf :
  forall c (cancel : bool),
    Forall nilOrCancel (fst (callAll fs1 info dryRun c)) ->
    f info dryRun (snd (callAll fs1 info dryRun c)) = (Some x, cf) ->
    Is x ErrCancel = false ->
    exists flag, TxF_loop (fs1 ++ f :: fs2) info dryRun cancel c = (Some x, flag, cf).
Proof.
  induction fs1 as [|g fs1 IH]; intros c cancel Hall Hf Hx; cbn [TxF_loop callAll app] in *.
  - cbn [snd] in Hf. rewrite Hf, Hx. cbn [negb]. eauto.
  - destruct (g info dryRun c) as [e c1] eqn:Eg.
    destruct (callAll fs1 info dryRun c1) as [es cK] eqn:Ea.
    cbn [fst snd] in *. inversion Hall as [|? ? He Hes]; subst.
    specialize (IH c1). rewrite Ea in IH. cbn [fst snd] in IH.
    destruct e as [e|].
    + rewrite (He e eq_refl). cbn [negb]. apply IH; assumption.
    + apply IH; assumption.
Qed.

(** With an error at hand [FinalizeTransaction] calls [Rollback], whatever
    the state of the transaction is. *)
Lemma Finalize_error_any (err : error) (dryRun : bool) c :
  exists err' c',
    sqlTx_FinalizeTransaction (Some err) dryRun c = (Some err', c') /\
    journal c' = (journal c ++ [callRollback])%list /\
    disk c' = disk c /\ env c' = env c /\
    (err' = err \/
     exists msg, err' = Errorf_www err (ofError ErrRollbackTx) (errorString msg)).
Proof.
  unfold sqlTx_FinalizeTransaction, Tx_Rollback, next_fault, record, set_txn.
  cbn [orb txn faults disk env journal].
  destruct (txn c) as [s|]; [destruct (faults c) as [|[msg|] fs0]|];
    cbn [option_map tl faults disk env journal txn];
    do 2 eexists; (split; [reflexivity|]); cbn [journal disk env];
    repeat split; eauto.
Qed.

(** C5, as the code has it.  [TxF(fs...)] on an [sqlDB] whose transaction
    begins and whose version is [info.From].  For callbacks that work
    through the transaction they are given (the first two parts): when
    every callback returns nil or an error wrapping [ErrCancel], and one
    at least returns such an error, every callback is called, the step
    function returns nil, the driver sees [Begin], the version query and
    [Rollback] (no [Exec] of the version update, no [Commit]), and the
    committed tables, hence the version, are as before; when a callback
    returns an error that does not wrap [ErrCancel], the callbacks after
    it are not called, the step function returns an error wrapping that
    error, and the driver calls and the tables are the same.  For
    callbacks of any kind (the last two parts), which may commit or roll
    back the [*sql.Tx] themselves: the step function returns nil in the
    first case and an error wrapping the error in the second, the same
    callbacks are called, and all [TxF] itself adds to what they did is
    one [Rollback]: no version update and no [Commit] of its own; the
    tables are then the ones the callbacks left. *)
Theorem C5_TxF_cancel_abort (info : StepInfo) (dryRun : bool) c
    (Hbegin : hd None (faults c) = None)
    (Hversion : exists id cs,
        sql_query_row (VersionQuery q) (disk c) = inr (id, cs) /\
        MakeVersion id cs = (From info, None)) :
  (forall gs,
      Forall nilOrCancel (fst (callAll gs info dryRun (disk c, env c))) ->
      Exists (fun e => e <> None) (fst (callAll gs info dryRun (disk c, env c))) ->
      exists c',
        TxF (map (@inTx Store Env) gs) (@sqlDB Store Env sql_exec sql_query_row q) info dryRun c
        = (None, c') /\
        env c' = snd (snd (callAll gs info dryRun (disk c, env c))) /\
        journal c'
        = (journal c ++ [callBegin; callQueryRow (VersionQuery q); callRollback])%list /\
        txn c' = None /\
        disk c' = disk c /\
        sql_query_row (VersionQuery q) (disk c')
        = sql_query_row (VersionQuery q) (disk c))
  /\
  (forall gs1 g gs2 x st,
      Forall nilOrCancel (fst (callAll gs1 info dryRun (disk c, env c))) ->
      g info dryRun (snd (callAll gs1 info dryRun (disk c, env c))) = (Some x, st) ->
      Is x ErrCancel = false ->
      exists err c',
        TxF (map (@inTx Store Env) (gs1 ++ g :: gs2)) (@sqlDB Store Env sql_exec sql_query_row q)
          info dryRun c
        = (Some err, c') /\
        Wraps err x /\
        env c' = snd st /\
        journal c'
        = (journal c ++ [callBegin; callQueryRow (VersionQuery q); callRollback])%list /\
        txn c' = None /\
        disk c' = disk c)
  /\
  (let c2 := mkConn (disk c) (Some (disk c)) (env c) (tl (faults c))
               (journal c ++ [callBegin; callQueryRow (VersionQuery q)]) in
   (forall fs,
       Forall nilOrCancel (fst (callAll fs info dryRun c2)) ->
       Exists (fun e => e <> None) (fst (callAll fs info dryRun c2)) ->
       exists c',
         TxF fs (@sqlDB Store Env sql_exec sql_query_row q) info dryRun c = (None, c') /\
         journal c'
         = (journal (snd (callAll fs info dryRun c2)) ++ [callRollback])%list /\
         disk c' = disk (snd (callAll fs info dryRun c2)) /\
         env c' = env (snd (callAll fs info dryRun c2)))
   /\
   (forall fs1 (f : TxFunc (Conn Store Env)) fs2 x cf,
       Forall nilOrCancel (fst (callAll fs1 info dryRun c2)) ->
       f info dryRun (snd (callAll fs1 info dryRun c2)) = (Some x, cf) ->
       Is x ErrCancel = false ->
       exists err c',
         TxF (fs1 ++ f :: fs2) (@sqlDB Store Env sql_exec sql_query_row q) info dryRun c
         = (Some err, c') /\
         Wraps err x /\
         journal c' = (journal cf ++ [callRollback])%list /\
         disk c' = disk cf /\ env c' = env cf)).
Proof.
  destruct (@TxF_inTx_callbacks info dryRun c Hbegin Hversion) as [Hcancel Habort].
  split; [exact Hcancel|]. split; [exact Habort|].
  destruct Hversion as (id & cs & Hq & Hv).
  set (c1 := mkConn (disk c) (Some (disk c)) (env c) (tl (faults c))
               (journal c ++ [callBegin])).
  assert (H2 : sqlDB_VersionTx sql_query_row q c1
               = (From info, None,
                  mkConn (disk c) (Some (disk c)) (env c) (tl (faults c))
                    (journal c ++ [callBegin; callQueryRow (VersionQuery q)]))).
  { rewrite (@sqlDB_VersionTx_ok c1 (disk c) id cs (From info) eq_refl Hq Hv).
    subst c1. cbn [disk txn env faults journal]. now rewrite <- app_assoc. }
  intros c2. split.
  - intros fs Hall Hex.
    pose proof (@TxF_loop_cancel_any info dryRun fs c2 false Hall) as HL.
    cbn [orb] in HL.
    assert (Hflag : existsb (fun e => match e with Some _ => true | None => false end)
                      (fst (callAll fs info dryRun c2)) = true).
    { apply existsb_exists. apply Exists_exists in Hex as (e & Hin & He).
      exists e. split; [assumption|]. destruct e; [reflexivity | contradiction]. }
    rewrite Hflag in HL.
    destruct (Finalize_error_any (ofError ErrCancel) dryRun (snd (callAll fs info dryRun c2)))
      as (err' & c' & HF & Hj & Hd & He & Herr').
    exists c'. split; [|repeat split; assumption].
    unfold TxF. cbn [sqlDB Database_asSQLDB sqlDB_SQLDB SQLDB_StartTransaction
                       SQLDB_VersionTx SQLDB_FinalizeTransaction SQLDB_SetVersionTx].
    rewrite (sqlDB_StartTransaction_ok c Hbegin). fold c1. rewrite H2. fold c2.
    rewrite Version_eqb_refl. cbn [negb]. rewrite HL. rewrite HF.
    f_equal. unfold TxF_deferred.
    destruct Herr' as [-> | (msg & ->)]; [reflexivity|].
    rewrite Is_after_rollback by discriminate. reflexivity.
  - intros fs1 f fs2 x cf Hall Hf Hx.
    destruct (@TxF_loop_abort_any info dryRun fs1 f fs2 x cf c2 false Hall Hf Hx)
      as (flag & HL).
    destruct (Finalize_error_any x dryRun cf) as (err' & c' & HF & Hj & Hd & He & Herr').
    assert (Hnc : Is err' ErrCancel = false).
    { destruct Herr' as [-> | (msg & ->)]; [assumption|].
      rewrite Is_after_rollback by discriminate. assumption. }
    assert (Hw : Wraps err' x).
    { destruct Herr' as [-> | (msg & ->)]; [apply Wraps_refl|].
      simpl. right. left. apply Wraps_refl. }
    exists (Errorf_w ("txf " ++ Version_String (From info) ++ " -> "
                      ++ Version_String (To info)
                      ++ (if dryRun then " dry run: " else ": ")) err' "").
    exists c'. split; [|split; [apply Wraps_Errorf_w; exact Hw | repeat split; assumption]].
    unfold TxF. cbn [sqlDB Database_asSQLDB sqlDB_SQLDB SQLDB_StartTransaction
                       SQLDB_VersionTx SQLDB_FinalizeTransaction SQLDB_SetVersionTx].
    rewrite (sqlDB_StartTransaction_ok c Hbegin). fold c1. rewrite H2. fold c2.
    rewrite Version_eqb_refl. cbn [negb]. rewrite HL. rewrite HF.
    unfold TxF_deferred. rewrite Hnc. clear. destruct dryRun; reflexivity.
Qed.

(** Dry runs of the package's own database: the default step and [TxF]
    with [dryRun] set leave the committed tables as they were, whatever the
    driver and the callbacks do inside the transaction. *)
Lemma disk_StartTransaction c :
  disk (snd (sqlDB_StartTransaction c)) = disk c.
Proof.
  unfold sqlDB_StartTransaction, DB_BeginTx, next_fault, record, set_txn.
  cbn [faults disk txn env journal].
  destruct (faults c) as [|[msg|] fs]; reflexivity.
Qed.

Lemma disk_SetVersionTx info dryRun c :
  disk (snd (sqlDB_SetVersionTx sql_exec q info dryRun c)) = disk c.
Proof.
  unfold sqlDB_SetVersionTx, Tx_Exec, record, set_txn. cbn [txn disk].
  destruct (txn c) as [s|]; [|reflexivity].
  destruct (sql_exec _ _ s) as [[msg|rows [msg|]] s1]; cbn [disk snd]; try reflexivity.
  destruct (negb (rows =? 1)); reflexivity.
Qed.

Lemma disk_FinalizeTransaction_rollback err dryRun c :
  err <> None \/ dryRun = true ->
  disk (snd (sqlTx_FinalizeTransaction err dryRun c)) = disk c.
Proof.
  intros H. unfold sqlTx_FinalizeTransaction.
  assert (Hb : (match err with Some _ => true | None => false end) || dryRun = true).
  { destruct H as [H | ->]; [destruct err; [reflexivity | contradiction]|].
    apply orb_true_r. }
  rewrite Hb. unfold Tx_Rollback, next_fault, record, set_txn.
  cbn [txn faults disk env journal].
  destruct (txn c) as [s|]; [destruct (faults c) as [|[msg|] fs]|];
    destruct err; reflexivity.
Qed.

Lemma sqlDB_DefaultStepFunc_dryRun info c :
  disk (snd (sqlDB_DefaultStepFunc sql_exec q info true c)) = disk c.
Proof.
  unfold sqlDB_DefaultStepFunc, sqlDB_SetVersion.
  pose proof (disk_StartTransaction c) as H1.
  destruct (sqlDB_StartTransaction c) as [[err|] c1]; cbn [snd] in *; [assumption|].
  pose proof (disk_SetVersionTx info true c1) as H2.
  destruct (sqlDB_SetVersionTx sql_exec q info true c1) as [err c2]; cbn [snd] in *.
  rewrite disk_FinalizeTransaction_rollback by (right; reflexivity). congruence.
Qed.

Lemma disk_TxF_loop info dryRun gs :
  forall c (cancel : bool),
    disk (snd (TxF_loop (map (@inTx Store Env) gs) info dryRun cancel c)) = disk c.
Proof.
  induction gs as [|g gs IH]; intros c cancel; cbn [map TxF_loop]; [reflexivity|].
  unfold inTx at 1. destruct (txn c) as [s|]; [|reflexivity].
  destruct (g info dryRun (s, env c)) as [[e|] [s1 e1]].
  - destruct (negb (Is e ErrCancel)); [reflexivity|]. now rewrite IH.
  - now rewrite IH.
Qed.

Lemma disk_VersionTx c :
  disk (snd (sqlDB_VersionTx sql_query_row q c)) = disk c.
Proof.
  unfold sqlDB_VersionTx, Tx_QueryRow_Scan, record. cbn [txn].
  destruct (txn c) as [s|]; [|reflexivity].
  destruct (sql_query_row (VersionQuery q) s) as [msg|[id cs]]; [reflexivity|].
  destruct (MakeVersion id cs); reflexivity.
Qed.

Lemma TxF_dryRun info gs c :
  disk (snd (TxF (map (@inTx Store Env) gs) (@sqlDB Store Env sql_exec sql_query_row q)
               info true c)) = disk c.
Proof.
  unfold TxF. cbn [sqlDB Database_asSQLDB sqlDB_SQLDB SQLDB_StartTransaction
                     SQLDB_VersionTx SQLDB_FinalizeTransaction SQLDB_SetVersionTx].
  pose proof (disk_StartTransaction c) as H1.
  destruct (sqlDB_StartTransaction c) as [[err|] c1]; cbn [snd] in *; [assumption|].
  pose proof (disk_VersionTx c1) as H2.
  destruct (sqlDB_VersionTx sql_query_row q c1) as [[dbv [err|]] c2]; cbn [snd] in H2.
  { rewrite <- H1, <- H2.
    pose proof (@disk_FinalizeTransaction_rollback (Some err) true c2) as HF.
    destruct (sqlTx_FinalizeTransaction (Some err) true c2); cbn [snd] in *.
    apply HF. right; reflexivity. }
  assert (Hret : forall e c3, disk c3 = disk c ->
             disk (snd (let '(err, w) := sqlTx_FinalizeTransaction e true c3 in
                        (TxF_deferred info true err, w))) = disk c).
  { intros e c3 H3.
    pose proof (@disk_FinalizeTransaction_rollback e true c3) as HF.
    destruct (sqlTx_FinalizeTransaction e true c3); cbn [snd] in *.
    rewrite HF by (right; reflexivity). assumption. }
  destruct (negb (Version_eqb dbv (From info))); [apply Hret; congruence|].
  pose proof (disk_TxF_loop info true gs c2 false) as H3.
  destruct (TxF_loop (map (@inTx Store Env) gs) info true false c2) as [[err cancel] c3];
    cbn [snd] in H3.
  destruct err as [e|]; [apply Hret; congruence|].
  destruct cancel; [apply Hret; congruence|].
  pose proof (disk_SetVersionTx info true c3) as H4.
  destruct (sqlDB_SetVersionTx sql_exec q info true c3) as [err c4]; cbn [snd] in H4.
  apply Hret. congruence.
Qed.

End TxFFacts.

Lemma C5_TxF_cancel_abort_witness :
  let db := @sqlDB rowStore nat rowStore_exec rowStore_query_row sqliteQueries in
  let ok := countCall None in
  let cancel := countCall (Some (ofError ErrCancel)) in
  let abort := countCall (Some (ofError ErrAbort)) in
  (exists c',
      TxF (map (@inTx rowStore nat) [ok; cancel; ok]) db demoInfo false demoConn = (None, c') /\
      env c' = 3%nat /\
      journal c' = [callBegin; callQueryRow (VersionQuery sqliteQueries); callRollback] /\
      disk c' = disk demoConn)
  /\
  (exists err c',
      TxF (map (@inTx rowStore nat) [ok; abort; ok]) db demoInfo false demoConn
      = (Some err, c') /\
      Wraps err (ofError ErrAbort) /\
      env c' = 2%nat /\
      journal c' = [callBegin; callQueryRow (VersionQuery sqliteQueries); callRollback] /\
      disk c' = disk demoConn).
Proof.
  intros db ok cancel abort.
  assert (Hbegin : hd None (faults demoConn) = None) by reflexivity.
  assert (Hversion : exists id cs,
             rowStore_query_row (VersionQuery sqliteQueries) (disk demoConn) = inr (id, cs) /\
             MakeVersion id cs = (From demoInfo, None)).
  { exists 0, (ChecksumString (fst (Steps_Version testRegistry 0))).
    split; vm_compute; reflexivity. }
  destruct (@C5_TxF_cancel_abort rowStore nat rowStore_exec rowStore_query_row
              sqliteQueries demoInfo false demoConn Hbegin Hversion)
    as (Hcancel & Habort & _).
  split.
  - destruct (Hcancel [ok; cancel; ok]) as (c' & H & He & Hj & _ & Hd & _).
    + repeat constructor; intros x Hx; inversion Hx; reflexivity.
    + right. left. discriminate.
    + exists c'. repeat split; assumption.
  - destruct (Habort [ok] abort [ok] (ofError ErrAbort)
                (disk demoConn, 2%nat)) as (err & c' & H & Hw & He & Hj & _ & Hd).
    + repeat constructor; intros x Hx; inversion Hx.
    + reflexivity.
    + reflexivity.
    + exists err, c'. repeat split; assumption.
Defined.

(** C5 fails for a callback that commits the transaction itself: [TxF]
    returns nil for its [ErrCancel] (the rollback that follows fails, the
    transaction being done), while the version update of the callback is
    committed and the database is at [info.To]. *)
Lemma C5_counterexample :
  let r := TxF [commitsItself] rowDB demoInfo false demoConn in
  fst r = None /\
  journal (snd r)
  = [callBegin; callQueryRow (VersionQuery sqliteQueries);
     callExec (SetVersionQuery sqliteQueries) (setVersionArgs demoInfo);
     callCommit; callRollback] /\
  disk demoConn = Some [(0, ChecksumString (From demoInfo))] /\
  disk (snd r) = Some [(1, ChecksumString (To demoInfo))] /\
  fst (sqlDB_Version rowStore_query_row sqliteQueries demoConn) = (From demoInfo, None) /\
  fst (sqlDB_Version rowStore_query_row sqliteQueries (snd r)) = (To demoInfo, None) /\
  To demoInfo <> From demoInfo.
Proof.
  vm_compute. repeat split. intros H. discriminate H.
Qed.

(** ** The model at work *)

(** The "Success" case of [TestTxF]: begin, version query, the version
    update, commit; the committed row is the new version. *)
Example TestTxF_Success :
  let r := TxF (map (@inTx rowStore nat) [countCall None]) rowDB demoInfo false demoConn in
  fst r = None /\
  journal (snd r)
  = [callBegin; callQueryRow (VersionQuery sqliteQueries);
     callExec (SetVersionQuery sqliteQueries)
       [argInt 1; argText (ChecksumString (To demoInfo));
        argInt 0; argText (ChecksumString (From demoInfo))];
     callCommit] /\
  disk (snd r) = Some [(1, ChecksumString (To demoInfo))] /\
  env (snd r) = 1%nat.
Proof. vm_compute. repeat split. Qed.

(** The "Dry run" case of [TestTxF]: the same calls ending in a rollback;
    the committed row is the old version. *)
Example TestTxF_Dry_run :
  let r := TxF (map (@inTx rowStore nat) [countCall None]) rowDB demoInfo true demoConn in
  fst r = None /\
  journal (snd r)
  = [callBegin; callQueryRow (VersionQuery sqliteQueries);
     callExec (SetVersionQuery sqliteQueries)
       [argInt 1; argText (ChecksumString (To demoInfo));
        argInt 0; argText (ChecksumString (From demoInfo))];
     callRollback] /\
  disk (snd r) = disk demoConn.
Proof. vm_compute. repeat split. Qed.

(** Full traversal on the package's database: from an empty database,
    [Init], [AllUp] and [AllDown] return nil and [Version] reports version
    2 after [AllUp] and version 0 after [AllDown]; a second [Init] fails
    with [ErrAlreadyInitialized]. *)
Example full_traversal :
  let m0 := mkMigrator rowDB (Steps_Stepper rowRegistry) badVersion in
  let '(e1, m1, c1) := Migrator_Init m0 emptyConn in
  match Migrator_AllUp 5 m1 c1 with
  | Some (e2, m2, c2) =>
      let '(v3, e3, m3, c3) := Migrator_Version m2 c2 in
      match Migrator_AllDown 5 m3 c3 with
      | Some (e4, m4, c4) =>
          let '(v5, e5, m5, c5) := Migrator_Version m4 c4 in
          let '(e6, _, _) := Migrator_Init m5 c5 in
          e1 = None /\ e2 = None /\ e3 = None /\ e4 = None /\ e5 = None /\
          v3 = fst (Steps_Version rowRegistry 2) /\
          v5 = fst (Steps_Version rowRegistry 0) /\
          match e6 with
          | Some e => Is e ErrAlreadyInitialized = true
          | None => False
          end
      | None => False
      end
  | None => False
  end.
Proof. vm_compute. repeat split. Qed.

(* ================================================================== *)
(** ** More on the registry and on versions *)

Lemma Sum256_length (msg : list byte) : List.length (SHA256.Sum256 msg) = 32%nat.
Proof.
  unfold SHA256.Sum256.
  assert (Hc : forall h b, List.length h = 8%nat ->
                           List.length (SHA256.compress h b) = 8%nat).
  { intros h b Hh. unfold SHA256.compress.
    rewrite length_map, length_combine, Hh. reflexivity. }
  assert (Hb : forall n h bs, List.length h = 8%nat ->
                              List.length (SHA256.blocks n h bs) = 8%nat).
  { induction n as [|n IH]; intros h bs Hh; simpl; [assumption|].
    apply IH, Hc, Hh. }
  assert (Hf : forall h, List.length (flat_map (SHA256.be_bytes 4) h)
                         = (4 * List.length h)%nat).
  { induction h as [|x h IH]; [reflexivity|].
    cbn [flat_map]. rewrite length_app, IH.
    unfold SHA256.be_bytes. rewrite length_map, length_seq.
    cbn [List.length]. lia. }
  rewrite Hf, Hb; reflexivity.
Qed.

Lemma hexDecode_length (s : string) :
  (forall b, hexDecode s = (b, None) -> String.length s = (2 * List.length b)%nat)
  /\ (forall c b, hexDecode (String c s) = (b, None) ->
        String.length (String c s) = (2 * List.length b)%nat).
Proof.
  induction s as [|p s [IH1 IH2]].
  - split.
    + intros b H. simpl in H. now injection H as <-.
    + intros c b H. simpl in H. destruct (fromHexChar c); discriminate.
  - split; [exact (IH2 p)|].
    intros c b H. cbn [hexDecode] in H.
    destruct (fromHexChar c); [|discriminate].
    destruct (fromHexChar p); [|discriminate].
    destruct (hexDecode s) as [b' [msg|]] eqn:E; cbn [fst snd] in H; [discriminate|].
    injection H as <-. cbn [String.length List.length].
    rewrite (IH1 b' eq_refl). lia.
Qed.

Lemma EncodeToString_length (bs : list byte) :
  String.length (EncodeToString bs) = (2 * List.length bs)%nat.
Proof.
  induction bs as [|b bs IH]; [reflexivity|].
  cbn [EncodeToString String.length List.length]. rewrite IH. lia.
Qed.

Lemma fromHexChar_isHexDigit (c : ascii) :
  match fromHexChar c with Some _ => true | None => false end = isHexDigit c.
Proof. destruct c as [[] [] [] [] [] [] [] []]; exact eq_refl. Qed.

Lemma hexDecode_allHex (s : string) :
  (snd (hexDecode s) = None <->
   allHex s = true /\ Nat.even (String.length s) = true)
  /\ (forall c,
        snd (hexDecode (String c s)) = None <->
        allHex (String c s) = true /\ Nat.even (String.length (String c s)) = true).
Proof.
  induction s as [|p s [IH1 IH2]].
  - split.
    + simpl. split; auto.
    + intros c. cbn [hexDecode allHex String.length Nat.even].
      destruct (fromHexChar c); cbn [snd]; split; try discriminate;
        intros [_ C]; discriminate C.
  - split; [exact (IH2 p)|].
    intros c. cbn [hexDecode allHex String.length].
    rewrite <- (fromHexChar_isHexDigit c), <- (fromHexChar_isHexDigit p).
    change (Nat.even (S (S (String.length s)))) with (Nat.even (String.length s)).
    destruct (fromHexChar c); [|cbn [snd andb]; split; [discriminate | intros [C _]; discriminate C]].
    destruct (fromHexChar p); [|cbn [snd andb]; split; [discriminate | intros [C _]; discriminate C]].
    cbn [snd andb]. exact IH1.
Qed.

(** X7. [MakeVersion] accepts exactly a non-negative id with 64 hexadecimal
    digits, of either case: it returns a nil error if and only if the id
    is not negative and the checksum is a string of 64 characters that
    are all hexadecimal digits.  A version it returns with a nil error
    has that id, a checksum of 32 bytes, and is rebuilt from its own
    [ChecksumString]; every failure returns the bad sentinel, with an
    error wrapping [ErrBadVersionID] for a negative id (whatever the
    checksum) and [ErrBadVersionChecksum] otherwise. *)
Theorem X7_MakeVersion_validates (id : Z) (cs : string) :
  (snd (MakeVersion id cs) = None <->
   0 <= id /\ String.length cs = 64%nat /\ allHex cs = true)
  /\ (forall v, MakeVersion id cs = (v, None) ->
        0 <= id /\ ID v = id /\ List.length (Checksum v) = 32%nat /\
        String.length cs = 64%nat /\
        MakeVersion id (ChecksumString v) = (v, None))
  /\ (forall v e, MakeVersion id cs = (v, Some e) ->
        v = badVersion /\
        (id < 0 -> Is e ErrBadVersionID = true /\ Is e ErrBadVersionChecksum = false) /\
        (0 <= id -> Is e ErrBadVersionChecksum = true /\ Is e ErrBadVersionID = false))
  /\ (0 <= id -> String.length cs <> 64%nat ->
        exists e, MakeVersion id cs = (badVersion, Some e) /\
                  Is e ErrBadVersionChecksum = true).
Proof.
  assert (Hok : forall v, MakeVersion id cs = (v, None) ->
     0 <= id /\ ID v = id /\ List.length (Checksum v) = 32%nat /\
     String.length cs = 64%nat /\
     MakeVersion id (ChecksumString v) = (v, None)).
  { intros v H. unfold MakeVersion in H.
    destruct (Z.ltb_spec id 0); [discriminate|].
    destruct (hexDecode cs) as [b [msg|]] eqn:E; [discriminate|].
    destruct (Nat.eqb_spec (List.length b) 32) as [Hl|Hl]; cbn [negb] in H;
      [|discriminate].
    injection H as <-. cbn [ID Checksum].
    repeat split; try assumption.
    - apply (proj1 (hexDecode_length cs)) in E. lia.
    - apply (MakeVersion_ChecksumString (mkVersion id b)); assumption. }
  split.
  { split.
    - intros H. destruct (MakeVersion id cs) as [v [e|]] eqn:E; [discriminate H|].
      destruct (Hok v eq_refl) as (Hid & _ & _ & Hlen & _).
      split; [assumption|]. split; [assumption|].
      unfold MakeVersion in E. destruct (id <? 0); [discriminate|].
      destruct (hexDecode cs) as [b [msg|]] eqn:Eh; [discriminate|].
      apply (proj1 (hexDecode_allHex cs)). now rewrite Eh.
    - intros (Hid & Hlen & Hhex). unfold MakeVersion.
      destruct (Z.ltb_spec id 0); [lia|].
      assert (Hs : snd (hexDecode cs) = None).
      { apply (proj1 (hexDecode_allHex cs)). split; [assumption|]. now rewrite Hlen. }
      destruct (hexDecode cs) as [b [msg|]] eqn:Eh; [discriminate Hs|].
      apply (proj1 (hexDecode_length cs)) in Eh.
      assert (Hb : List.length b = 32%nat) by lia.
      rewrite Hb. reflexivity. }
  split; [exact Hok|]. split.
  - intros v e H. unfold MakeVersion in H.
    destruct (Z.ltb_spec id 0).
    + injection H as <- <-. repeat split; try reflexivity; lia.
    + destruct (hexDecode cs) as [b [msg|]] eqn:E.
      * injection H as <- <-. repeat split; try reflexivity; lia.
      * destruct (negb (Nat.eqb (List.length b) 32)); [|discriminate].
        injection H as <- <-. repeat split; try reflexivity; lia.
  - intros Hid Hlen.
    destruct (MakeVersion id cs) as [v [e|]] eqn:E.
    + unfold MakeVersion in E.
      destruct (Z.ltb_spec id 0); [lia|].
      destruct (hexDecode cs) as [b [msg|]] eqn:Eh.
      * injection E as <- <-. eexists. split; reflexivity.
      * destruct (negb (Nat.eqb (List.length b) 32)); [|discriminate].
        injection E as <- <-. eexists. split; reflexivity.
    + destruct (Hok v eq_refl) as (_ & _ & _ & Hl & _). contradiction.
Qed.

Section RegistryExtras.

Variable W : Type.
Implicit Types s : Steps W.

Lemma Append_Len s name up down s' :
  Steps_Append s name up down = Some (None, s') -> Steps_Len s' = Steps_Len s + 1.
Proof.
  intros H. apply Steps_Append_ok in H as (_ & prev & _ & _ & E).
  unfold Steps_Len. rewrite E, length_app. cbn [List.length]. lia.
Qed.

Lemma Append_steps_at_old s name up down s' i :
  Steps_Append s name up down = Some (None, s') ->
  0 <= i < Steps_Len s -> steps_at s' i = steps_at s i.
Proof.
  intros H Hi. pose proof (nth_steps_at s Hi) as Hn.
  apply Steps_Append_ok in H as (_ & prev & _ & _ & E).
  assert (Hn' : nth_error (steps s') (Z.to_nat i) = Some (steps_at s i)).
  { rewrite E, nth_error_app1; [assumption|]. unfold Steps_Len in Hi. lia. }
  apply steps_at_nth in Hn'. now rewrite Z2Nat.id in Hn' by lia.
Qed.

Lemma Append_steps_at_new s name up down s' :
  Steps_Append s name up down = Some (None, s') ->
  exists cs, steps_at s' (Steps_Len s)
             = mkStep name up down (mkVersion (Steps_Len s) cs).
Proof.
  intros H. apply Steps_Append_ok in H as (_ & prev & _ & _ & E).
  eexists. unfold Steps_Len. apply steps_at_nth.
  rewrite E, nth_error_app2 by lia. rewrite Nat.sub_diag. reflexivity.
Qed.

Lemma checkID_in s i : 0 <= i < Steps_Len s -> checkID s i = None.
Proof. apply checkID_None. Qed.

Lemma Steps_Version_in s i :
  0 <= i < Steps_Len s -> Steps_Version s i = (step_version (steps_at s i), None).
Proof. intros H. unfold Steps_Version. now rewrite (@checkID_in s i H). Qed.

Lemma Steps_Name_in s i :
  0 <= i < Steps_Len s -> Steps_Name s i = (step_name (steps_at s i), None).
Proof. intros H. unfold Steps_Name. now rewrite (@checkID_in s i H). Qed.

Lemma Steps_Up_in s v :
  check s v = None -> ID v < Steps_Len s - 1 ->
  Steps_Up s v
  = inl (mkStepInfo (step_name (steps_at s (ID v + 1))) (step_version (steps_at s (ID v)))
           (step_version (steps_at s (ID v + 1))),
         step_up (steps_at s (ID v + 1))).
Proof.
  intros Hc Hl. unfold Steps_Up. rewrite Hc. unfold Steps_Len in Hl.
  destruct (Z.eqb_spec (ID v) (Z.of_nat (List.length (steps s)) - 1)); [lia|].
  reflexivity.
Qed.

Lemma Steps_Down_in s v :
  check s v = None -> ID v <> 0 ->
  Steps_Down s v
  = inl (mkStepInfo (step_name (steps_at s (ID v))) (step_version (steps_at s (ID v)))
           (step_version (steps_at s (ID v - 1))),
         step_down (steps_at s (ID v))).
Proof.
  intros Hc Hl. unfold Steps_Down. rewrite Hc.
  destruct (Z.eqb_spec (ID v) 0); [contradiction|]. reflexivity.
Qed.

Lemma Append_check s name up down s' v :
  Steps_Append s name up down = Some (None, s') ->
  check s v = None -> check s' v = None.
Proof.
  intros HA Hc. apply check_None in Hc as [Hr Hv]. apply check_None.
  rewrite (@Append_Len s name up down s' HA). split; [lia|].
  now rewrite (@Append_steps_at_old s name up down s' (ID v) HA Hr).
Qed.

(** X1. A successful [Append] only adds: the registry has one step more,
    every id it had keeps its version and its name, every version that
    passed [Check] still passes, [Down] answers as before and so does [Up]
    below the former last version; the new step sits at the former length
    with the name given and a version carrying that id. *)
Theorem X1_Append_extends s name (up down : option (StepFunc W)) s'
    (HA : Steps_Append s name up down = Some (None, s')) :
  Steps_Len s' = Steps_Len s + 1
  /\ (forall i, 0 <= i < Steps_Len s ->
        Steps_Version s' i = Steps_Version s i /\ Steps_Name s' i = Steps_Name s i)
  /\ (forall v, Steps_Check s v = None -> Steps_Check s' v = None)
  /\ (forall v, Steps_Check s v = None -> Steps_Down s' v = Steps_Down s v)
  /\ (forall v, Steps_Check s v = None -> ID v < Steps_Len s - 1 ->
        Steps_Up s' v = Steps_Up s v)
  /\ Steps_Name s' (Steps_Len s) = (name, None)
  /\ (exists v, Steps_Version s' (Steps_Len s) = (v, None) /\ ID v = Steps_Len s).
Proof.
  pose proof (@Append_Len s name up down s' HA) as HL.
  assert (Hpos : 0 <= Steps_Len s) by (unfold Steps_Len; lia).
  split; [assumption|]. split.
  { intros i Hi.
    rewrite (@Steps_Version_in s i Hi), (@Steps_Name_in s i Hi).
    rewrite (@Steps_Version_in s' i), (@Steps_Name_in s' i) by lia.
    now rewrite (@Append_steps_at_old s name up down s' i HA Hi). }
  split. { intros v Hv. exact (@Append_check s name up down s' v HA Hv). }
  split.
  { intros v Hv. unfold Steps_Check in Hv.
    pose proof (@Append_check s name up down s' v HA Hv) as Hv'.
    pose proof Hv as Hc. apply check_None in Hc as [Hr _].
    unfold Steps_Down. rewrite Hv, Hv'.
    destruct (Z.eqb_spec (ID v) 0); [reflexivity|].
    rewrite (@Append_steps_at_old s name up down s' (ID v) HA Hr).
    rewrite (@Append_steps_at_old s name up down s' (ID v - 1) HA) by lia.
    reflexivity. }
  split.
  { intros v Hv Hl. unfold Steps_Check in Hv.
    pose proof (@Append_check s name up down s' v HA Hv) as Hv'.
    pose proof Hv as Hc. apply check_None in Hc as [Hr _].
    rewrite (@Steps_Up_in s v Hv Hl), (@Steps_Up_in s' v Hv') by lia.
    rewrite (@Append_steps_at_old s name up down s' (ID v) HA Hr).
    rewrite (@Append_steps_at_old s name up down s' (ID v + 1) HA) by lia.
    reflexivity. }
  destruct (@Append_steps_at_new s name up down s' HA) as [cs Hnew].
  split.
  - rewrite (@Steps_Name_in s' (Steps_Len s)) by lia. now rewrite Hnew.
  - eexists. rewrite (@Steps_Version_in s' (Steps_Len s)) by lia.
    rewrite Hnew. split; reflexivity.
Qed.

(** X3. [Check] accepts exactly the versions [Version] hands out; on a
    registry built by [NewSteps] and [Append], every id below the length
    has such a version, and that version carries the id. *)
Theorem X3_Check_iff_Version s :
  (forall v, Steps_Check s v = None <-> Steps_Version s (ID v) = (v, None))
  /\ (Built s ->
      forall i, 0 <= i < Steps_Len s ->
        exists v, Steps_Version s i = (v, None) /\ ID v = i /\ Steps_Check s v = None).
Proof.
  split.
  - intros v. unfold Steps_Check. rewrite check_None. split.
    + intros [Hr Hv]. rewrite (@Steps_Version_in s (ID v) Hr). now rewrite Hv.
    + intros H. unfold Steps_Version in H.
      destruct (checkID s (ID v)) eqn:E; [discriminate|].
      apply checkID_None in E. split; [assumption|]. now injection H.
  - intros HB i Hi. exists (step_version (steps_at s i)).
    split; [apply (@Steps_Version_in s i Hi)|]. split.
    + pose proof (nth_steps_at s Hi) as Hn.
      apply (Built_indexed HB) in Hn. rewrite Hn. lia.
    + apply (check_registry_version HB Hi).
Qed.

(** X4. The two failures of [Up] and [Down] are told apart exactly: the
    error wraps [ErrBadVersion] precisely when the version fails [Check],
    and [ErrEndOfSteps] precisely when the version is valid and is the
    last one (for [Up]) or version 0 (for [Down]); no error wraps both. *)
Theorem X4_Up_Down_errors s (v : Version) :
  ((exists e, Steps_Up s v = inr e /\ Is e ErrBadVersion = true)
     <-> Steps_Check s v <> None)
  /\ ((exists e, Steps_Up s v = inr e /\ Is e ErrEndOfSteps = true)
        <-> (Steps_Check s v = None /\ ID v = Steps_Len s - 1))
  /\ ((exists e, Steps_Down s v = inr e /\ Is e ErrBadVersion = true)
        <-> Steps_Check s v <> None)
  /\ ((exists e, Steps_Down s v = inr e /\ Is e ErrEndOfSteps = true)
        <-> (Steps_Check s v = None /\ ID v = 0))
  /\ (forall e, Steps_Up s v = inr e \/ Steps_Down s v = inr e ->
        Is e ErrBadVersion = negb (Is e ErrEndOfSteps)).
Proof.
  assert (Hbad : forall post,
            Is (Errorf_w "" (ofError ErrBadVersion) post) ErrBadVersion = true /\
            Is (Errorf_w "" (ofError ErrBadVersion) post) ErrEndOfSteps = false)
    by (intros; split; reflexivity).
  assert (Hend : forall post,
            Is (Errorf_w "" (ofError ErrEndOfSteps) post) ErrEndOfSteps = true /\
            Is (Errorf_w "" (ofError ErrEndOfSteps) post) ErrBadVersion = false)
    by (intros; split; reflexivity).
  unfold Steps_Check, Steps_Up, Steps_Down, Steps_Len.
  destruct (check s v) as [ce|] eqn:Ec.
  - split; [|split; [|split; [|split]]].
    + split; [intros _; discriminate | intros _; eexists; split; [reflexivity | apply Hbad]].
    + split; [|intros [H _]; discriminate].
      intros (e & H & He). injection H as <-.
      rewrite (proj2 (Hbad _)) in He. discriminate.
    + split; [intros _; discriminate | intros _; eexists; split; [reflexivity | apply Hbad]].
    + split; [|intros [H _]; discriminate].
      intros (e & H & He). injection H as <-.
      rewrite (proj2 (Hbad _)) in He. discriminate.
    + intros e [H|H]; injection H as <-; reflexivity.
  - split; [|split; [|split; [|split]]].
    + split; [|intros H; now contradiction H].
      intros (e & H & He).
      destruct (ID v =? Z.of_nat (List.length (steps s)) - 1); [|discriminate].
      injection H as <-. rewrite (proj2 (Hend _)) in He. discriminate.
    + destruct (Z.eqb_spec (ID v) (Z.of_nat (List.length (steps s)) - 1)) as [Hu|Hu].
      * split; [intros _; now split|].
        intros _. eexists. split; [reflexivity | apply Hend].
      * split; [intros (e & H & _); discriminate | intros [_ H]; contradiction].
    + split; [|intros H; now contradiction H].
      intros (e & H & He).
      destruct (ID v =? 0); [|discriminate].
      injection H as <-. rewrite (proj2 (Hend _)) in He. discriminate.
    + destruct (Z.eqb_spec (ID v) 0) as [Hd|Hd].
      * split; [intros _; now split|].
        intros _. eexists. split; [reflexivity | apply Hend].
      * split; [intros (e & H & _); discriminate | intros [_ H]; contradiction].
    + intros e [H|H].
      * destruct (ID v =? Z.of_nat (List.length (steps s)) - 1); [|discriminate].
        injection H as <-. reflexivity.
      * destruct (ID v =? 0); [|discriminate].
        injection H as <-. reflexivity.
Qed.

(** X5. [Append] with a name that is not empty panics (an index out of
    range) exactly on a [Steps] without any step, the zero value of the
    struct; on every registry built by [NewSteps] and [Append] it returns
    nil and gives a built registry. *)
Theorem X5_Append_needs_anchor s name (up down : option (StepFunc W))
    (Hname : name <> "") :
  (Steps_Append s name up down = None <-> steps s = [])
  /\ (Built s ->
      exists s', Steps_Append s name up down = Some (None, s') /\ Built s').
Proof.
  split.
  - split.
    + intros H. destruct (steps s) eqn:E; [reflexivity|].
      destruct (@Steps_Append_total W s name up down Hname) as [s' Hs'].
      * rewrite E. discriminate.
      * rewrite Hs' in H. discriminate.
    + intros H. unfold Steps_Append.
      destruct (String.eqb_spec name ""); [contradiction|].
      rewrite H. reflexivity.
  - intros HB.
    destruct (@Steps_Append_total W s name up down Hname (Built_nonempty HB)) as [s' Hs'].
    exists s'. split; [assumption|]. eapply Built_Append; eassumption.
Qed.

(** X6. The versions of a built registry survive the way the database
    stores them: the checksum has 32 bytes, its hexadecimal form has 64
    characters, and [MakeVersion] applied to the id and that form gives
    the version back with a nil error. *)
Theorem X6_registry_versions_persist s (HB : Built s) (i : Z)
    (Hi : 0 <= i < Steps_Len s) :
  exists v,
    Steps_Version s i = (v, None) /\
    List.length (Checksum v) = 32%nat /\
    String.length (ChecksumString v) = 64%nat /\
    MakeVersion (ID v) (ChecksumString v) = (v, None).
Proof.
  exists (step_version (steps_at s i)).
  split; [apply (@Steps_Version_in s i Hi)|].
  assert (Hlen : List.length (Checksum (step_version (steps_at s i))) = 32%nat).
  { pose proof (nth_steps_at s Hi) as Hn.
    destruct (Z.to_nat i) as [|k] eqn:Ek.
    - destruct (Built_anchored HB) as (st & Hst & Hcs).
      rewrite Hst in Hn. injection Hn as <-. rewrite Hcs. apply Sum256_length.
    - assert (Hp : exists prev, nth_error (steps s) k = Some prev).
      { destruct (nth_error (steps s) k) eqn:E; [eauto|].
        apply nth_error_None in E.
        assert (nth_error (steps s) (S k) <> None) by congruence.
        apply nth_error_Some in H. lia. }
      destruct Hp as [prev Hp].
      rewrite (Built_chained HB _ Hp Hn). apply Sum256_length. }
  split; [assumption|]. split.
  - unfold ChecksumString. rewrite EncodeToString_length, Hlen. reflexivity.
  - apply MakeVersion_ChecksumString; [|assumption].
    pose proof (nth_steps_at s Hi) as Hn.
    apply (Built_indexed HB) in Hn. rewrite Hn. lia.
Qed.

Lemma replay_nth s l s' :
  replay s l = Some s' ->
  (forall i st, nth_error (steps s) i = Some st -> nth_error (steps s') i = Some st)
  /\ (forall k n u d, nth_error l k = Some (n, u, d) ->
        exists v, nth_error (steps s') (List.length (steps s) + k)
                  = Some (mkStep n u d v)).
Proof.
  revert s. induction l as [|[[n u] d] l IH]; simpl; intros s H.
  - injection H as <-. split; [auto|]. intros k ? ? ? Hk. now destruct k.
  - destruct (Steps_Append s n u d) as [[[e|] s1]|] eqn:E; try discriminate.
    destruct (IH _ H) as [IHa IHb].
    apply Steps_Append_ok in E as (_ & prev & _ & _ & E).
    split.
    + intros i st Hi. apply IHa. rewrite E, nth_error_app1; [assumption|].
      apply nth_error_Some. congruence.
    + intros k n0 u0 d0 Hk. destruct k as [|k]; simpl in Hk.
      * injection Hk as <- <- <-. eexists. apply IHa.
        rewrite E, Nat.add_0_r, nth_error_app2 by lia.
        rewrite Nat.sub_diag. reflexivity.
      * destruct (IHb _ _ _ _ Hk) as [v Hv]. exists v.
        rewrite E, length_app in Hv. cbn [List.length] in Hv.
        now replace (List.length (steps s) + S k)%nat
          with (List.length (steps s) + 1 + k)%nat by lia.
Qed.

(** X2. What [Append] registers is what [Up] and [Down] hand out: in a
    registry made by [NewSteps] and a list of [Append] calls, the call
    number [k] (from 0) with name [n] and operations [u] and [d] is the
    step between versions [k] and [k + 1]; [Up] of version [k] returns
    the name [n], from [k] to [k + 1], with [u], and [Down] of version
    [k + 1] returns the same name, from [k + 1] to [k], with [d]. *)
Theorem X2_Up_Down_of_Append (root : string)
    (l : list (string * option (StepFunc W) * option (StepFunc W))) s
    (Hreplay : replay (NewSteps W root) l = Some s) :
  forall k n u d, nth_error l k = Some (n, u, d) ->
    exists vk vk1,
      Steps_Version s (Z.of_nat k) = (vk, None) /\
      Steps_Version s (Z.of_nat k + 1) = (vk1, None) /\
      Steps_Up s vk = inl (mkStepInfo n vk vk1, u) /\
      Steps_Down s vk1 = inl (mkStepInfo n vk1 vk, d).
Proof.
  intros k n u d Hk.
  assert (HB : Built s) by (eapply replay_Built; [apply Built_New | eassumption]).
  destruct (@replay_nth (NewSteps W root) l s Hreplay) as [_ Hb].
  destruct (Hb _ _ _ _ Hk) as [v Hv]. cbn [NewSteps steps List.length] in Hv.
  assert (Hlen : Z.of_nat k + 1 < Steps_Len s).
  { unfold Steps_Len. assert (nth_error (steps s) (1 + k) <> None) by congruence.
    apply nth_error_Some in H. lia. }
  assert (H1 : 0 <= Z.of_nat k + 1 < Steps_Len s) by lia.
  assert (H0 : 0 <= Z.of_nat k < Steps_Len s) by lia.
  assert (Hat : steps_at s (Z.of_nat k + 1) = mkStep n u d v).
  { replace (Z.of_nat k + 1) with (Z.of_nat (1 + k)) by lia.
    now apply steps_at_nth. }
  pose proof (nth_steps_at s H0) as Hn0.
  pose proof (Built_indexed HB _ Hn0) as Hid0. rewrite Z2Nat.id in Hid0 by lia.
  pose proof (nth_steps_at s H1) as Hn1.
  pose proof (Built_indexed HB _ Hn1) as Hid1. rewrite Z2Nat.id in Hid1 by lia.
  exists (step_version (steps_at s (Z.of_nat k))), (step_version (steps_at s (Z.of_nat k + 1))).
  split; [apply (@Steps_Version_in s _ H0)|].
  split; [apply (@Steps_Version_in s _ H1)|].
  split.
  - rewrite Steps_Up_in; [| apply (check_registry_version HB H0) | lia].
    rewrite Hid0, Hat. reflexivity.
  - rewrite Steps_Down_in; [| apply (check_registry_version HB H1) | lia].
    rewrite Hid1. replace (Z.of_nat k + 1 - 1) with (Z.of_nat k) by lia.
    rewrite Hat. reflexivity.
Qed.

End RegistryExtras.

(* ================================================================== *)
(** ** More on the migrator *)

Section MigratorExtras.

Variable W : Type.
Implicit Types (m : Migrator W) (w : W) (s : Steps W).

Lemma oneUp_run m dryRun w :
  oneUp m dryRun w
  = match Stepper_Up (m_steps m) (cachedVersion m) with
    | inr err => (Some err, m, w)
    | inl (info, f) =>
        match runStep (m_db m) f info dryRun w with
        | (Some e, w1) => (Some e, m, w1)
        | (None, w1) =>
            (None, if negb dryRun then set_cachedVersion m (To info) else m, w1)
        end
    end.
Proof.
  unfold oneUp, runStep.
  destruct (Stepper_Up (m_steps m) (cachedVersion m)) as [[info [f|]]|err];
    [destruct (f (m_db m) info dryRun w) as [[e|] w1]
    |destruct (Database_DefaultStepFunc (m_db m) info dryRun w) as [[e|] w1] |];
    reflexivity.
Qed.

Lemma oneDown_run m dryRun w :
  oneDown m dryRun w
  = match Stepper_Down (m_steps m) (cachedVersion m) with
    | inr err => (Some err, m, w)
    | inl (info, f) =>
        match runStep (m_db m) f info dryRun w with
        | (Some e, w1) => (Some e, m, w1)
        | (None, w1) =>
            (None, if negb dryRun then set_cachedVersion m (To info) else m, w1)
        end
    end.
Proof.
  unfold oneDown, runStep.
  destruct (Stepper_Down (m_steps m) (cachedVersion m)) as [[info [f|]]|err];
    [destruct (f (m_db m) info dryRun w) as [[e|] w1]
    |destruct (Database_DefaultStepFunc (m_db m) info dryRun w) as [[e|] w1] |];
    reflexivity.
Qed.

Lemma oneUp_handles m dryRun w :
  m_db (snd (fst (oneUp m dryRun w))) = m_db m /\
  m_steps (snd (fst (oneUp m dryRun w))) = m_steps m.
Proof.
  rewrite oneUp_run.
  destruct (Stepper_Up (m_steps m) (cachedVersion m)) as [[info f]|err]; [|auto].
  destruct (runStep (m_db m) f info dryRun w) as [[e|] w1]; [auto|].
  destruct dryRun; auto.
Qed.

Lemma oneDown_handles m dryRun w :
  m_db (snd (fst (oneDown m dryRun w))) = m_db m /\
  m_steps (snd (fst (oneDown m dryRun w))) = m_steps m.
Proof.
  rewrite oneDown_run.
  destruct (Stepper_Down (m_steps m) (cachedVersion m)) as [[info f]|err]; [|auto].
  destruct (runStep (m_db m) f info dryRun w) as [[e|] w1]; [auto|].
  destruct dryRun; auto.
Qed.

(** A one-step migration that returns nil, over a registry. *)
Lemma oneUp_ok s m w m1 w1 :
  m_steps m = Steps_Stepper s ->
  oneUp m false w = (None, m1, w1) ->
  check s (cachedVersion m) = None /\
  ID (cachedVersion m) < Steps_Len s - 1 /\
  m1 = set_cachedVersion m (step_version (steps_at s (ID (cachedVersion m) + 1))).
Proof.
  intros Hs. rewrite oneUp_run, Hs. cbn [Steps_Stepper Stepper_Up].
  unfold Steps_Up, Steps_Len.
  destruct (check s (cachedVersion m)) eqn:Ec; [discriminate|].
  pose proof Ec as Hc. apply check_None in Hc as [Hr _]. unfold Steps_Len in Hr.
  destruct (Z.eqb_spec (ID (cachedVersion m)) (Z.of_nat (List.length (steps s)) - 1));
    [discriminate|].
  destruct (runStep _ _ _ _ _) as [[e|] w2]; [discriminate|].
  intros H. injection H as <- <-. cbn [negb To]. repeat split. lia.
Qed.

Lemma oneDown_ok s m w m1 w1 :
  m_steps m = Steps_Stepper s ->
  oneDown m false w = (None, m1, w1) ->
  check s (cachedVersion m) = None /\
  0 < ID (cachedVersion m) /\
  m1 = set_cachedVersion m (step_version (steps_at s (ID (cachedVersion m) - 1))).
Proof.
  intros Hs. rewrite oneDown_run, Hs. cbn [Steps_Stepper Stepper_Down].
  unfold Steps_Down.
  destruct (check s (cachedVersion m)) eqn:Ec; [discriminate|].
  pose proof Ec as Hc. apply check_None in Hc as [Hr _].
  destruct (Z.eqb_spec (ID (cachedVersion m)) 0); [discriminate|].
  destruct (runStep _ _ _ _ _) as [[e|] w2]; [discriminate|].
  intros H. injection H as <- <-. cbn [negb To]. repeat split. lia.
Qed.

(** With the bad sentinel in the cache the four one-step methods fail
    before they reach the database. *)
Lemma one_step_bad_cache s m w :
  m_steps m = Steps_Stepper s -> cachedVersion m = badVersion ->
  forall op,
    In op [@Migrator_OneUp W; @Migrator_OneDown W;
           @Migrator_OneUpDryRun W; @Migrator_OneDownDryRun W] ->
    exists e, op m w = (Some e, m, w) /\ Is e ErrBadVersion = true.
Proof.
  intros Hs Hc op Hop.
  assert (Hbad : check s badVersion
                 = Some (Errorf_w "" (ofError ErrBadVersionID) (": id " ++ itoa (-1)))).
  { unfold check. cbn [ID badVersion]. rewrite checkID_Some; [reflexivity|].
    unfold Steps_Len. lia. }
  destruct Hop as [<- | [<- | [<- | [<- | []]]]];
    unfold Migrator_OneUp, Migrator_OneUpCtx, Migrator_OneDown, Migrator_OneDownCtx,
      Migrator_OneUpDryRun, Migrator_OneUpDryRunCtx,
      Migrator_OneDownDryRun, Migrator_OneDownDryRunCtx, oneUp, oneDown;
    rewrite Hs, Hc; cbn [Steps_Stepper Stepper_Up Stepper_Down];
    unfold Steps_Up, Steps_Down; rewrite Hbad;
    eexists; split; reflexivity.
Qed.

(** X8. [Version] always leaves in the cache the version it reports and
    leaves the database as [Database.Version] left it.  When it returns
    nil, the version is the database's and the stepper accepts it.  When
    it fails, by the database or by the check, it reports the bad
    sentinel and the cache is invalidated whatever it held before: over
    a registry, the next one-step migration (dry run or not) then fails
    with an error wrapping [ErrBadVersion] without reaching the
    database. *)
Theorem X8_Version_cache m w (v : Version) (err : option error) m' w'
    (H : Migrator_Version m w = (v, err, m', w')) :
  m_db m' = m_db m /\ m_steps m' = m_steps m /\ cachedVersion m' = v
  /\ w' = snd (Database_Version (m_db m) w)
  /\ (err = None ->
        fst (Database_Version (m_db m) w) = (v, None) /\
        Stepper_Check (m_steps m) v = None)
  /\ (err <> None -> v = badVersion)
  /\ (err <> None ->
      forall s, m_steps m = Steps_Stepper s ->
      forall op,
        In op [@Migrator_OneUp W; @Migrator_OneDown W;
               @Migrator_OneUpDryRun W; @Migrator_OneDownDryRun W] ->
        exists e, op m' w' = (Some e, m', w') /\ Is e ErrBadVersion = true).
Proof.
  unfold Migrator_Version, Migrator_VersionCtx, versionCtx in H.
  cbn [set_cachedVersion m_db m_steps cachedVersion] in H.
  destruct (Database_Version (m_db m) w) as [[v1 [e|]] w1] eqn:Ev.
  - injection H as <- <- <- <-. cbn [m_db m_steps cachedVersion fst snd].
    repeat split; try discriminate.
    intros _ s Hs op Hop. now apply (@one_step_bad_cache s).
  - destruct (Stepper_Check (m_steps m) v1) eqn:Ec.
    + injection H as <- <- <- <-. cbn [m_db m_steps cachedVersion fst snd].
      repeat split; try discriminate.
      intros _ s Hs op Hop. now apply (@one_step_bad_cache s).
    + injection H as <- <- <- <-. cbn [m_db m_steps cachedVersion fst snd].
      repeat split; try assumption; intros C; now contradiction C.
Qed.

(** X9. [Init] and [InitDryRun] ([initCtx]) first read the version.  If the
    database answers with a version the stepper accepts, they fail with
    an error wrapping [ErrAlreadyInitialized], [InitVersion] is not
    called and the cache holds that version.  If they return nil, the
    version read had failed or been rejected, [InitVersion] was called
    with the stepper's version 0 and returned nil, and the cache holds
    version 0 after [Init] and the bad sentinel after [InitDryRun].  Every
    other failure wraps [ErrNotInitialized] and leaves the bad sentinel
    in the cache. *)
Theorem X9_Init m (dryRun : bool) w (v : Version) (e : option error) w1
    (Hread : Database_Version (m_db m) w = (v, e, w1)) :
  (e = None -> Stepper_Check (m_steps m) v = None ->
     exists err,
       initCtx m dryRun w = (Some err, set_cachedVersion m v, w1) /\
       Is err ErrAlreadyInitialized = true)
  /\ (forall m' w', initCtx m dryRun w = (None, m', w') ->
        (e <> None \/ Stepper_Check (m_steps m) v <> None) /\
        exists v0,
          Stepper_Version (m_steps m) 0 = (v0, None) /\
          Database_InitVersion (m_db m) v0 dryRun w1 = (None, w') /\
          m' = set_cachedVersion m (if dryRun then badVersion else v0))
  /\ (forall err m' w', initCtx m dryRun w = (Some err, m', w') ->
        (e <> None \/ Stepper_Check (m_steps m) v <> None) ->
        Is err ErrNotInitialized = true /\ cachedVersion m' = badVersion).
Proof.
  unfold initCtx, versionCtx, set_cachedVersion.
  cbn [m_db m_steps cachedVersion]. rewrite Hread.
  assert (Hnot : forall cause,
            Is (Errorf_ww "" (ofError ErrNotInitialized) ": " cause "") ErrNotInitialized
            = true) by reflexivity.
  destruct e as [e|]; [|destruct (Stepper_Check (m_steps m) v) as [ec|] eqn:Ec];
    cbn [m_db m_steps cachedVersion].
  3: { split; [|split].
       - intros _ _. eexists. split; reflexivity.
       - intros ? ? C; discriminate.
       - intros err m' w' _ [C|C]; now contradiction C. }
  all: (split; [intros; discriminate|]);
    destruct (Stepper_Version (m_steps m) 0) as [v0 [e0|]] eqn:E0;
    [|destruct (Database_InitVersion (m_db m) v0 dryRun w1) as [[ei|] w2] eqn:Ei];
    (split;
     [ intros m' w' C;
       first
         [ discriminate C
         | injection C as <- <-;
           (split; [first [left; discriminate | right; discriminate]|]);
           exists v0; (split; [reflexivity|]); (split; [exact Ei|]);
           destruct dryRun; reflexivity ]
     | intros err m' w' C _;
       first
         [ discriminate C
         | injection C as <- <- <-; (split; [apply Hnot | reflexivity]) ] ]).
Qed.

(** X10. Over a built registry, a [OneUp] that returns nil started from a
    valid cached version and leaves the registry's next version in the
    cache, and a [OneDown] that returns nil leaves the previous one; a
    [OneDown] that returns nil after such a [OneUp] (or a [OneUp] after
    such a [OneDown]) gives the migrator back as it was. *)
Theorem X10_OneUp_OneDown_cache s (HB : Built s) m w
    (Hs : m_steps m = Steps_Stepper s) :
  (forall m1 w1, Migrator_OneUp m w = (None, m1, w1) ->
     Steps_Check s (cachedVersion m) = None /\
     Steps_Version s (ID (cachedVersion m) + 1) = (cachedVersion m1, None) /\
     forall m2 w2, Migrator_OneDown m1 w1 = (None, m2, w2) -> m2 = m)
  /\ (forall m1 w1, Migrator_OneDown m w = (None, m1, w1) ->
        Steps_Check s (cachedVersion m) = None /\
        Steps_Version s (ID (cachedVersion m) - 1) = (cachedVersion m1, None) /\
        forall m2 w2, Migrator_OneUp m1 w1 = (None, m2, w2) -> m2 = m).
Proof.
  assert (Hwrap : forall prefix (r : option error * Migrator W * W) m1 w1,
            wrapOp prefix r = (None, m1, w1) -> r = (None, m1, w1)).
  { intros prefix [[[e|] m0] w0] m1 w1; simpl; intros C; [discriminate | exact C]. }
  unfold Migrator_OneUp, Migrator_OneUpCtx, Migrator_OneDown, Migrator_OneDownCtx.
  split; intros m1 w1 H1; apply Hwrap in H1.
  - destruct (oneUp_ok _ _ Hs H1) as (Hc & Hl & ->).
    pose proof Hc as Hc'. apply check_None in Hc' as [Hr Hv].
    assert (Hnext : 0 <= ID (cachedVersion m) + 1 < Steps_Len s) by lia.
    pose proof (nth_steps_at s Hnext) as Hn.
    pose proof (Built_indexed HB _ Hn) as Hid. rewrite Z2Nat.id in Hid by lia.
    split; [exact Hc|]. split.
    + unfold Steps_Version. rewrite (proj2 (checkID_None s _) Hnext). reflexivity.
    + intros m2 w2 H2. apply Hwrap in H2.
      apply (@oneDown_ok s) in H2; [|exact Hs].
      destruct H2 as (_ & _ & ->). mig_simpl. rewrite Hid.
      replace (ID (cachedVersion m) + 1 - 1) with (ID (cachedVersion m)) by lia.
      rewrite Hv. now destruct m.
  - destruct (oneDown_ok _ _ Hs H1) as (Hc & Hl & ->).
    pose proof Hc as Hc'. apply check_None in Hc' as [Hr Hv].
    assert (Hprev : 0 <= ID (cachedVersion m) - 1 < Steps_Len s) by lia.
    pose proof (nth_steps_at s Hprev) as Hn.
    pose proof (Built_indexed HB _ Hn) as Hid. rewrite Z2Nat.id in Hid by lia.
    split; [exact Hc|]. split.
    + unfold Steps_Version. rewrite (proj2 (checkID_None s _) Hprev). reflexivity.
    + intros m2 w2 H2. apply Hwrap in H2.
      apply (@oneUp_ok s) in H2; [|exact Hs].
      destruct H2 as (_ & _ & ->). mig_simpl. rewrite Hid.
      replace (ID (cachedVersion m) - 1 + 1) with (ID (cachedVersion m)) by lia.
      rewrite Hv. now destruct m.
Qed.

Lemma allLoop_more (one : Migrator W -> bool -> W -> option error * Migrator W * W)
    (prefix : string) (fuel : nat) :
  forall m w r fuel',
    allLoop one prefix fuel m w = Some r -> (fuel <= fuel')%nat ->
    allLoop one prefix fuel' m w = Some r.
Proof.
  induction fuel as [|fuel IH]; intros m w r fuel' H Hle; [discriminate|].
  destruct fuel' as [|fuel']; [lia|]. cbn [allLoop] in H |- *.
  destruct (one m false w) as [[[e|] m1] w1]; [exact H|].
  apply IH; [exact H | lia].
Qed.

(** X11. With a built registry of [N] versions for stepper, which stays as
    it is while the loop runs (the migrator holds its registry fixed
    during a call: no step function appends to it), [AllUp] and [AllDown]
    return within [N] iterations of their loop, whatever the cached
    version and the database are and whatever else the step functions do
    (each call of a step function returning); more iterations allowed
    change nothing. *)
Theorem X11_All_loops_terminate s (HB : Built s) m w
    (Hs : m_steps m = Steps_Stepper s)
    (fuel : nat) (Hfuel : Steps_Len s <= Z.of_nat fuel) :
  (exists r, forall fuel', (fuel <= fuel')%nat -> Migrator_AllUp fuel' m w = Some r)
  /\ (exists r, forall fuel', (fuel <= fuel')%nat -> Migrator_AllDown fuel' m w = Some r).
Proof.
  pose proof (Built_Len HB) as HL.
  destruct fuel as [|n]; [lia|].
  split.
  - assert (Hr : exists r, Migrator_AllUp (S n) m w = Some r).
    { destruct (check s (cachedVersion m)) eqn:Ec.
      - unfold Migrator_AllUp, Migrator_AllUpCtx. cbn [allLoop].
        rewrite oneUp_run, Hs. cbn [Steps_Stepper Stepper_Up]. unfold Steps_Up.
        rewrite Ec. destruct (Is _ ErrEndOfSteps); eauto.
      - apply check_None in Ec as [Hr _].
        apply (AllUp_returns HB); [exact Hs | lia]. }
    destruct Hr as [r Hr]. exists r. intros fuel' Hle.
    unfold Migrator_AllUp, Migrator_AllUpCtx in *.
    eapply allLoop_more; eassumption.
  - assert (Hr : exists r, Migrator_AllDown (S n) m w = Some r).
    { destruct (check s (cachedVersion m)) eqn:Ec.
      - unfold Migrator_AllDown, Migrator_AllDownCtx. cbn [allLoop].
        rewrite oneDown_run, Hs. cbn [Steps_Stepper Stepper_Down]. unfold Steps_Down.
        rewrite Ec. destruct (Is _ ErrEndOfSteps); eauto.
      - apply check_None in Ec as [Hr _].
        apply (AllDown_returns HB); [exact Hs | lia]. }
    destruct Hr as [r Hr]. exists r. intros fuel' Hle.
    unfold Migrator_AllDown, Migrator_AllDownCtx in *.
    eapply allLoop_more; eassumption.
Qed.

(** When the loop returns nil, some one-step migration has failed with an
    error wrapping [ErrEndOfSteps], after steps that all returned nil. *)
Lemma allLoop_nil (one : Migrator W -> bool -> W -> option error * Migrator W * W)
    (prefix : string) (fuel : nat) :
  forall m w m' w',
    allLoop one prefix fuel m w = Some (None, m', w') ->
    exists k mk wk e,
      succeed one k m w = Some (mk, wk) /\
      one mk false wk = (Some e, m', w') /\ Is e ErrEndOfSteps = true.
Proof.
  induction fuel as [|fuel IH]; intros m w m' w' H; [discriminate|].
  cbn [allLoop] in H.
  destruct (one m false w) as [[[e|] m1] w1] eqn:E.
  - destruct (Is e ErrEndOfSteps) eqn:Ee; [|discriminate].
    injection H as <- <-. exists 0%nat, m, w, e. repeat split; assumption.
  - destruct (IH _ _ _ _ H) as (k & mk & wk & e & Hk & Hone & He).
    exists (S k), mk, wk, e. cbn [succeed]. rewrite E. repeat split; assumption.
Qed.

Lemma succeed_handles (one : Migrator W -> bool -> W -> option error * Migrator W * W) :
  (forall m d w, m_db (snd (fst (one m d w))) = m_db m /\
                 m_steps (snd (fst (one m d w))) = m_steps m) ->
  forall k m w mk wk,
    succeed one k m w = Some (mk, wk) ->
    m_db mk = m_db m /\ m_steps mk = m_steps m.
Proof.
  intros Hone. induction k as [|k IH]; intros m w mk wk H; cbn [succeed] in H.
  - injection H as <- <-. auto.
  - pose proof (Hone m false w) as [Hd Hst].
    destruct (one m false w) as [[[e|] m1] w1]; [discriminate|].
    cbn [fst snd] in Hd, Hst. destruct (IH _ _ _ _ H) as [Hd' Hst'].
    split; congruence.
Qed.

(** X12. Over a registry, when [AllUp] returns nil the cached version is
    valid and either it is the last version of the registry, or the
    operation of the next step (the step's function, or the default step
    of the database) has itself returned an error wrapping
    [ErrEndOfSteps], which the loop takes for the end of the registry;
    likewise for [AllDown] and version 0. *)
Theorem X12_All_loops_nil s m w (Hs : m_steps m = Steps_Stepper s)
    (fuel : nat) m' w' :
  (Migrator_AllUp fuel m w = Some (None, m', w') ->
     m_steps m' = Steps_Stepper s /\ m_db m' = m_db m /\
     Steps_Check s (cachedVersion m') = None /\
     (ID (cachedVersion m') = Steps_Len s - 1 \/
      exists info f wk e,
        Steps_Up s (cachedVersion m') = inl (info, f) /\
        runStep (m_db m) f info false wk = (Some e, w') /\
        Is e ErrEndOfSteps = true))
  /\ (Migrator_AllDown fuel m w = Some (None, m', w') ->
        m_steps m' = Steps_Stepper s /\ m_db m' = m_db m /\
        Steps_Check s (cachedVersion m') = None /\
        (ID (cachedVersion m') = 0 \/
         exists info f wk e,
           Steps_Down s (cachedVersion m') = inl (info, f) /\
           runStep (m_db m) f info false wk = (Some e, w') /\
           Is e ErrEndOfSteps = true)).
Proof.
  unfold Migrator_AllUp, Migrator_AllUpCtx, Migrator_AllDown, Migrator_AllDownCtx,
    Steps_Check.
  split; intros H; apply allLoop_nil in H as (k & mk & wk & e & Hk & Hone & He).
  - destruct (succeed_handles (@oneUp W) (@oneUp_handles) _ _ _ Hk) as [Hd Hst].
    pose proof (oneUp_fail _ _ _ Hone) as ->.
    rewrite oneUp_run, Hst, Hs in Hone. cbn [Steps_Stepper Stepper_Up] in Hone.
    split; [congruence|]. split; [assumption|].
    unfold Steps_Up in *. unfold Steps_Len.
    destruct (check s (cachedVersion mk)) eqn:Ec.
    { injection Hone as <- <-. discriminate He. }
    split; [reflexivity|].
    destruct (Z.eqb_spec (ID (cachedVersion mk)) (Z.of_nat (List.length (steps s)) - 1));
      [left; assumption|].
    right. rewrite Hd in Hone.
    destruct (runStep _ _ _ _ _) as [[e1|] w2] eqn:Er; [|discriminate].
    injection Hone as <- <-. do 4 eexists. split; [reflexivity|]. split; eassumption.
  - destruct (succeed_handles (@oneDown W) (@oneDown_handles) _ _ _ Hk) as [Hd Hst].
    pose proof (oneDown_fail _ _ _ Hone) as ->.
    rewrite oneDown_run, Hst, Hs in Hone. cbn [Steps_Stepper Stepper_Down] in Hone.
    split; [congruence|]. split; [assumption|].
    unfold Steps_Down in *.
    destruct (check s (cachedVersion mk)) eqn:Ec.
    { injection Hone as <- <-. discriminate He. }
    split; [reflexivity|].
    destruct (Z.eqb_spec (ID (cachedVersion mk)) 0); [left; assumption|].
    right. rewrite Hd in Hone.
    destruct (runStep _ _ _ _ _) as [[e1|] w2] eqn:Er; [|discriminate].
    injection Hone as <- <-. do 4 eexists. split; [reflexivity|]. split; eassumption.
Qed.

End MigratorExtras.

(* ================================================================== *)
(** ** More on [sqlDB] and on the step functions of sqldb.go *)

Lemma Wraps_Errorf_www_first e1 e2 e3 inner :
  Wraps e1 inner -> Wraps (Errorf_www e1 e2 e3) inner.
Proof. intros H. simpl. right. left. exact H. Qed.

Lemma Wraps_Errorf_ww_second pre e1 mid e2 post inner :
  Wraps e2 inner -> Wraps (Errorf_ww pre e1 mid e2 post) inner.
Proof. intros H. simpl. right. right. left. exact H. Qed.

Section SqlExtras.

Variables Store Env : Type.
Variable sql_exec : string -> list sqlarg -> Store -> ExecOutcome * Store.
Variable sql_query_row : string -> Store -> string + Z * string.
Variable q : Queries.

Implicit Types (c : Conn Store Env) (info : StepInfo).

Local Abbreviation db := (@sqlDB Store Env sql_exec sql_query_row q).

Lemma StartTransaction_fail c msg :
  hd None (faults c) = Some msg ->
  sqlDB_StartTransaction c
  = (Some (Errorf_ww "" (ofError ErrBeginTx) ": " (errorString msg) ""),
     mkConn (disk c) (txn c) (env c) (tl (faults c)) (journal c ++ [callBegin])).
Proof.
  intros H. unfold sqlDB_StartTransaction, DB_BeginTx, next_fault, record, set_txn.
  cbn [faults disk txn env journal].
  destruct (faults c) as [|f fs]; cbn [hd tl] in *; [discriminate|].
  subst f. reflexivity.
Qed.

Lemma env_StartTransaction c : env (snd (sqlDB_StartTransaction c)) = env c.
Proof.
  unfold sqlDB_StartTransaction, DB_BeginTx, next_fault, record, set_txn.
  cbn [faults disk txn env journal].
  destruct (faults c) as [|[msg|] fs]; reflexivity.
Qed.

Lemma Tx_Exec_open query args c s :
  txn c = Some s ->
  Tx_Exec sql_exec query args c
  = (fst (sql_exec query args s),
     mkConn (disk c) (Some (snd (sql_exec query args s))) (env c) (faults c)
       (journal c ++ [callExec query args])).
Proof.
  intros H. unfold Tx_Exec, record, set_txn. cbn [txn disk env faults journal].
  rewrite H. destruct (sql_exec query args s); reflexivity.
Qed.

(** [FinalizeTransaction] with nothing to report and no dry run, when
    the driver commits. *)
Lemma Finalize_commit c s :
  txn c = Some s -> hd None (faults c) = None ->
  sqlTx_FinalizeTransaction None false c
  = (None, mkConn s None (env c) (tl (faults c)) (journal c ++ [callCommit])).
Proof.
  intros Ht Hf. unfold sqlTx_FinalizeTransaction, Tx_Commit, next_fault, record, set_txn.
  cbn [orb txn faults disk env journal]. rewrite Ht.
  destruct (faults c) as [|f fs]; cbn [hd tl] in *; [reflexivity|].
  subst f. reflexivity.
Qed.

(** ... and as a dry run, when the driver rolls back. *)
Lemma Finalize_dry c s :
  txn c = Some s -> hd None (faults c) = None ->
  sqlTx_FinalizeTransaction None true c
  = (None, mkConn (disk c) None (env c) (tl (faults c)) (journal c ++ [callRollback])).
Proof.
  intros Ht Hf. unfold sqlTx_FinalizeTransaction, Tx_Rollback, next_fault, record, set_txn.
  cbn [orb txn faults disk env journal]. rewrite Ht.
  destruct (faults c) as [|f fs]; cbn [hd tl] in *; [reflexivity|].
  subst f. reflexivity.
Qed.

(** X13. [FinalizeTransaction] on an open transaction ends it with exactly
    one driver call.  When it is given an error or [dryRun] is set, the
    call is [Rollback] and the committed tables are as before; if the
    rollback succeeds the error is left as it was (nil for a dry run
    without error), and if it fails with [rollbackErr] the error left is
    [err; ErrRollbackTx: rollbackErr] when there was an error and
    [ErrRollbackTx: rollbackErr] when there was none.  Otherwise the call
    is [Commit]: if it succeeds the error stays nil and the working copy
    of the transaction becomes the committed tables, and if it fails with
    [commitErr] the error left is [ErrCommitTx: commitErr] and the tables
    are as before.  An error given in is never lost: the error left wraps
    it. *)
Theorem X13_FinalizeTransaction (err : option error) (dryRun : bool) c (s : Store)
    (Hopen : txn c = Some s) (err' : option error) c'
    (H : sqlTx_FinalizeTransaction err dryRun c = (err', c')) :
  txn c' = None /\ env c' = env c
  /\ (err <> None \/ dryRun = true ->
        journal c' = (journal c ++ [callRollback])%list /\ disk c' = disk c /\
        (hd None (faults c) = None -> err' = err) /\
        (forall rollbackErr, hd None (faults c) = Some rollbackErr ->
           err' = Some (match err with
                        | Some e =>
                            Errorf_www e (ofError ErrRollbackTx) (errorString rollbackErr)
                        | None =>
                            Errorf_ww "" (ofError ErrRollbackTx) ": "
                              (errorString rollbackErr) ""
                        end)))
  /\ (err = None -> dryRun = false ->
        journal c' = (journal c ++ [callCommit])%list /\
        (hd None (faults c) = None -> err' = None /\ disk c' = s) /\
        (forall commitErr, hd None (faults c) = Some commitErr ->
           err' = Some (Errorf_ww "" (ofError ErrCommitTx) ": " (errorString commitErr) "") /\
           disk c' = disk c))
  /\ (forall e, err = Some e -> exists e', err' = Some e' /\ Wraps e' e)
  /\ (forall e', err = None -> err' = Some e' ->
        Is e' ErrRollbackTx = dryRun /\ Is e' ErrCommitTx = negb dryRun).
Proof.
  unfold sqlTx_FinalizeTransaction, Tx_Rollback, Tx_Commit, next_fault, record, set_txn in H.
  cbn [txn faults disk env journal] in H. rewrite Hopen in H.
  destruct err as [e0|], dryRun; cbn [orb] in H;
    destruct (faults c) as [|[msg|] fs]; cbn [option_map hd] in *;
    injection H as <- <-; cbn [txn env journal disk];
    (split; [reflexivity|]); (split; [reflexivity|]);
    (split;
     [ first
         [ intros _; split; [reflexivity|]; split; [reflexivity|];
           split; [ intros C; first [reflexivity | discriminate C]
                  | intros m C; first [discriminate C | injection C as <-; reflexivity] ]
         | intros [C|C]; [now contradiction C | discriminate C] ] |]);
    (split;
     [ first
         [ intros C; discriminate C
         | intros _ C; discriminate C
         | intros _ _; split; [reflexivity|];
           split; [ intros C; first [split; reflexivity | discriminate C]
                  | intros m C; first [discriminate C
                                      | injection C as <-; split; reflexivity] ] ] |]);
    (split;
     [ intros e C; first [ discriminate C
                         | injection C as <-; eexists; split; [reflexivity|];
                           first [ apply Wraps_refl
                                 | apply Wraps_Errorf_www_first, Wraps_refl ] ]
     | intros e' C1 C2; first [ discriminate C1 | discriminate C2
                              | injection C2 as <-; split; reflexivity ] ]).
Qed.

(** Whenever [FinalizeTransaction] leaves an error, was given one, or runs
    as a dry run, the committed tables are as before. *)
Lemma disk_Finalize_kept err dryRun c :
  fst (sqlTx_FinalizeTransaction err dryRun c) <> None \/ err <> None \/ dryRun = true ->
  disk (snd (sqlTx_FinalizeTransaction err dryRun c)) = disk c.
Proof.
  intros [H | H]; [|now apply disk_FinalizeTransaction_rollback].
  destruct err as [e|]; [apply disk_FinalizeTransaction_rollback; left; discriminate|].
  destruct dryRun; [apply disk_FinalizeTransaction_rollback; now right|].
  revert H. unfold sqlTx_FinalizeTransaction, Tx_Commit, next_fault, record, set_txn.
  cbn [orb txn faults disk env journal].
  destruct (txn c) as [s|]; [|reflexivity].
  destruct (faults c) as [|[msg|] fs]; cbn [fst snd disk]; intros H;
    first [reflexivity | now contradiction H].
Qed.

Lemma env_Finalize err dryRun c :
  env (snd (sqlTx_FinalizeTransaction err dryRun c)) = env c.
Proof.
  unfold sqlTx_FinalizeTransaction, Tx_Rollback, Tx_Commit, next_fault, record, set_txn.
  cbn [txn faults disk env journal].
  destruct err as [e|], dryRun; cbn [orb];
    (destruct (txn c) as [s|]; [destruct (faults c) as [|[msg|] fs]|]); reflexivity.
Qed.

Lemma disk_Tx_loop cmds :
  forall c, disk (snd (Tx_loop sql_exec cmds c)) = disk c.
Proof.
  induction cmds as [|cmd cmds IH]; intros c; cbn [Tx_loop]; [reflexivity|].
  unfold Tx_Exec, record, set_txn. cbn [txn disk env faults journal].
  destruct (txn c) as [s|]; [|reflexivity].
  destruct (sql_exec _ _ s) as [[msg|n r] s1]; [reflexivity|].
  now rewrite IH.
Qed.

Lemma disk_InitVersion_body v dryRun c :
  fst (sqlDB_InitVersion sql_exec q v dryRun c) <> None \/ dryRun = true ->
  disk (snd (sqlDB_InitVersion sql_exec q v dryRun c)) = disk c.
Proof.
  unfold sqlDB_InitVersion.
  pose proof (disk_StartTransaction c) as H1.
  destruct (sqlDB_StartTransaction c) as [[e|] c1]; cbn [snd] in *; [intros _; assumption|].
  assert (Hret : forall e c3, disk c3 = disk c ->
            let r := (let '(err, c4) := sqlTx_FinalizeTransaction e dryRun c3 in
                      (match err with
                       | Some e0 => Some (Errorf_ww "" (ofError ErrNotInitialized) ": " e0 "")
                       | None => None
                       end, c4)) in
            fst r <> None \/ dryRun = true -> disk (snd r) = disk c).
  { intros e c3 H3. pose proof (@disk_Finalize_kept e dryRun c3) as HF.
    destruct (sqlTx_FinalizeTransaction e dryRun c3) as [[e'|] c4]; cbn [fst snd] in *;
      intros C; (rewrite HF; [assumption|]);
      [ left; discriminate
      | destruct C as [C|C]; [now contradiction C | right; right; exact C] ]. }
  unfold Tx_Exec, record, set_txn. cbn [txn disk env faults journal].
  destruct (txn c1) as [s|].
  - destruct (sql_exec (CreateTableQuery q) [] s) as [[msg|n r] s1];
      [apply Hret; assumption|]. cbn [txn disk env faults journal].
    destruct (sql_exec (InitTableQuery q) _ s1) as [[msg|n' r'] s2];
      apply Hret; assumption.
  - apply Hret; assumption.
Qed.

Lemma disk_SetVersion_kept info (dryRun : bool) c :
  fst (sqlDB_SetVersion sql_exec q info dryRun c) <> None \/ dryRun = true ->
  disk (snd (sqlDB_SetVersion sql_exec q info dryRun c)) = disk c.
Proof.
  unfold sqlDB_SetVersion.
  pose proof (disk_StartTransaction c) as H1.
  destruct (sqlDB_StartTransaction c) as [[e|] c1]; cbn [snd] in *; [intros _; assumption|].
  pose proof (disk_SetVersionTx sql_exec q info dryRun c1) as H2.
  destruct (sqlDB_SetVersionTx sql_exec q info dryRun c1) as [err c2]; cbn [snd] in H2.
  intros H. rewrite disk_Finalize_kept; [congruence|].
  destruct H as [H | H]; [left; exact H | right; right; exact H].
Qed.

Lemma disk_Tx_kept info (dryRun : bool) c cmds :
  fst (Tx sql_exec cmds db info dryRun c) <> None \/ dryRun = true ->
  disk (snd (Tx sql_exec cmds db info dryRun c)) = disk c.
Proof.
  unfold Tx.
  cbn [sqlDB Database_asSQLDB sqlDB_SQLDB SQLDB_StartTransaction
         SQLDB_VersionTx SQLDB_FinalizeTransaction SQLDB_SetVersionTx].
  pose proof (disk_StartTransaction c) as H1.
  destruct (sqlDB_StartTransaction c) as [[e|] c1]; cbn [snd] in *; [intros _; assumption|].
  assert (Hret : forall e c3, disk c3 = disk c ->
            let r := (let '(err, c4) := sqlTx_FinalizeTransaction e dryRun c3 in
                      (Tx_deferred info dryRun err, c4)) in
            fst r <> None \/ dryRun = true -> disk (snd r) = disk c).
  { intros e c3 H3. pose proof (@disk_Finalize_kept e dryRun c3) as HF.
    destruct (sqlTx_FinalizeTransaction e dryRun c3) as [[e'|] c4]; cbn [fst snd] in *;
      intros C; (rewrite HF; [assumption|]);
      [ left; discriminate
      | destruct C as [C|C]; [now contradiction C | right; right; exact C] ]. }
  pose proof (disk_VersionTx sql_query_row q c1) as H2.
  destruct (sqlDB_VersionTx sql_query_row q c1) as [[dbv [e|]] c2]; cbn [snd] in H2;
    [apply Hret; congruence|].
  destruct (negb (Version_eqb dbv (From info))); [apply Hret; congruence|].
  pose proof (disk_Tx_loop cmds c2) as H3.
  destruct (Tx_loop sql_exec cmds c2) as [[e|] c3]; cbn [snd] in H3;
    [apply Hret; congruence|].
  pose proof (disk_SetVersionTx sql_exec q info dryRun c3) as H4.
  destruct (sqlDB_SetVersionTx sql_exec q info dryRun c3) as [err c4]; cbn [snd] in H4.
  apply Hret. congruence.
Qed.

Lemma disk_TxF_kept info (dryRun : bool) c
    (gs : list (StepInfo -> bool -> Store * Env -> option error * (Store * Env))) :
  fst (TxF (map (@inTx Store Env) gs) db info dryRun c) <> None \/ dryRun = true ->
  disk (snd (TxF (map (@inTx Store Env) gs) db info dryRun c)) = disk c.
Proof.
  unfold TxF.
  cbn [sqlDB Database_asSQLDB sqlDB_SQLDB SQLDB_StartTransaction
         SQLDB_VersionTx SQLDB_FinalizeTransaction SQLDB_SetVersionTx].
  pose proof (disk_StartTransaction c) as H1.
  destruct (sqlDB_StartTransaction c) as [[e|] c1]; cbn [snd] in *; [intros _; assumption|].
  assert (Hret : forall e c3, disk c3 = disk c ->
            let r := (let '(err, c4) := sqlTx_FinalizeTransaction e dryRun c3 in
                      (TxF_deferred info dryRun err, c4)) in
            fst r <> None \/ dryRun = true -> disk (snd r) = disk c).
  { intros e c3 H3. pose proof (@disk_Finalize_kept e dryRun c3) as HF.
    destruct (sqlTx_FinalizeTransaction e dryRun c3) as [[e'|] c4]; cbn [fst snd] in *;
      intros C; (rewrite HF; [assumption|]);
      [ left; discriminate
      | destruct C as [C|C]; [now contradiction C | right; right; exact C] ]. }
  pose proof (disk_VersionTx sql_query_row q c1) as H2.
  destruct (sqlDB_VersionTx sql_query_row q c1) as [[dbv [e|]] c2]; cbn [snd] in H2;
    [apply Hret; congruence|].
  destruct (negb (Version_eqb dbv (From info))); [apply Hret; congruence|].
  pose proof (disk_TxF_loop info dryRun gs c2 false) as H3.
  destruct (TxF_loop (map (@inTx Store Env) gs) info dryRun false c2) as [[e cancel] c3];
    cbn [snd] in H3.
  destruct e as [e|]; [apply Hret; congruence|].
  destruct cancel; [apply Hret; congruence|].
  pose proof (disk_SetVersionTx sql_exec q info dryRun c3) as H4.
  destruct (sqlDB_SetVersionTx sql_exec q info dryRun c3) as [err c4]; cbn [snd] in H4.
  apply Hret. congruence.
Qed.

Lemma disk_Version_kept c : disk (snd (sqlDB_Version sql_query_row q c)) = disk c.
Proof.
  unfold sqlDB_Version.
  unfold sqlDB_StartTransaction, DB_BeginTx, next_fault, record, set_txn in *.
  cbn [faults disk txn env journal] in *.
  destruct (faults c) as [|[msg|] fs]; cbn [snd] in *; try reflexivity;
    unfold sqlDB_VersionTx, Tx_QueryRow_Scan, record; cbn [txn disk env faults journal];
    (destruct (sql_query_row (VersionQuery q) (disk c)) as [msg|[id cs]];
     [|destruct (MakeVersion id cs) as [v [e|]]]);
    unfold sqlTx_FinalizeTransaction, Tx_Rollback, Tx_Commit, next_fault, record, set_txn;
    cbn [orb txn faults disk env journal];
    try reflexivity;
    destruct fs as [|[msg'|] fs]; reflexivity.
Qed.

(** X14. The methods and step functions of [sqlDB] that work in a
    transaction are all-or-nothing on the committed tables: whenever
    [InitVersion], [SetVersion] (the default step), [Tx] or [TxF] (with
    callbacks that work through the transaction they are given) returns
    an error, or runs with [dryRun] set, the committed tables are as they
    were before the call; so are they after every call of [Version]. *)
Theorem X14_all_or_nothing info (dryRun : bool) c :
  (forall v,
     let r := sqlDB_InitVersion sql_exec q v dryRun c in
     fst r <> None \/ dryRun = true -> disk (snd r) = disk c)
  /\ (let r := sqlDB_SetVersion sql_exec q info dryRun c in
      fst r <> None \/ dryRun = true -> disk (snd r) = disk c)
  /\ (forall cmds,
        let r := Tx sql_exec cmds db info dryRun c in
        fst r <> None \/ dryRun = true -> disk (snd r) = disk c)
  /\ (forall gs,
        let r := TxF (map (@inTx Store Env) gs) db info dryRun c in
        fst r <> None \/ dryRun = true -> disk (snd r) = disk c)
  /\ disk (snd (sqlDB_Version sql_query_row q c)) = disk c.
Proof.
  split; [intros v; apply disk_InitVersion_body|].
  split; [apply disk_SetVersion_kept|].
  split; [intros cmds; apply disk_Tx_kept|].
  split; [intros gs; apply disk_TxF_kept|].
  apply disk_Version_kept.
Qed.

Lemma runStep_kept (f : option (StepFunc (Conn Store Env))) info (dryRun : bool) c :
  transactional sql_exec f ->
  fst (runStep db f info dryRun c) <> None \/ dryRun = true ->
  disk (snd (runStep db f info dryRun c)) = disk c.
Proof.
  intros [-> | [[cmds ->] | [gs ->]]]; unfold runStep.
  - apply disk_SetVersion_kept.
  - apply disk_Tx_kept.
  - apply disk_TxF_kept.
Qed.

(** X24. A migrator over an [sqlDB] whose registry holds only steps with
    nil operations (the default step) or operations made by [Tx] or by
    [TxF] with callbacks that work through their transaction: whenever
    [OneUp] or [OneDown] returns an error, and after every [OneUpDryRun]
    and [OneDownDryRun], the migrator (its cached version) and the
    committed tables of the database are as they were before the call. *)
Theorem X24_failure_or_dry_run_keeps_tables (s : Steps (Conn Store Env))
    (Hops : forall st, In st (steps s) ->
              transactional sql_exec (step_up st) /\ transactional sql_exec (step_down st))
    (m : Migrator (Conn Store Env))
    (Hdb : m_db m = db) (Hs : m_steps m = Steps_Stepper s) c :
  forall op (dry : bool),
    In (op, dry)
       [(@Migrator_OneUp (Conn Store Env), false);
        (@Migrator_OneDown (Conn Store Env), false);
        (@Migrator_OneUpDryRun (Conn Store Env), true);
        (@Migrator_OneDownDryRun (Conn Store Env), true)] ->
    forall e m' c', op m c = (e, m', c') ->
      e <> None \/ dry = true -> m' = m /\ disk c' = disk c.
Proof.
  assert (Hin : forall i, 0 <= i < Steps_Len s -> In (steps_at s i) (steps s)).
  { intros i Hi. eapply nth_error_In. apply (nth_steps_at s Hi). }
  assert (Hup : forall dry e m' c',
            oneUp m dry c = (e, m', c') -> e <> None \/ dry = true ->
            m' = m /\ disk c' = disk c).
  { intros dry e m' c'. rewrite oneUp_run, Hs, Hdb.
    cbn [Steps_Stepper Stepper_Up]. unfold Steps_Up, Steps_Len.
    destruct (check s (cachedVersion m)) eqn:Ec.
    { intros H _. injection H as <- <- <-. split; reflexivity. }
    apply check_None in Ec as [Hr _]. unfold Steps_Len in Hr.
    destruct (Z.eqb_spec (ID (cachedVersion m)) (Z.of_nat (List.length (steps s)) - 1)).
    { intros H _. injection H as <- <- <-. split; reflexivity. }
    assert (Ht : transactional sql_exec (step_up (steps_at s (ID (cachedVersion m) + 1)))).
    { apply Hops, Hin. unfold Steps_Len. lia. }
    pose proof (@runStep_kept _ (mkStepInfo
                  (step_name (steps_at s (ID (cachedVersion m) + 1)))
                  (step_version (steps_at s (ID (cachedVersion m))))
                  (step_version (steps_at s (ID (cachedVersion m) + 1)))) dry c Ht) as Hk.
    destruct (runStep _ _ _ _ _) as [[e1|] c1]; cbn [fst snd] in Hk;
      intros H C; injection H as <- <- <-.
    - split; [reflexivity | apply Hk; left; discriminate].
    - destruct C as [C|C]; [now contradiction C|]. subst dry.
      split; [reflexivity | apply Hk; now right]. }
  assert (Hdown : forall dry e m' c',
            oneDown m dry c = (e, m', c') -> e <> None \/ dry = true ->
            m' = m /\ disk c' = disk c).
  { intros dry e m' c'. rewrite oneDown_run, Hs, Hdb.
    cbn [Steps_Stepper Stepper_Down]. unfold Steps_Down.
    destruct (check s (cachedVersion m)) eqn:Ec.
    { intros H _. injection H as <- <- <-. split; reflexivity. }
    apply check_None in Ec as [Hr _].
    destruct (Z.eqb_spec (ID (cachedVersion m)) 0).
    { intros H _. injection H as <- <- <-. split; reflexivity. }
    assert (Ht : transactional sql_exec (step_down (steps_at s (ID (cachedVersion m))))).
    { apply Hops, Hin. assumption. }
    pose proof (@runStep_kept _ (mkStepInfo
                  (step_name (steps_at s (ID (cachedVersion m))))
                  (step_version (steps_at s (ID (cachedVersion m))))
                  (step_version (steps_at s (ID (cachedVersion m) - 1)))) dry c Ht) as Hk.
    destruct (runStep _ _ _ _ _) as [[e1|] c1]; cbn [fst snd] in Hk;
      intros H C; injection H as <- <- <-.
    - split; [reflexivity | apply Hk; left; discriminate].
    - destruct C as [C|C]; [now contradiction C|]. subst dry.
      split; [reflexivity | apply Hk; now right]. }
  assert (Hwrap : forall prefix (r : option error * Migrator (Conn Store Env) * Conn Store Env)
                         e m' c',
            wrapOp prefix r = (e, m', c') ->
            exists e0, r = (e0, m', c') /\ (e <> None -> e0 <> None)).
  { intros prefix [[[e0|] m0] c0] e m' c'; simpl; intros H; injection H as <- <- <-;
      eexists; (split; [reflexivity|]); intros C; first [discriminate | exact C]. }
  intros op dry [H | [H | [H | [H | []]]]]; injection H as <- <-;
    intros e m' c' Hop C;
    unfold Migrator_OneUp, Migrator_OneUpCtx, Migrator_OneDown, Migrator_OneDownCtx,
      Migrator_OneUpDryRun, Migrator_OneUpDryRunCtx,
      Migrator_OneDownDryRun, Migrator_OneDownDryRunCtx in Hop;
    apply Hwrap in Hop as (e0 & Hop & He);
    first [ apply (Hup _ _ _ _ Hop) | apply (Hdown _ _ _ _ Hop) ];
    (destruct C as [C|C]; [left; exact (He C) | right; exact C]).
Qed.

Lemma SetVersionTx_open info dryRun c s :
  txn c = Some s ->
  sqlDB_SetVersionTx sql_exec q info dryRun c
  = (match fst (sql_exec (SetVersionQuery q) (setVersionArgs info) s) with
     | ExecError msg => Some (errorString msg)
     | ExecResult n None => if negb (n =? 1) then Some (ofError ErrBadVersion) else None
     | ExecResult _ (Some msg) => Some (errorString msg)
     end,
     mkConn (disk c) (Some (snd (sql_exec (SetVersionQuery q) (setVersionArgs info) s)))
       (env c) (faults c)
       (journal c ++ [callExec (SetVersionQuery q) (setVersionArgs info)])).
Proof.
  intros H. unfold sqlDB_SetVersionTx. fold (setVersionArgs info).
  rewrite (@Tx_Exec_open _ _ c s H).
  destruct (sql_exec (SetVersionQuery q) (setVersionArgs info) s) as [[msg|n [msg|]] s1];
    cbn [fst snd]; try reflexivity.
  destruct (negb (n =? 1)); reflexivity.
Qed.

(** X15. [SetVersion], which is also the default step of an [sqlDB], is a
    compare-and-swap on the version row, in a transaction of its own.
    When the transaction begins: it returns nil without [dryRun] only if
    the update it runs (new id and checksum, old id and checksum) reports
    exactly one row affected, and then the tables committed are the ones
    that update leaves and the driver has seen [Begin], the update and
    [Commit]; when the update reports any other number of rows, the
    error wraps [ErrBadVersion] and the tables are as before; when the
    update itself fails, the error wraps the driver's error and not
    [ErrBadVersion]. *)
Theorem X15_SetVersion_compare_and_swap info (dryRun : bool) c
    (Hbegin : hd None (faults c) = None) (err : option error) c'
    (H : sqlDB_SetVersion sql_exec q info dryRun c = (err, c')) :
  Database_DefaultStepFunc db info dryRun c = (err, c')
  /\ (err = None -> dryRun = false ->
        sql_exec (SetVersionQuery q) (setVersionArgs info) (disk c)
        = (ExecResult 1 None, disk c') /\
        journal c'
        = (journal c ++ [callBegin; callExec (SetVersionQuery q) (setVersionArgs info);
                         callCommit])%list)
  /\ (forall n s1,
        sql_exec (SetVersionQuery q) (setVersionArgs info) (disk c) = (ExecResult n None, s1) ->
        n <> 1 ->
        exists e, err = Some e /\ Is e ErrBadVersion = true /\ disk c' = disk c)
  /\ (forall msg s1,
        sql_exec (SetVersionQuery q) (setVersionArgs info) (disk c) = (ExecError msg, s1) ->
        exists e, err = Some e /\ Wraps e (errorString msg) /\ Is e ErrBadVersion = false /\
                  disk c' = disk c).
Proof.
  split; [exact H|].
  unfold sqlDB_SetVersion in H. rewrite (sqlDB_StartTransaction_ok c Hbegin) in H.
  set (c1 := mkConn (disk c) (Some (disk c)) (env c) (tl (faults c))
               (journal c ++ [callBegin])) in *.
  rewrite (@SetVersionTx_open info dryRun c1 (disk c) eq_refl) in H.
  destruct (sql_exec (SetVersionQuery q) (setVersionArgs info) (disk c))
    as [out s1] eqn:Eout.
  cbn [fst snd] in H.
  set (c2 := mkConn (disk c1) (Some s1) (env c1) (faults c1)
               (journal c1 ++ [callExec (SetVersionQuery q) (setVersionArgs info)])) in *.
  assert (Herr : forall e0 : error, Is e0 ErrBadVersion = Is e0 ErrBadVersion) by reflexivity.
  assert (Hfail : forall e0 : error,
            sqlTx_FinalizeTransaction (Some e0) dryRun c2 = (err, c') ->
            exists e, err = Some e /\ Wraps e e0 /\ Is e ErrBadVersion = Is e0 ErrBadVersion /\
                      disk c' = disk c).
  { intros e0 HF.
    destruct (@sqlTx_FinalizeTransaction_error _ _ e0 dryRun c2 s1 eq_refl)
      as (e' & HF' & He').
    rewrite HF' in HF. injection HF as <- <-. exists e'. split; [reflexivity|].
    destruct He' as [-> | (msg & ->)].
    - repeat split. apply Wraps_refl.
    - split; [apply Wraps_Errorf_www_first, Wraps_refl|].
      split; [apply Is_after_rollback; discriminate | reflexivity]. }
  destruct out as [msg|n [msg|]].
  - apply Hfail in H as (e & -> & Hw & Hi & Hd).
    split; [intros C; discriminate C|]. split; [intros ? ? C; discriminate C|].
    intros msg' s1' C. injection C as <- <-. exists e. repeat split; assumption.
  - apply Hfail in H as (e & -> & Hw & Hi & Hd).
    split; [intros C; discriminate C|]. split; intros ? ? C; discriminate C.
  - destruct (Z.eqb_spec n 1) as [-> | Hn]; cbn [negb] in H.
    + split.
      * intros -> ->. rewrite (@Finalize_commit c2 s1 eq_refl) in H.
        -- injection H as <-. cbn [disk journal]. split; [reflexivity|].
           subst c2 c1. cbn [journal]. rewrite <- !app_assoc. reflexivity.
        -- subst c2 c1. cbn [faults].
           unfold sqlTx_FinalizeTransaction, Tx_Commit, next_fault, record, set_txn in H.
           cbn [orb txn faults disk env journal] in H.
           destruct (tl (faults c)) as [|[msg|] fs]; [reflexivity | discriminate H | reflexivity].
      * split; [intros n' s1' C; injection C as <- <-; intros C; now contradiction C|].
        intros ? ? C; discriminate C.
    + apply Hfail in H as (e & -> & Hw & Hi & Hd).
      split; [intros C; discriminate C|]. split; [|intros ? ? C; discriminate C].
      intros n' s1' C _. injection C as <- <-. exists e. repeat split; assumption.
Qed.

(** The loop of [Tx] on an open transaction runs the commands on the
    working copy, up to the first one that fails. *)
Lemma Tx_loop_spec cmds :
  forall c s,
    txn c = Some s ->
    Tx_loop sql_exec cmds c
    = (option_map errorString (fst (fst (execAll sql_exec cmds s))),
       mkConn (disk c) (Some (snd (fst (execAll sql_exec cmds s)))) (env c) (faults c)
         (journal c ++ snd (execAll sql_exec cmds s))).
Proof.
  induction cmds as [|cmd cmds IH]; intros c s Hs; cbn [Tx_loop execAll].
  - cbn [fst snd option_map]. rewrite app_nil_r, <- Hs. now destruct c.
  - rewrite (@Tx_Exec_open _ _ c s Hs).
    destruct (sql_exec (SQLCommand_Cmd cmd) (SQLCommand_Args cmd) s) as [[msg|n r] s1];
      cbn [fst snd]; [reflexivity|].
    rewrite (IH (mkConn (disk c) (Some s1) (env c) (faults c)
                   (journal c ++ [callExec (SQLCommand_Cmd cmd) (SQLCommand_Args cmd)]))
               s1 eq_refl).
    cbn [disk env faults journal].
    destruct (execAll sql_exec cmds s1) as [[r' s2] ks]. cbn [fst snd].
    now rewrite <- app_assoc.
Qed.

Lemma execAll_app pre bad post s s1 ks msg s2 :
  execAll sql_exec pre s = (None, s1, ks) ->
  sql_exec (SQLCommand_Cmd bad) (SQLCommand_Args bad) s1 = (ExecError msg, s2) ->
  execAll sql_exec (pre ++ bad :: post) s
  = (Some msg, s2,
     (ks ++ [callExec (SQLCommand_Cmd bad) (SQLCommand_Args bad)])%list)
  /\ List.length ks = List.length pre.
Proof.
  revert s ks. induction pre as [|cmd pre IH]; intros s ks Hpre Hbad; cbn [execAll app] in *.
  - injection Hpre as <- <-. rewrite Hbad. split; reflexivity.
  - destruct (sql_exec (SQLCommand_Cmd cmd) (SQLCommand_Args cmd) s) as [[m|n r] s0];
      [discriminate|].
    destruct (execAll sql_exec pre s0) as [[r' s3] ks'] eqn:E.
    injection Hpre as -> -> <-.
    destruct (IH _ _ E Hbad) as [-> Hlen]. cbn [List.length]. split; [reflexivity|].
    now rewrite Hlen.
Qed.

(** X16. [Tx(cmds...)] on an [sqlDB] whose transaction begins and whose
    version is [info.From] stops at the first command that fails: the
    commands before it have run in order, the ones after it are not
    run, nor is the version update; the transaction is rolled back, the
    committed tables are as before, and the error returned wraps the
    error of the driver. *)
Theorem X16_Tx_first_failure info (dryRun : bool) c
    (Hbegin : hd None (faults c) = None)
    (Hversion : exists id cs,
        sql_query_row (VersionQuery q) (disk c) = inr (id, cs) /\
        MakeVersion id cs = (From info, None))
    (pre : list SQLCommand) (bad : SQLCommand) (post : list SQLCommand)
    (s1 : Store) (ks : list call) (msg : string) (s2 : Store)
    (Hpre : execAll sql_exec pre (disk c) = (None, s1, ks))
    (Hbad : sql_exec (SQLCommand_Cmd bad) (SQLCommand_Args bad) s1 = (ExecError msg, s2)) :
  exists e c',
    Tx sql_exec (pre ++ bad :: post) db info dryRun c = (Some e, c') /\
    Wraps e (errorString msg) /\
    journal c'
    = (journal c ++ [callBegin; callQueryRow (VersionQuery q)] ++ ks
         ++ [callExec (SQLCommand_Cmd bad) (SQLCommand_Args bad); callRollback])%list /\
    List.length ks = List.length pre /\
    disk c' = disk c /\ txn c' = None /\ env c' = env c.
Proof.
  destruct Hversion as (id & cs & Hq & Hv).
  destruct (execAll_app pre bad post (disk c) Hpre Hbad) as [Hall Hlen].
  set (c1 := mkConn (disk c) (Some (disk c)) (env c) (tl (faults c))
               (journal c ++ [callBegin])).
  set (c2 := mkConn (disk c1) (txn c1) (env c1) (faults c1)
               (journal c1 ++ [callQueryRow (VersionQuery q)])).
  assert (H2 : sqlDB_VersionTx sql_query_row q c1 = (From info, None, c2))
    by (apply sqlDB_VersionTx_ok with (s := disk c) (id := id) (cs := cs);
        [reflexivity | assumption | assumption]).
  pose proof (@Tx_loop_spec (pre ++ bad :: post) c2 (disk c) eq_refl) as HL.
  rewrite Hall in HL. cbn [fst snd option_map] in HL.
  set (c3 := mkConn (disk c2) (Some s2) (env c2) (faults c2)
               (journal c2 ++ ks ++ [callExec (SQLCommand_Cmd bad) (SQLCommand_Args bad)]))
    in *.
  destruct (@sqlTx_FinalizeTransaction_error _ _ (errorString msg) dryRun c3 _ eq_refl)
    as (err' & HF & Herr').
  assert (Hw : Wraps err' (errorString msg)).
  { destruct Herr' as [-> | (m & ->)]; [apply Wraps_refl|].
    apply Wraps_Errorf_www_first, Wraps_refl. }
  exists (Errorf_w ("tx " ++ Version_String (From info) ++ " -> "
                    ++ Version_String (To info)
                    ++ (if dryRun then " dry run: " else ": ")) err' "").
  exists (mkConn (disk c3) None (env c3) (tl (faults c3)) (journal c3 ++ [callRollback])).
  split.
  - unfold Tx. cbn [sqlDB Database_asSQLDB sqlDB_SQLDB SQLDB_StartTransaction
                      SQLDB_VersionTx SQLDB_FinalizeTransaction SQLDB_SetVersionTx].
    rewrite (sqlDB_StartTransaction_ok c Hbegin). fold c1. rewrite H2.
    rewrite Version_eqb_refl. cbn [negb]. rewrite HL. rewrite HF.
    unfold Tx_deferred. clear. destruct dryRun; reflexivity.
  - split; [apply Wraps_Errorf_w; exact Hw|].
    cbn [env journal txn disk]. repeat split; [|assumption].
    subst c3 c2 c1. cbn [journal]. rewrite <- !app_assoc. reflexivity.
Qed.

(** X17. [Tx(cmds...)] on an [sqlDB] whose driver does not fail to begin,
    commit or roll back, with the database at [info.From]: when every
    command succeeds and the version update affects one row, it returns
    nil; the driver has seen [Begin], the version query, the commands in
    order, the version update, and then [Commit] (the tables committed
    are those the commands and the update leave) or, for a dry run,
    [Rollback] (the tables are as before). *)
Theorem X17_Tx_commits_or_dry_runs info (dryRun : bool) c
    (Hfaults : faults c = [])
    (Hversion : exists id cs,
        sql_query_row (VersionQuery q) (disk c) = inr (id, cs) /\
        MakeVersion id cs = (From info, None))
    (cmds : list SQLCommand) (s1 : Store) (ks : list call) (s2 : Store)
    (Hcmds : execAll sql_exec cmds (disk c) = (None, s1, ks))
    (Hset : sql_exec (SetVersionQuery q) (setVersionArgs info) s1 = (ExecResult 1 None, s2)) :
  Tx sql_exec cmds db info dryRun c
  = (None,
     mkConn (if dryRun then disk c else s2) None (env c) []
       (journal c ++ [callBegin; callQueryRow (VersionQuery q)] ++ ks
          ++ [callExec (SetVersionQuery q) (setVersionArgs info);
              if dryRun then callRollback else callCommit])).
Proof.
  destruct Hversion as (id & cs & Hq & Hv).
  assert (Hbegin : hd None (faults c) = None) by now rewrite Hfaults.
  set (c1 := mkConn (disk c) (Some (disk c)) (env c) (tl (faults c))
               (journal c ++ [callBegin])).
  set (c2 := mkConn (disk c1) (txn c1) (env c1) (faults c1)
               (journal c1 ++ [callQueryRow (VersionQuery q)])).
  assert (H2 : sqlDB_VersionTx sql_query_row q c1 = (From info, None, c2))
    by (apply sqlDB_VersionTx_ok with (s := disk c) (id := id) (cs := cs);
        [reflexivity | assumption | assumption]).
  pose proof (@Tx_loop_spec cmds c2 (disk c) eq_refl) as HL.
  rewrite Hcmds in HL. cbn [fst snd option_map] in HL.
  set (c3 := mkConn (disk c2) (Some s1) (env c2) (faults c2) (journal c2 ++ ks)) in *.
  pose proof (@SetVersionTx_open info dryRun c3 s1 eq_refl) as HS.
  rewrite Hset in HS. cbn [fst snd Z.eqb Pos.eqb negb] in HS.
  unfold Tx. cbn [sqlDB Database_asSQLDB sqlDB_SQLDB SQLDB_StartTransaction
                    SQLDB_VersionTx SQLDB_FinalizeTransaction SQLDB_SetVersionTx].
  rewrite (sqlDB_StartTransaction_ok c Hbegin). fold c1. rewrite H2.
  rewrite Version_eqb_refl. cbn [negb]. rewrite HL, HS.
  subst c3 c2 c1. cbn [disk txn env faults journal]. rewrite Hfaults. cbn [tl].
  destruct dryRun.
  - erewrite Finalize_dry; [|reflexivity|reflexivity]. cbn [disk env faults journal tl].
    unfold Tx_deferred. now rewrite <- !app_assoc.
  - erewrite Finalize_commit; [|reflexivity|reflexivity]. cbn [disk env faults journal tl].
    unfold Tx_deferred. now rewrite <- !app_assoc.
Qed.

(** X18. [TxF] and [Tx] check the version first: when the transaction
    begins and the database holds a version other than [info.From], they
    return an error that wraps ["db is <version>"], no callback and no
    command is run (whatever the callbacks are), nor is the version
    update; the driver has seen [Begin], the version query and
    [Rollback], and the tables and the Go state are as before. *)
Theorem X18_version_guard info (dryRun : bool) c
    (Hbegin : hd None (faults c) = None)
    (id : Z) (cs : string) (v : Version)
    (Hrow : sql_query_row (VersionQuery q) (disk c) = inr (id, cs))
    (Hv : MakeVersion id cs = (v, None))
    (Hne : v <> From info)
    (fs : list (TxFunc (Conn Store Env))) (cmds : list SQLCommand) :
  forall step, In step [TxF fs; Tx sql_exec cmds] ->
    exists e c',
      step db info dryRun c = (Some e, c') /\
      Wraps e (errorString ("db is " ++ Version_String v)) /\
      journal c'
      = (journal c ++ [callBegin; callQueryRow (VersionQuery q); callRollback])%list /\
      disk c' = disk c /\ env c' = env c /\ txn c' = None.
Proof.
  set (c1 := mkConn (disk c) (Some (disk c)) (env c) (tl (faults c))
               (journal c ++ [callBegin])).
  set (c2 := mkConn (disk c1) (txn c1) (env c1) (faults c1)
               (journal c1 ++ [callQueryRow (VersionQuery q)])).
  assert (H2 : sqlDB_VersionTx sql_query_row q c1 = (v, None, c2))
    by (apply sqlDB_VersionTx_ok with (s := disk c) (id := id) (cs := cs);
        [reflexivity | assumption | assumption]).
  assert (Hneq : Version_eqb v (From info) = false).
  { destruct (Version_eqb v (From info)) eqn:E; [|reflexivity].
    apply Version_eqb_eq in E. contradiction. }
  destruct (@sqlTx_FinalizeTransaction_error _ _
              (errorString ("db is " ++ Version_String v)) dryRun c2 _ eq_refl)
    as (err' & HF & Herr').
  assert (Hw : Wraps err' (errorString ("db is " ++ Version_String v))).
  { destruct Herr' as [-> | (m & ->)]; [apply Wraps_refl|].
    apply Wraps_Errorf_www_first, Wraps_refl. }
  assert (Hnc : Is err' ErrCancel = false).
  { destruct Herr' as [-> | (m & ->)]; [reflexivity|].
    rewrite Is_after_rollback by discriminate. reflexivity. }
  intros step [<- | [<- | []]].
  - exists (Errorf_w ("txf " ++ Version_String (From info) ++ " -> "
                      ++ Version_String (To info)
                      ++ (if dryRun then " dry run: " else ": ")) err' "").
    eexists. split.
    + unfold TxF. cbn [sqlDB Database_asSQLDB sqlDB_SQLDB SQLDB_StartTransaction
                        SQLDB_VersionTx SQLDB_FinalizeTransaction SQLDB_SetVersionTx].
      rewrite (sqlDB_StartTransaction_ok c Hbegin). fold c1. rewrite H2, Hneq.
      cbn [negb]. rewrite HF. unfold TxF_deferred. rewrite Hnc.
      destruct dryRun; reflexivity.
    + split; [apply Wraps_Errorf_w; exact Hw|].
      cbn [env journal txn disk]. repeat split.
      subst c2 c1. cbn [journal]. rewrite <- !app_assoc. reflexivity.
  - exists (Errorf_w ("tx " ++ Version_String (From info) ++ " -> "
                      ++ Version_String (To info)
                      ++ (if dryRun then " dry run: " else ": ")) err' "").
    eexists. split.
    + unfold Tx. cbn [sqlDB Database_asSQLDB sqlDB_SQLDB SQLDB_StartTransaction
                        SQLDB_VersionTx SQLDB_FinalizeTransaction SQLDB_SetVersionTx].
      rewrite (sqlDB_StartTransaction_ok c Hbegin). fold c1. rewrite H2, Hneq.
      cbn [negb]. rewrite HF. unfold Tx_deferred.
      destruct dryRun; reflexivity.
    + split; [apply Wraps_Errorf_w; exact Hw|].
      cbn [env journal txn disk]. repeat split.
      subst c2 c1. cbn [journal]. rewrite <- !app_assoc. reflexivity.
Qed.

Lemma NoTx_loop_spec cmds :
  forall c,
    NoTx_loop sql_exec cmds c
    = (option_map errorString (fst (fst (execAll sql_exec cmds (disk c)))),
       mkConn (snd (fst (execAll sql_exec cmds (disk c)))) (txn c) (env c) (faults c)
         (journal c ++ snd (execAll sql_exec cmds (disk c)))).
Proof.
  induction cmds as [|cmd cmds IH]; intros c; cbn [NoTx_loop execAll].
  - cbn [fst snd option_map]. rewrite app_nil_r. now destruct c.
  - unfold DB_ExecContext, record. cbn [disk txn env faults journal].
    destruct (sql_exec (SQLCommand_Cmd cmd) (SQLCommand_Args cmd) (disk c)) as [[msg|n r] s1];
      cbn [fst snd]; [reflexivity|].
    rewrite IH. cbn [disk txn env faults journal].
    destruct (execAll sql_exec cmds s1) as [[r' s2] ks]. cbn [fst snd].
    now rewrite <- app_assoc.
Qed.

Lemma sqlDB_Version_ok c id cs v :
  faults c = [] ->
  sql_query_row (VersionQuery q) (disk c) = inr (id, cs) ->
  MakeVersion id cs = (v, None) ->
  sqlDB_Version sql_query_row q c
  = (v, None,
     mkConn (disk c) None (env c) []
       (journal c ++ [callBegin; callQueryRow (VersionQuery q); callCommit])).
Proof.
  intros Hf Hq Hv. unfold sqlDB_Version.
  rewrite sqlDB_StartTransaction_ok by now rewrite Hf.
  erewrite sqlDB_VersionTx_ok; [|reflexivity|exact Hq|exact Hv].
  cbn [disk txn env faults journal]. rewrite Hf. cbn [tl].
  erewrite Finalize_commit; [|reflexivity|reflexivity].
  cbn [disk txn env faults journal tl]. now rewrite <- !app_assoc.
Qed.

Lemma sqlDB_SetVersion_ok info c s2 :
  faults c = [] ->
  sql_exec (SetVersionQuery q) (setVersionArgs info) (disk c) = (ExecResult 1 None, s2) ->
  sqlDB_SetVersion sql_exec q info false c
  = (None,
     mkConn s2 None (env c) []
       (journal c ++ [callBegin; callExec (SetVersionQuery q) (setVersionArgs info);
                      callCommit])).
Proof.
  intros Hf Hs. unfold sqlDB_SetVersion.
  rewrite sqlDB_StartTransaction_ok by now rewrite Hf.
  erewrite SetVersionTx_open by reflexivity.
  cbn [disk txn env faults journal]. rewrite Hs, Hf. cbn [fst snd tl Z.eqb Pos.eqb negb].
  erewrite Finalize_commit; [|reflexivity|reflexivity].
  cbn [disk txn env faults journal tl]. now rewrite <- !app_assoc.
Qed.

(** X20. [NoTx(cmds...)] on an [sqlDB].  As a dry run it returns nil and
    does nothing at all: no driver call, not even the version check.
    Otherwise, with a driver that does not fail to begin or commit: when
    the database is not at [info.From] it returns an error wrapping
    ["db is <version>"] after the version query alone; when it is, the
    commands run in order directly on the committed tables, up to the
    first one that fails, and what they have done stays: after a failure
    the tables are the ones the commands run have left, the version
    update is not run, and the error wraps the error of the driver;
    when all succeed, the version update runs in a transaction of its
    own and, when it affects one row, the result is nil. *)
Theorem X20_NoTx info c (cmds : list SQLCommand) :
  NoTx sql_exec cmds db info true c = (None, c)
  /\ (faults c = [] ->
      forall id cs v,
        sql_query_row (VersionQuery q) (disk c) = inr (id, cs) ->
        MakeVersion id cs = (v, None) ->
        let c1 := mkConn (disk c) None (env c) []
                    (journal c ++ [callBegin; callQueryRow (VersionQuery q); callCommit]) in
        (v <> From info ->
           exists e, NoTx sql_exec cmds db info false c = (Some e, c1) /\
                     Wraps e (errorString ("db is " ++ Version_String v)))
        /\ (v = From info ->
            forall r s1 ks, execAll sql_exec cmds (disk c) = (r, s1, ks) ->
              let c2 := mkConn s1 None (env c) [] (journal c1 ++ ks) in
              (forall msg, r = Some msg ->
                 exists e, NoTx sql_exec cmds db info false c = (Some e, c2) /\
                           Wraps e (errorString msg))
              /\ (r = None ->
                  forall s2,
                    sql_exec (SetVersionQuery q) (setVersionArgs info) s1
                    = (ExecResult 1 None, s2) ->
                    NoTx sql_exec cmds db info false c
                    = (None,
                       mkConn s2 None (env c) []
                         (journal c2 ++
                            [callBegin;
                             callExec (SetVersionQuery q) (setVersionArgs info);
                             callCommit]))))).
Proof.
  split; [reflexivity|].
  intros Hf id cs v Hq Hv c1. unfold NoTx.
  cbn [sqlDB Database_asSQLDB Database_Version sqlDB_SQLDB SQLDB_SetVersion].
  rewrite (sqlDB_Version_ok c Hf Hq Hv). subst c1.
  split.
  - intros Hne.
    assert (Hneq : Version_eqb v (From info) = false).
    { destruct (Version_eqb v (From info)) eqn:E; [|reflexivity].
      apply Version_eqb_eq in E. contradiction. }
    rewrite Hneq. cbn [negb]. eexists. split; [reflexivity|].
    apply Wraps_Errorf_w, Wraps_refl.
  - intros -> r s1 ks Hall. rewrite Version_eqb_refl. cbn [negb].
    rewrite NoTx_loop_spec. cbn [disk txn env faults journal]. rewrite Hall.
    cbn [fst snd].
    set (c2 := mkConn s1 None (env c) []
                 ((journal c ++ [callBegin; callQueryRow (VersionQuery q); callCommit])
                    ++ ks)).
    split.
    + intros msg ->. cbn [option_map]. eexists. split; [reflexivity|].
      apply Wraps_Errorf_w, Wraps_refl.
    + intros -> s2 Hs. cbn [option_map].
      rewrite (@sqlDB_SetVersion_ok info c2 s2 eq_refl Hs). reflexivity.
Qed.

(** X22. [sqlDB.InitVersion].  Every error it returns wraps
    [ErrNotInitialized], and none wraps [ErrAlreadyInitialized], also
    when the version table exists already.  When the transaction begins
    and the statement that creates the table fails, the row is not
    inserted, the transaction is rolled back and the error wraps the
    error of the driver.  When it returns nil without [dryRun], both
    statements have run, the second with the id and the hexadecimal
    checksum of the version, the transaction is committed and the
    tables are the ones the two statements leave. *)
Theorem X22_InitVersion (v : Version) (dryRun : bool) c (err : option error) c'
    (H : sqlDB_InitVersion sql_exec q v dryRun c = (err, c')) :
  (forall e, err = Some e ->
     Is e ErrNotInitialized = true /\ Is e ErrAlreadyInitialized = false)
  /\ env c' = env c
  /\ (hd None (faults c) = None ->
      forall msg s1,
        sql_exec (CreateTableQuery q) [] (disk c) = (ExecError msg, s1) ->
        (exists e, err = Some e /\ Wraps e (errorString msg)) /\
        journal c'
        = (journal c ++ [callBegin; callExec (CreateTableQuery q) []; callRollback])%list /\
        disk c' = disk c)
  /\ (err = None -> dryRun = false ->
      exists n1 r1 s1 n2 r2,
        sql_exec (CreateTableQuery q) [] (disk c) = (ExecResult n1 r1, s1) /\
        sql_exec (InitTableQuery q) [argInt (ID v); argText (ChecksumString v)] s1
        = (ExecResult n2 r2, disk c') /\
        journal c'
        = (journal c ++
             [callBegin; callExec (CreateTableQuery q) [];
              callExec (InitTableQuery q) [argInt (ID v); argText (ChecksumString v)];
              callCommit])%list).
Proof.
  unfold sqlDB_InitVersion, sqlDB_StartTransaction, DB_BeginTx, Tx_Exec,
    sqlTx_FinalizeTransaction, Tx_Rollback, Tx_Commit, next_fault, record, set_txn,
    ChecksumString in *.
  cbn [txn faults disk env journal] in H.
  destruct (faults c) as [|[m0|] fs]; cbn [txn faults disk env journal hd] in *.
  2: { injection H as <- <-. cbn [env]. split; [|split; [reflexivity|split]].
       - intros e C. injection C as <-. split; reflexivity.
       - intros C; discriminate C.
       - intros C; discriminate C. }
  all: destruct (sql_exec (CreateTableQuery q) [] (disk c)) as [[m1|n1 r1] s1] eqn:E1;
    cbn [txn faults disk env journal orb] in H;
    [|destruct (sql_exec (InitTableQuery q)
                  [argInt (ID v); argText (EncodeToString (Checksum v))] s1)
        as [[m2|n2 r2] s2] eqn:E2;
      cbn [txn faults disk env journal orb] in H];
    try (destruct dryRun; cbn [txn faults disk env journal orb] in H);
    try (destruct fs as [|[m3|] fs]; cbn [txn faults disk env journal option_map] in H);
    injection H as <- <-; cbn [env journal disk];
    (split; [intros e C; first [discriminate C | injection C as <-; split; reflexivity]|]);
    (split; [reflexivity|]);
    (split;
     [ intros _ msg s1' C; first [discriminate C | injection C as <- <-];
       (split; [eexists; split; [reflexivity|];
                first [ apply Wraps_Errorf_ww_second, Wraps_refl
                      | apply Wraps_Errorf_ww_second, Wraps_Errorf_www_first, Wraps_refl ]|]);
       (split; [rewrite <- !app_assoc; reflexivity | reflexivity])
     | intros C1 C2; first [discriminate C1 | discriminate C2 |
         exists n1, r1, s1, n2, r2; split; [reflexivity|]; split; [exact E2|];
         rewrite <- !app_assoc; reflexivity ] ]).
Qed.

(** X23. [sqlDB.Version] reads the version row in a transaction of its
    own and never changes the committed tables.  When the transaction
    does not begin it returns the bad sentinel and an error wrapping
    [ErrBeginTx].  When the query fails (no table, no row) it returns
    the zero [Version], not the bad sentinel, with an error wrapping
    [ErrNotInitialized] and the error of the driver, and rolls back.
    Otherwise it returns what [MakeVersion] makes of the row: with an
    error of [MakeVersion] the bad sentinel, a wrapping error and a
    rollback; else the version, after a commit. *)
Theorem X23_sqlDB_Version c (v : Version) (err : option error) c'
    (H : sqlDB_Version sql_query_row q c = (v, err, c')) :
  disk c' = disk c /\ env c' = env c
  /\ (forall msg, hd None (faults c) = Some msg ->
        v = badVersion /\ (exists e, err = Some e /\ Is e ErrBeginTx = true) /\
        journal c' = (journal c ++ [callBegin])%list)
  /\ (hd None (faults c) = None ->
      (forall msg, sql_query_row (VersionQuery q) (disk c) = inl msg ->
         v = mkVersion 0 zeroChecksum /\
         (exists e, err = Some e /\ Is e ErrNotInitialized = true /\
                    Wraps e (errorString msg)) /\
         journal c'
         = (journal c ++ [callBegin; callQueryRow (VersionQuery q); callRollback])%list)
      /\ (forall id cs, sql_query_row (VersionQuery q) (disk c) = inr (id, cs) ->
            v = fst (MakeVersion id cs) /\
            (forall e0, snd (MakeVersion id cs) = Some e0 ->
               v = badVersion /\ (exists e, err = Some e /\ Wraps e e0) /\
               journal c'
               = (journal c ++ [callBegin; callQueryRow (VersionQuery q);
                                callRollback])%list) /\
            (snd (MakeVersion id cs) = None ->
               journal c'
               = (journal c ++ [callBegin; callQueryRow (VersionQuery q);
                                callCommit])%list /\
               (err = None \/ exists e, err = Some e /\ Is e ErrCommitTx = true)))).
Proof.
  assert (Hbad : forall id cs e0, snd (MakeVersion id cs) = Some e0 ->
                                  fst (MakeVersion id cs) = badVersion).
  { intros id cs e0. unfold MakeVersion.
    destruct (id <? 0); [reflexivity|].
    destruct (hexDecode cs) as [b [m|]]; [reflexivity|].
    destruct (negb (Nat.eqb (List.length b) 32)); [reflexivity | discriminate]. }
  unfold sqlDB_Version, sqlDB_StartTransaction, DB_BeginTx, sqlDB_VersionTx,
    Tx_QueryRow_Scan, sqlTx_FinalizeTransaction, Tx_Rollback, Tx_Commit,
    next_fault, record, set_txn in H.
  cbn [txn faults disk env journal] in H.
  destruct (faults c) as [|[m0|] fs]; cbn [txn faults disk env journal hd] in *.
  2: { injection H as <- <- <-. cbn [env disk journal].
       split; [reflexivity|]. split; [reflexivity|]. split.
       - intros msg _. split; [reflexivity|]. split; [|reflexivity].
         eexists. split; reflexivity.
       - intros C; discriminate C. }
  all: destruct (sql_query_row (VersionQuery q) (disk c)) as [m1|[id cs]] eqn:E1;
    [|pose proof (Hbad id cs) as Hb;
      destruct (MakeVersion id cs) as [v1 [e1|]] eqn:E2; cbn [fst snd] in Hb];
    cbn [txn faults disk env journal orb] in H;
    try (destruct fs as [|[m3|] fs]; cbn [txn faults disk env journal option_map] in H);
    injection H as <- <- <-; cbn [env journal disk fst snd];
    (split; [reflexivity|]); (split; [reflexivity|]);
    (split; [intros msg C; discriminate C|]);
    intros _;
    (split;
     [ intros msg C; first [discriminate C | injection C as <-];
       (split; [reflexivity|]);
       (split; [eexists; split; [reflexivity|]; split; [reflexivity|];
                first [ apply Wraps_Errorf_ww_second, Wraps_refl
                      | apply Wraps_Errorf_www_first, Wraps_Errorf_ww_second, Wraps_refl ]
               | rewrite <- !app_assoc; reflexivity])
     | intros id' cs' C; first [discriminate C | injection C as <- <-];
       rewrite ?E2; cbn [fst snd];
       (split; [reflexivity|]);
       (split;
        [ intros e0 C; first [discriminate C | injection C as <-];
          (split; [now apply (Hb e1)|]);
          (split; [eexists; split; [reflexivity|];
                   first [ apply Wraps_refl | apply Wraps_Errorf_www_first, Wraps_refl ]
                  | rewrite <- !app_assoc; reflexivity])
        | intros C; first [discriminate C | idtac];
          (split; [rewrite <- !app_assoc; reflexivity|]);
          first [ left; reflexivity | right; eexists; split; reflexivity ] ]) ]).
Qed.

End SqlExtras.

Section NoTxFExtras.

Variable W : Type.

Lemma NoTxF_loop_app (fs1 : list (NoTxFunc W)) (f : NoTxFunc W)
    (fs2 : list (NoTxFunc W)) (sdb : SQLDB W) (info : StepInfo) :
  forall w1 w2 x w3,
    NoTxF_loop fs1 sdb info w1 = (None, w2) ->
    f sdb info w2 = (Some x, w3) ->
    NoTxF_loop (fs1 ++ f :: fs2) sdb info w1 = (Some x, w3).
Proof.
  induction fs1 as [|g fs1 IH]; intros w1 w2 x w3 H1 Hf; cbn [NoTxF_loop app] in *.
  - injection H1 as <-. now rewrite Hf.
  - destruct (g sdb info w1) as [[e|] w]; [discriminate|]. eapply IH; eassumption.
Qed.

(** X21. [NoTxF(fs...)] on a database that is an [SQLDB].  As a dry run it
    returns nil and calls nothing.  Otherwise it reads the version with
    [Version]; when that is not [info.From] it returns an error wrapping
    ["db is <version>"] and calls no callback.  The callbacks run in
    order up to the first one that returns an error, whatever the error:
    [ErrCancel] has no special treatment, the step function returns an
    error wrapping it; the callbacks after it and [SetVersion] are not
    called, and the state is the one that callback left.  When every
    callback returns nil, the result is that of [SetVersion] (wrapped when
    it is an error). *)
Theorem X21_NoTxF (gdb : Database W) (sdb : SQLDB W)
    (Hsql : Database_asSQLDB gdb = Some sdb)
    (fs : list (NoTxFunc W)) (info : StepInfo) (w : W) :
  NoTxF fs gdb info true w = (None, w)
  /\ (forall v w1,
        Database_Version gdb w = (v, None, w1) -> v <> From info ->
        exists e, NoTxF fs gdb info false w = (Some e, w1) /\
                  Wraps e (errorString ("db is " ++ Version_String v)))
  /\ (forall w1 fs1 f fs2 w2 x w3,
        fs = (fs1 ++ f :: fs2)%list ->
        Database_Version gdb w = (From info, None, w1) ->
        NoTxF_loop fs1 sdb info w1 = (None, w2) ->
        f sdb info w2 = (Some x, w3) ->
        exists e, NoTxF fs gdb info false w = (Some e, w3) /\
                  Wraps e x /\ Is e ErrCancel = Is x ErrCancel)
  /\ (forall w1 w2,
        Database_Version gdb w = (From info, None, w1) ->
        NoTxF_loop fs sdb info w1 = (None, w2) ->
        NoTxF fs gdb info false w
        = (NoTx_deferred info (fst (SQLDB_SetVersion sdb info false w2)),
           snd (SQLDB_SetVersion sdb info false w2))).
Proof.
  unfold NoTxF. rewrite Hsql. split; [reflexivity|]. split; [|split].
  - intros v w1 Hv Hne. rewrite Hv.
    assert (Hneq : Version_eqb v (From info) = false).
    { destruct (Version_eqb v (From info)) eqn:E; [|reflexivity].
      apply Version_eqb_eq in E. contradiction. }
    rewrite Hneq. cbn [negb]. eexists. split; [reflexivity|].
    apply Wraps_Errorf_w, Wraps_refl.
  - intros w1 fs1 f fs2 w2 x w3 -> Hv H1 Hf. rewrite Hv, Version_eqb_refl. cbn [negb].
    eexists. split.
    + rewrite (@NoTxF_loop_app fs1 f fs2 sdb info w1 w2 x w3 H1 Hf). reflexivity.
    + split; [apply Wraps_Errorf_w, Wraps_refl | reflexivity].
  - intros w1 w2 Hv H1. rewrite Hv, Version_eqb_refl. cbn [negb]. rewrite H1.
    destruct (SQLDB_SetVersion sdb info false w2); reflexivity.
Qed.

End NoTxFExtras.

(** X19. On a [Database] that is not an [SQLDB], the step functions made by
    [TxF], [NoTxF], [Tx] and [NoTx] return an error wrapping [ErrNotSQLDB]
    and touch nothing, as a dry run or not (for [NoTx] and [NoTxF] the
    check comes before the one on [dryRun]). *)
Theorem X19_not_an_SQLDB :
  (forall (W : Type) (gdb : Database W),
     Database_asSQLDB gdb = None ->
     forall (fs : list (TxFunc W)) (nfs : list (NoTxFunc W)) info dryRun w,
     forall step, In step [TxF fs; NoTxF nfs] ->
       exists e, step gdb info dryRun w = (Some e, w) /\ Is e ErrNotSQLDB = true)
  /\ (forall (Store Env : Type)
        (sql_exec : string -> list sqlarg -> Store -> ExecOutcome * Store)
        (gdb : Database (Conn Store Env)),
        Database_asSQLDB gdb = None ->
        forall (cmds : list SQLCommand) info dryRun c,
        forall step, In step [Tx sql_exec cmds; NoTx sql_exec cmds] ->
          exists e, step gdb info dryRun c = (Some e, c) /\ Is e ErrNotSQLDB = true).
Proof.
  split.
  - intros W gdb Hn fs nfs info dryRun w step [<- | [<- | []]];
      unfold TxF, NoTxF; rewrite Hn; eexists; split; reflexivity.
  - intros Store Env sql_exec gdb Hn cmds info dryRun c step [<- | [<- | []]];
      unfold Tx, NoTx; rewrite Hn; eexists; split; reflexivity.
Qed.

(* ================================================================== *)
(** ** The further properties at work *)

Lemma X1_Append_extends_witness :
  Steps_Append (NewSteps mockDatabase "test-db") "step1" None None
  = Some (None, testRegistry)
  /\ Steps_Len testRegistry = Steps_Len (NewSteps mockDatabase "test-db") + 1
  /\ Steps_Name testRegistry (Steps_Len (NewSteps mockDatabase "test-db"))
     = ("step1", None).
Proof.
  assert (H : Steps_Append (NewSteps mockDatabase "test-db") "step1" None None
              = Some (None, testRegistry)) by (vm_compute; reflexivity).
  split; [exact H|]. split.
  - exact (proj1 (X1_Append_extends _ _ _ _ H)).
  - exact (proj1 (proj2 (proj2 (proj2 (proj2 (proj2 (X1_Append_extends _ _ _ _ H))))))).
Defined.

Lemma X2_Up_Down_of_Append_witness :
  exists vk vk1,
    Steps_Version testRegistry (Z.of_nat 0) = (vk, None) /\
    Steps_Version testRegistry (Z.of_nat 0 + 1) = (vk1, None) /\
    Steps_Up testRegistry vk = inl (mkStepInfo "step1" vk vk1, None) /\
    Steps_Down testRegistry vk1 = inl (mkStepInfo "step1" vk1 vk, None).
Proof.
  exact (@X2_Up_Down_of_Append mockDatabase "test-db" [("step1", None, None)]
           testRegistry testRegistry_replay 0%nat "step1" None None eq_refl).
Defined.

Lemma X3_Check_iff_Version_witness :
  exists v, Steps_Version testRegistry 1 = (v, None) /\ ID v = 1 /\
            Steps_Check testRegistry v = None.
Proof.
  apply (proj2 (X3_Check_iff_Version testRegistry) testRegistry_Built 1).
  rewrite testRegistry_Len. lia.
Defined.

Lemma X5_Append_needs_anchor_witness :
  "step2" <> ""
  /\ exists s', Steps_Append testRegistry "step2" None None = Some (None, s') /\ Built s'.
Proof.
  assert (H : "step2" <> "") by discriminate.
  split; [exact H|].
  exact (proj2 (@X5_Append_needs_anchor mockDatabase testRegistry "step2" None None H)
           testRegistry_Built).
Defined.

Lemma X6_registry_versions_persist_witness :
  exists v,
    Steps_Version testRegistry 1 = (v, None) /\
    List.length (Checksum v) = 32%nat /\
    String.length (ChecksumString v) = 64%nat /\
    MakeVersion (ID v) (ChecksumString v) = (v, None).
Proof.
  apply (@X6_registry_versions_persist mockDatabase testRegistry testRegistry_Built 1).
  rewrite testRegistry_Len. lia.
Defined.

Lemma X7_MakeVersion_validates_witness :
  let v0 := fst (Steps_Version testRegistry 0) in
  MakeVersion 0 (ChecksumString v0) = (v0, None)
  /\ String.length (ChecksumString v0) = 64%nat
  /\ snd (MakeVersion 7 "0F3182D0B4ad9e6d0f3182d0b4ad9e6d0f3182d0b4ad9e6d0f3182d0b4AD9E6D")
     = None
  /\ (exists e, MakeVersion 0 "0f31" = (badVersion, Some e) /\
                Is e ErrBadVersionChecksum = true).
Proof.
  cbv zeta.
  assert (H : MakeVersion 0 (ChecksumString (fst (Steps_Version testRegistry 0)))
              = (fst (Steps_Version testRegistry 0), None)) by (vm_compute; reflexivity).
  split; [exact H|]. split; [|split].
  - exact (proj1 (proj2 (proj2 (proj2
             (proj1 (proj2 (X7_MakeVersion_validates 0 _)) _ H))))).
  - apply (proj2 (proj1 (X7_MakeVersion_validates 7 _))).
    split; [lia|]. split; reflexivity.
  - apply (proj2 (proj2 (proj2 (X7_MakeVersion_validates 0 "0f31")))); [lia | discriminate].
Defined.

Lemma X8_Version_cache_witness :
  let v0 := fst (Steps_Version testRegistry 0) in
  let m := mkMigrator mockDB (Steps_Stepper testRegistry) v0 in
  let w := mkMock v0 true None None (Some errMock) in
  Migrator_Version m w = (badVersion, Some errMock, set_cachedVersion m badVersion, w)
  /\ cachedVersion (set_cachedVersion m badVersion) = badVersion
  /\ exists e, Migrator_OneUp (set_cachedVersion m badVersion) w
               = (Some e, set_cachedVersion m badVersion, w) /\
               Is e ErrBadVersion = true.
Proof.
  cbv zeta.
  set (v0 := fst (Steps_Version testRegistry 0)).
  set (m := mkMigrator mockDB (Steps_Stepper testRegistry) v0).
  set (w := mkMock v0 true None None (Some errMock)).
  assert (H : Migrator_Version m w
              = (badVersion, Some errMock, set_cachedVersion m badVersion, w))
    by reflexivity.
  split; [exact H|].
  destruct (X8_Version_cache _ _ H) as (_ & _ & Hc & _ & _ & _ & Hone).
  split; [exact Hc|].
  apply (Hone ltac:(discriminate) testRegistry eq_refl (@Migrator_OneUp mockDatabase)).
  left. reflexivity.
Defined.

Lemma X9_Init_witness :
  let v0 := fst (Steps_Version testRegistry 0) in
  let m := mkMigrator mockDB (Steps_Stepper testRegistry) badVersion in
  Database_Version mockDB (mockAt v0) = (v0, None, mockAt v0)
  /\ exists err,
       initCtx m false (mockAt v0) = (Some err, set_cachedVersion m v0, mockAt v0) /\
       Is err ErrAlreadyInitialized = true.
Proof.
  cbv zeta.
  set (v0 := fst (Steps_Version testRegistry 0)).
  set (m := mkMigrator mockDB (Steps_Stepper testRegistry) badVersion).
  assert (H : Database_Version (m_db m) (mockAt v0) = (v0, None, mockAt v0))
    by reflexivity.
  split; [exact H|].
  apply (proj1 (X9_Init m false _ H) eq_refl).
  vm_compute. reflexivity.
Defined.

Lemma X10_OneUp_OneDown_cache_witness :
  let v0 := fst (Steps_Version testRegistry 0) in
  let v1 := fst (Steps_Version testRegistry 1) in
  let m := mkMigrator mockDB (Steps_Stepper testRegistry) v0 in
  Migrator_OneUp m (mockAt v0) = (None, set_cachedVersion m v1, mockAt v1)
  /\ Migrator_OneDown (set_cachedVersion m v1) (mockAt v1) = (None, m, mockAt v0)
  /\ Steps_Check testRegistry (cachedVersion m) = None.
Proof.
  cbv zeta.
  set (v0 := fst (Steps_Version testRegistry 0)).
  set (v1 := fst (Steps_Version testRegistry 1)).
  set (m := mkMigrator mockDB (Steps_Stepper testRegistry) v0).
  assert (H1 : Migrator_OneUp m (mockAt v0) = (None, set_cachedVersion m v1, mockAt v1))
    by (vm_compute; reflexivity).
  assert (H2 : Migrator_OneDown (set_cachedVersion m v1) (mockAt v1) = (None, m, mockAt v0))
    by (vm_compute; reflexivity).
  split; [exact H1|]. split; [exact H2|].
  exact (proj1 (proj1 (@X10_OneUp_OneDown_cache mockDatabase testRegistry
                         testRegistry_Built m (mockAt v0) eq_refl) _ _ H1)).
Defined.

Lemma X11_All_loops_terminate_witness :
  let v0 := fst (Steps_Version testRegistry 0) in
  let m := mkMigrator mockDB (Steps_Stepper testRegistry) v0 in
  (exists r, forall fuel', (2 <= fuel')%nat -> Migrator_AllUp fuel' m (mockAt v0) = Some r)
  /\ (exists r, forall fuel', (2 <= fuel')%nat ->
                  Migrator_AllDown fuel' m (mockAt v0) = Some r).
Proof.
  cbv zeta.
  apply (@X11_All_loops_terminate mockDatabase testRegistry testRegistry_Built
           (mkMigrator mockDB (Steps_Stepper testRegistry) (fst (Steps_Version testRegistry 0)))
           (mockAt (fst (Steps_Version testRegistry 0))) eq_refl 2).
  rewrite testRegistry_Len. simpl. lia.
Defined.

Lemma X12_All_loops_nil_witness :
  let v0 := fst (Steps_Version threeSteps 0) in
  let v3 := fst (Steps_Version threeSteps 3) in
  let m := mkMigrator mockDB (Steps_Stepper threeSteps) v0 in
  let m' := mkMigrator mockDB (Steps_Stepper threeSteps) v3 in
  Migrator_AllUp 4 m (mockAt v0) = Some (None, m', mockAt v3)
  /\ Steps_Check threeSteps (cachedVersion m') = None.
Proof.
  cbv zeta.
  set (v0 := fst (Steps_Version threeSteps 0)).
  set (v3 := fst (Steps_Version threeSteps 3)).
  assert (H : Migrator_AllUp 4 (mkMigrator mockDB (Steps_Stepper threeSteps) v0) (mockAt v0)
              = Some (None, mkMigrator mockDB (Steps_Stepper threeSteps) v3, mockAt v3))
    by (vm_compute; reflexivity).
  split; [exact H|].
  exact (proj1 (proj2 (proj2
           (proj1 (@X12_All_loops_nil mockDatabase threeSteps
                     (mkMigrator mockDB (Steps_Stepper threeSteps) v0) (mockAt v0)
                     eq_refl 4 _ _)
              H)))).
Defined.

(** A step function that fails with [ErrEndOfSteps] ends [AllUp] with nil
    at the version before its step, here version 0 of three. *)
Example AllUp_ended_by_a_step :
  let v0 := fst (Steps_Version earlyRegistry 0) in
  let m := mkMigrator mockDB (Steps_Stepper earlyRegistry) v0 in
  Steps_Len earlyRegistry = 3 /\
  Migrator_AllUp 4 m (mockAt v0) = Some (None, m, mockAt v0) /\
  (exists e, Migrator_OneUp m (mockAt v0) = (Some e, m, mockAt v0) /\
             Is e ErrEndOfSteps = true).
Proof.
  cbv zeta. split; [vm_compute; reflexivity|]. split; [vm_compute; reflexivity|].
  eexists. split; vm_compute; reflexivity.
Qed.

Lemma X13_FinalizeTransaction_witness :
  txn openConn = Some (Some [])
  /\ sqlTx_FinalizeTransaction None false openConn
     = (None, mkConn (Some []) None 0%nat [] [callBegin; callCommit])
  /\ txn (mkConn (Some [] : rowStore) None 0%nat [] [callBegin; callCommit]) = None.
Proof.
  assert (H : sqlTx_FinalizeTransaction None false openConn
              = (None, mkConn (Some []) None 0%nat [] [callBegin; callCommit]))
    by reflexivity.
  split; [reflexivity|]. split; [exact H|].
  exact (proj1 (@X13_FinalizeTransaction rowStore nat None false openConn (Some [])
                  eq_refl _ _ H)).
Defined.

Lemma X15_SetVersion_compare_and_swap_witness :
  hd None (faults demoConn) = None
  /\ exists c',
       sqlDB_SetVersion rowStore_exec sqliteQueries demoInfo false demoConn = (None, c') /\
       Database_DefaultStepFunc rowDB demoInfo false demoConn = (None, c') /\
       rowStore_exec (SetVersionQuery sqliteQueries) (setVersionArgs demoInfo) (disk demoConn)
       = (ExecResult 1 None, disk c').
Proof.
  split; [reflexivity|].
  destruct (sqlDB_SetVersion rowStore_exec sqliteQueries demoInfo false demoConn)
    as [err c'] eqn:E.
  assert (He : err = None) by (vm_compute in E; now injection E as <- _).
  subst err. exists c'. split; [reflexivity|].
  destruct (@X15_SetVersion_compare_and_swap rowStore nat rowStore_exec rowStore_query_row
              sqliteQueries demoInfo false demoConn eq_refl None c' E) as (Hd & Hok & _).
  split; [exact Hd|]. exact (proj1 (Hok eq_refl eq_refl)).
Defined.

Lemma demo_version_row :
  exists id cs,
    rowStore_query_row (VersionQuery sqliteQueries) (disk demoConn) = inr (id, cs) /\
    MakeVersion id cs = (From demoInfo, None).
Proof.
  exists 0, (ChecksumString (fst (Steps_Version testRegistry 0))).
  split; vm_compute; reflexivity.
Defined.

Lemma X16_Tx_first_failure_witness :
  exists e c',
    Tx rowStore_exec ([addRow] ++ unknownCmd :: [addRow]) rowDB demoInfo false demoConn
    = (Some e, c') /\
    Wraps e (errorString "unknown statement") /\
    journal c'
    = ([] ++ [callBegin; callQueryRow (VersionQuery sqliteQueries)]
         ++ [callExec (SQLCommand_Cmd addRow) (SQLCommand_Args addRow)]
         ++ [callExec (SQLCommand_Cmd unknownCmd) (SQLCommand_Args unknownCmd);
             callRollback])%list /\
    List.length [callExec (SQLCommand_Cmd addRow) (SQLCommand_Args addRow)]
    = List.length [addRow] /\
    disk c' = disk demoConn /\ txn c' = None /\ env c' = env demoConn.
Proof.
  apply (@X16_Tx_first_failure rowStore nat rowStore_exec rowStore_query_row
           sqliteQueries demoInfo false demoConn eq_refl demo_version_row
           [addRow] unknownCmd [addRow]
           (Some [(0, ChecksumString (fst (Steps_Version testRegistry 0))); (7, "seven")])
           [callExec (SQLCommand_Cmd addRow) (SQLCommand_Args addRow)]
           "unknown statement"
           (Some [(0, ChecksumString (fst (Steps_Version testRegistry 0))); (7, "seven")]));
    vm_compute; reflexivity.
Defined.

Lemma X17_Tx_commits_or_dry_runs_witness :
  Tx rowStore_exec [addRow] rowDB demoInfo false demoConn
  = (None,
     mkConn (Some [(1, ChecksumString (To demoInfo)); (7, "seven")]) None (env demoConn) []
       (journal demoConn ++ [callBegin; callQueryRow (VersionQuery sqliteQueries)]
          ++ [callExec (SQLCommand_Cmd addRow) (SQLCommand_Args addRow)]
          ++ [callExec (SetVersionQuery sqliteQueries) (setVersionArgs demoInfo);
              callCommit])).
Proof.
  apply (@X17_Tx_commits_or_dry_runs rowStore nat rowStore_exec rowStore_query_row
           sqliteQueries demoInfo false demoConn eq_refl demo_version_row
           [addRow]
           (Some [(0, ChecksumString (fst (Steps_Version testRegistry 0))); (7, "seven")])
           [callExec (SQLCommand_Cmd addRow) (SQLCommand_Args addRow)]
           (Some [(1, ChecksumString (To demoInfo)); (7, "seven")]));
    vm_compute; reflexivity.
Defined.

Lemma X18_version_guard_witness :
  let info := mkStepInfo "step1" (To demoInfo) (From demoInfo) in
  exists e c',
    Tx rowStore_exec [addRow] rowDB info false demoConn = (Some e, c') /\
    Wraps e (errorString ("db is " ++ Version_String (From demoInfo))) /\
    journal c'
    = (journal demoConn
         ++ [callBegin; callQueryRow (VersionQuery sqliteQueries); callRollback])%list /\
    disk c' = disk demoConn /\ env c' = env demoConn /\ txn c' = None.
Proof.
  cbv zeta.
  assert (Hrow : rowStore_query_row (VersionQuery sqliteQueries) (disk demoConn)
                 = inr (0, ChecksumString (fst (Steps_Version testRegistry 0))))
    by reflexivity.
  assert (Hv : MakeVersion 0 (ChecksumString (fst (Steps_Version testRegistry 0)))
               = (From demoInfo, None)) by (vm_compute; reflexivity).
  assert (Hne : From demoInfo <> From (mkStepInfo "step1" (To demoInfo) (From demoInfo))).
  { intros C. vm_compute in C. discriminate C. }
  apply (@X18_version_guard rowStore nat rowStore_exec rowStore_query_row sqliteQueries
           (mkStepInfo "step1" (To demoInfo) (From demoInfo)) false demoConn eq_refl
           _ _ _ Hrow Hv Hne [] [addRow]).
  right. left. reflexivity.
Defined.

Lemma X19_not_an_SQLDB_witness :
  (exists e, TxF [] mockDB demoInfo false (mockAt (From demoInfo))
             = (Some e, mockAt (From demoInfo)) /\ Is e ErrNotSQLDB = true)
  /\ (exists e, NoTx rowStore_exec [addRow] plainDB demoInfo true demoConn
                = (Some e, demoConn) /\ Is e ErrNotSQLDB = true).
Proof.
  split.
  - apply (proj1 X19_not_an_SQLDB mockDatabase mockDB eq_refl [] []).
    left. reflexivity.
  - apply (proj2 X19_not_an_SQLDB rowStore nat rowStore_exec plainDB eq_refl [addRow]).
    right. left. reflexivity.
Defined.

Lemma X20_NoTx_witness :
  exists e,
    NoTx rowStore_exec [addRow; unknownCmd; addRow] rowDB demoInfo false demoConn
    = (Some e,
       mkConn (Some [(0, ChecksumString (From demoInfo)); (7, "seven")]) None
         (env demoConn) []
         ((journal demoConn
             ++ [callBegin; callQueryRow (VersionQuery sqliteQueries); callCommit])
            ++ [callExec (SQLCommand_Cmd addRow) (SQLCommand_Args addRow);
                callExec (SQLCommand_Cmd unknownCmd) (SQLCommand_Args unknownCmd)])) /\
    Wraps e (errorString "unknown statement").
Proof.
  assert (Hrow : rowStore_query_row (VersionQuery sqliteQueries) (disk demoConn)
                 = inr (0, ChecksumString (fst (Steps_Version testRegistry 0))))
    by reflexivity.
  assert (Hv : MakeVersion 0 (ChecksumString (fst (Steps_Version testRegistry 0)))
               = (From demoInfo, None)) by (vm_compute; reflexivity).
  refine (proj1 (proj2 (proj2 (@X20_NoTx rowStore nat rowStore_exec rowStore_query_row
                    sqliteQueries demoInfo demoConn [addRow; unknownCmd; addRow])
                  eq_refl _ _ _ Hrow Hv) eq_refl
                  (Some "unknown statement") _ _ _) "unknown statement" eq_refl).
  vm_compute. reflexivity.
Defined.

Lemma X21_NoTxF_witness :
  Database_asSQLDB rowDB
  = Some (sqlDB_SQLDB nat rowStore_exec rowStore_query_row sqliteQueries)
  /\ exists e c',
       NoTxF [countNoTx None; countNoTx (Some (ofError ErrCancel)); countNoTx None]
         rowDB demoInfo false demoConn = (Some e, c') /\
       Is e ErrCancel = true /\ env c' = 2%nat /\ disk c' = disk demoConn.
Proof.
  split; [reflexivity|].
  destruct (proj1 (proj2 (proj2
              (@X21_NoTxF (Conn rowStore nat) rowDB _ eq_refl
                 [countNoTx None; countNoTx (Some (ofError ErrCancel)); countNoTx None]
                 demoInfo demoConn)))
              (snd (Database_Version rowDB demoConn))
              [countNoTx None] (countNoTx (Some (ofError ErrCancel))) [countNoTx None]
              _ (ofError ErrCancel) _ eq_refl
              ltac:(vm_compute; reflexivity) eq_refl eq_refl)
    as (e & H & _ & Hc).
  exists e. eexists. split; [exact H|]. split; [exact Hc|]. split; reflexivity.
Defined.

Lemma X22_InitVersion_witness :
  let v0 := fst (Steps_Version testRegistry 0) in
  exists c',
    sqlDB_InitVersion rowStore_exec sqliteQueries v0 false emptyConn = (None, c') /\
    journal c'
    = (journal emptyConn ++
         [callBegin; callExec (CreateTableQuery sqliteQueries) [];
          callExec (InitTableQuery sqliteQueries) [argInt (ID v0); argText (ChecksumString v0)];
          callCommit])%list /\
    env c' = env emptyConn.
Proof.
  cbv zeta.
  destruct (sqlDB_InitVersion rowStore_exec sqliteQueries
              (fst (Steps_Version testRegistry 0)) false emptyConn) as [err c'] eqn:E.
  assert (He : err = None) by (vm_compute in E; now injection E as <- _).
  subst err. exists c'. split; [reflexivity|].
  destruct (@X22_InitVersion rowStore nat rowStore_exec sqliteQueries _ false emptyConn
              None c' E) as (_ & Henv & _ & Hok).
  destruct (Hok eq_refl eq_refl) as (n1 & r1 & s1 & n2 & r2 & _ & _ & Hj).
  split; [exact Hj | exact Henv].
Defined.

Lemma X23_sqlDB_Version_witness :
  exists c',
    sqlDB_Version rowStore_query_row sqliteQueries demoConn = (From demoInfo, None, c') /\
    disk c' = disk demoConn /\
    journal c'
    = (journal demoConn
         ++ [callBegin; callQueryRow (VersionQuery sqliteQueries); callCommit])%list.
Proof.
  destruct (sqlDB_Version rowStore_query_row sqliteQueries demoConn) as [[v err] c'] eqn:E.
  assert (He : v = From demoInfo /\ err = None).
  { vm_compute in E. injection E as <- <- _. split; vm_compute; reflexivity. }
  destruct He as [-> ->]. exists c'. split; [reflexivity|].
  destruct (@X23_sqlDB_Version rowStore nat rowStore_query_row sqliteQueries demoConn
              _ _ c' E) as (Hd & _ & _ & Hok).
  split; [exact Hd|].
  destruct (proj2 (Hok eq_refl) 0 (ChecksumString (fst (Steps_Version testRegistry 0)))
              eq_refl) as (_ & _ & Hc).
  apply Hc. vm_compute. reflexivity.
Defined.

Lemma rowRegistry_transactional :
  forall st, In st (steps rowRegistry) ->
    transactional rowStore_exec (step_up st) /\ transactional rowStore_exec (step_down st).
Proof.
  intros st Hin.
  assert (E : map (fun x => (step_up x, step_down x)) (steps rowRegistry)
              = [(None, None);
                 (Some (TxF (map (@inTx rowStore nat) [countCall None])), None);
                 (None, None)]) by (vm_compute; reflexivity).
  apply (in_map (fun x => (step_up x, step_down x))) in Hin. rewrite E in Hin.
  destruct Hin as [H | [H | [H | []]]]; injection H as <- <-; split;
    first [ left; reflexivity | right; right; exists [countCall None]; reflexivity ].
Defined.

Lemma X24_failure_or_dry_run_keeps_tables_witness :
  let v0 := fst (Steps_Version rowRegistry 0) in
  let m := mkMigrator rowDB (Steps_Stepper rowRegistry) v0 in
  let c := mkConn (Some [(0, ChecksumString v0)]) None 0%nat [] [] in
  snd (fst (Migrator_OneUpDryRun m c)) = m /\
  disk (snd (Migrator_OneUpDryRun m c)) = disk c /\
  fst (fst (Migrator_OneUpDryRun m c)) = None.
Proof.
  cbv zeta.
  set (v0 := fst (Steps_Version rowRegistry 0)).
  set (m := mkMigrator rowDB (Steps_Stepper rowRegistry) v0).
  set (c := mkConn (Some [(0, ChecksumString v0)]) None 0%nat [] []).
  assert (Hnil : fst (fst (Migrator_OneUpDryRun m c)) = None) by (vm_compute; reflexivity).
  destruct (Migrator_OneUpDryRun m c) as [[e m'] c'] eqn:E. cbn [fst snd] in *.
  destruct (@X24_failure_or_dry_run_keeps_tables rowStore nat rowStore_exec
              rowStore_query_row sqliteQueries rowRegistry rowRegistry_transactional
              m eq_refl eq_refl c (@Migrator_OneUpDryRun (Conn rowStore nat)) true
              (or_intror (or_intror (or_introl eq_refl))) e m' c' E (or_intror eq_refl))
    as [Hm Hd].
  split; [exact Hm|]. split; [exact Hd | exact Hnil].
Defined.

